(** * Perplexity chat page: message store and response simulator

    A shallow embedding of [Chatbot/Agent/Perplexity/app/page.tsx]: the
    [ChatApp] component's state, its effects on [localStorage], the handlers
    [handleSendMessage] and [clearChat], and [simulateAssistantResponse].

    Conventions.
    - A JavaScript string is the list of its UTF-16 code units ([jsstring]).
    - The platform functions the page calls ([String.prototype.trim],
      [includes], [JSON.parse], [JSON.stringify], [Date.prototype.toISOString],
      the [Date] constructor) are written out after ECMA-262;
      [String.prototype.toLowerCase], which needs the Unicode tables, is a
      parameter of the simulator, with the ASCII instance [asciiLowerCase]
      for the worked examples.
    - A Number is a binary64 value, [spec_float] of the Standard Library at
      precision 53; a time value is an integer number of milliseconds.
    - React state is a record; a handler is a function on it, and the effect
      declared with [useEffect(..., [messages])] runs after every update of
      [messages]. What the page reads from its environment ([Date.now()],
      [new Date()], [Math.random()]) is an argument of the handler that
      reads it; [handleSendMessage] is split at its [await]. *)

From Stdlib Require Import ZArith NArith Lia ZifyBool List Bool String Ascii DecimalString.
From Stdlib Require Import DecimalPos DecimalZ Floats.SpecFloat.
From stdpp Require Import gmap list.
Import ListNotations.
Local Open Scope N_scope.

(** ** Strings *)

Abbreviation jsstring := (list N) (only parsing).

(** Code units of an ASCII literal of this file. *)
Definition js (s : string) : jsstring :=
  map N_of_ascii (list_ascii_of_string s).

(** The double quote, U+0022. *)
Definition dq : jsstring := [34].

(** The box-drawing runs of the templates: U+251C or U+2514, then U+2500
    twice. *)
Definition boxBranch : jsstring := [9500; 9472; 9472].
Definition boxCorner : jsstring := [9492; 9472; 9472].

(** [String.prototype.includes]: [k] occurs in [s] as a run of code units. *)
Fixpoint startsWith (s k : jsstring) {struct k} : bool :=
  match k, s with
  | [], _ => true
  | _ :: _, [] => false
  | c :: k', d :: s' => (c =? d) && startsWith s' k'
  end.

Fixpoint includes (s k : jsstring) : bool :=
  startsWith s k ||
  match s with
  | [] => false
  | _ :: s' => includes s' k
  end.

(** ASCII instance of [toLowerCase]: A-Z to a-z, every other code unit kept. *)
Definition asciiLowerCase (s : jsstring) : jsstring :=
  map (fun c => if (65 <=? c) && (c <=? 90) then c + 32 else c) s.

(** [WhiteSpace] and [LineTerminator] code points of ECMA-262, the ones
    [trim] strips. *)
Definition isWhiteSpace (c : N) : bool :=
  ((9 <=? c) && (c <=? 13)) || (c =? 32) || (c =? 160) || (c =? 5760)
  || ((8192 <=? c) && (c <=? 8202)) || (c =? 8232) || (c =? 8233)
  || (c =? 8239) || (c =? 8287) || (c =? 12288) || (c =? 65279).

Fixpoint trimStart (s : jsstring) : jsstring :=
  match s with
  | c :: s' => if isWhiteSpace c then trimStart s' else s
  | [] => []
  end.

Definition trimEnd (s : jsstring) : jsstring := rev (trimStart (rev s)).

Definition trim (s : jsstring) : jsstring := trimEnd (trimStart s).

(** Truthiness of a string: non-empty. *)
Definition truthy (s : jsstring) : bool :=
  match s with [] => false | _ => true end.

(** ** Response templates (page.tsx, lines 188-532) *)

Definition programmingTemplate (userMessage : jsstring) : jsstring :=
  js "Great question about programming! Here's what I can help you with:

**"
  ++ userMessage
  ++ js "**

```javascript
// Here's a practical example
function solveProblem(input) {
  // Process the input
  const result = processData(input);
  
  // Return formatted result
  return {
    success: true,
    data: result,
    timestamp: new Date().toISOString()
  };
}

// Usage example
const solution = solveProblem("
  ++ dq
  ++ userMessage
  ++ dq
  ++ js ");
console.log(solution);
```

**Key considerations:**
- **Best practices**: Always follow clean code principles
- **Performance**: Consider optimization for larger datasets  
- **Error handling**: Implement proper try-catch blocks
- **Testing**: Write unit tests for reliability

Would you like me to dive deeper into any specific aspect of this implementation?".

Definition mathScienceTemplate (userMessage : jsstring) : jsstring :=
  js "Let me help you with this mathematical/scientific concept:

**Analysis of: "
  ++ dq
  ++ userMessage
  ++ dq
  ++ js "**

The approach to solving this involves several key steps:

1. **Problem identification**: Understanding the core question
2. **Method selection**: Choosing the appropriate formula or approach
3. **Calculation process**: Step-by-step solution
4. **Verification**: Checking our results

```python
# Mathematical solution approach
import math

def solve_problem(parameters):
    "
  ++ dq
  ++ dq
  ++ dq
  ++ js "
    Solve the mathematical problem step by step
    "
  ++ dq
  ++ dq
  ++ dq
  ++ js "
    # Step 1: Parse input parameters
    # Step 2: Apply relevant formulas
    # Step 3: Calculate result
    
    result = perform_calculation(parameters)
    return result

# Example usage
answer = solve_problem("
  ++ dq
  ++ userMessage
  ++ dq
  ++ js ")
print(f"
  ++ dq
  ++ js "Solution: {answer}"
  ++ dq
  ++ js ")
```

> **Note**: This is a simplified example. Real-world applications may require more complex considerations.

Would you like me to explain any specific part of this solution in more detail?".

Definition businessTemplate (userMessage : jsstring) : jsstring :=
  js "Excellent business question! Let me provide a strategic analysis:

**Topic: "
  ++ dq
  ++ userMessage
  ++ dq
  ++ js "**

## Strategic Framework

**1. Current Market Analysis**
- Market size and growth potential
- Competitive landscape assessment
- Customer needs and pain points

**2. Strategic Options**
- **Option A**: Direct approach with immediate implementation
- **Option B**: Phased rollout with market testing
- **Option C**: Partnership-based strategy

**3. Implementation Roadmap**
```
Phase 1: Research & Planning (Weeks 1-4)
"
  ++ boxBranch
  ++ js " Market research
"
  ++ boxBranch
  ++ js " Competitive analysis
"
  ++ boxCorner
  ++ js " Resource allocation

Phase 2: Development (Weeks 5-12)
"
  ++ boxBranch
  ++ js " Product/service development
"
  ++ boxBranch
  ++ js " Team building
"
  ++ boxCorner
  ++ js " Initial testing

Phase 3: Launch (Weeks 13-16)
"
  ++ boxBranch
  ++ js " Go-to-market execution
"
  ++ boxBranch
  ++ js " Performance monitoring
"
  ++ boxCorner
  ++ js " Optimization
```

**Key Success Metrics:**
- Customer acquisition cost (CAC)
- Lifetime value (LTV)
- Market penetration rate
- Revenue growth

*What specific aspect of this strategy would you like to explore further?*".

Definition aiTechnologyTemplate (userMessage : jsstring) : jsstring :=
  js "Fascinating topic about AI and technology! Here's my analysis:

**"
  ++ dq
  ++ userMessage
  ++ dq
  ++ js "**

## Current State of AI Technology

**Large Language Models (LLMs)**
- GPT-4, Claude, Gemini leading the space
- Multimodal capabilities (text, image, code)
- Reasoning and problem-solving improvements

**Key Applications:**
1. **Content Generation**: Writing, coding, creative work
2. **Analysis & Research**: Data processing, insights
3. **Automation**: Workflow optimization, decision support

```python
# AI Integration Example
class AIAssistant:
    def __init__(self, model_type="
  ++ dq
  ++ js "gpt-4"
  ++ dq
  ++ js "):
        self.model = model_type
        self.capabilities = [
            "
  ++ dq
  ++ js "text_generation"
  ++ dq
  ++ js ",
            "
  ++ dq
  ++ js "code_analysis"
  ++ dq
  ++ js ", 
            "
  ++ dq
  ++ js "problem_solving"
  ++ dq
  ++ js ",
            "
  ++ dq
  ++ js "creative_tasks"
  ++ dq
  ++ js "
        ]
    
    def process_query(self, query):
        # Analyze query intent
        intent = self.analyze_intent(query)
        
        # Generate contextual response
        response = self.generate_response(intent, query)
        
        return response

# Usage
assistant = AIAssistant()
result = assistant.process_query("
  ++ dq
  ++ userMessage
  ++ dq
  ++ js ")
```

**Future Implications:**
- Enhanced reasoning capabilities
- Better multimodal understanding
- More efficient and specialized models
- Improved human-AI collaboration

*What specific aspect of AI development interests you most?*".

Definition explanatoryTemplate (userMessage : jsstring) : jsstring :=
  js "Let me explain this concept clearly:

**"
  ++ dq
  ++ userMessage
  ++ dq
  ++ js "**

## Comprehensive Explanation

**Core Concept:**
The topic you're asking about involves several interconnected elements that work together to create the overall phenomenon or system.

**Key Components:**
- **Foundation**: The basic principles that underlie this concept
- **Mechanisms**: How the different parts interact and function
- **Applications**: Real-world uses and implementations
- **Implications**: Broader effects and consequences

**Detailed Breakdown:**

1. **Primary Factors**
   - Direct causes and influences
   - Immediate effects and outcomes

2. **Secondary Considerations**
   - Indirect relationships
   - Long-term implications

3. **Practical Examples**
   - Real-world applications
   - Case studies and scenarios

> **Key Insight**: Understanding this concept requires looking at both the individual components and how they work together as a system.

**Related Topics:**
- Connected concepts you might find interesting
- Further reading suggestions
- Areas for deeper exploration

*Would you like me to elaborate on any particular aspect of this explanation?*".

Definition designTemplate (userMessage : jsstring) : jsstring :=
  js "Great design question! Let me share some insights:

**Design Challenge: "
  ++ dq
  ++ userMessage
  ++ dq
  ++ js "**

## Design Thinking Approach

**1. Empathize & Define**
- User needs and pain points
- Context and constraints
- Success criteria

**2. Ideate & Prototype**
- Brainstorming solutions
- Rapid prototyping
- Iterative refinement

```css
/* Design System Example */
:root {
  --primary-color: #4e8cff;
  --secondary-color: #7da6ff;
  --background: #1c1c1e;
  --surface: #2c2c2e;
  --text-primary: #e5e5e7;
  --text-secondary: #a1a1a6;
}

.design-component {
  background: var(--surface);
  color: var(--text-primary);
  border-radius: 12px;
  padding: 16px;
  transition: all 0.2s ease;
}

.design-component:hover {
  transform: translateY(-2px);
  box-shadow: 0 8px 25px rgba(0,0,0,0.15);
}
```

**Design Principles:**
- **Clarity**: Clear visual hierarchy and information architecture
- **Consistency**: Unified patterns and components
- **Accessibility**: Inclusive design for all users
- **Performance**: Optimized for speed and efficiency

**Modern Trends:**
- Minimalist interfaces with purposeful elements
- Dark mode as a standard option
- Micro-interactions for enhanced UX
- Responsive design across all devices

*What specific design challenge are you working on?*".

Definition defaultTemplate (userMessage : jsstring) : jsstring :=
  js "Thank you for your question about "
  ++ dq
  ++ userMessage
  ++ dq
  ++ js ". Let me provide a thoughtful response:

## Analysis & Insights

**Understanding Your Question:**
You've raised an interesting point that touches on several important aspects worth exploring.

**Key Considerations:**

1. **Context & Background**
   - Historical perspective and development
   - Current state and recent changes
   - Influencing factors and variables

2. **Multiple Perspectives**
   - Different viewpoints and approaches
   - Pros and cons of various options
   - Stakeholder considerations

3. **Practical Implications**
   - Real-world applications
   - Potential outcomes and consequences
   - Implementation considerations

**Actionable Insights:**
- **Short-term**: Immediate steps you can take
- **Medium-term**: Strategic planning and development
- **Long-term**: Future considerations and planning

```
Framework for Analysis:
"
  ++ boxBranch
  ++ js " Problem Definition
"
  ++ boxBranch
  ++ js " Research & Data Gathering
"
  ++ boxBranch
  ++ js " Option Evaluation
"
  ++ boxBranch
  ++ js " Decision Making
"
  ++ boxCorner
  ++ js " Implementation & Review
```

> **Key Takeaway**: The most effective approach often involves considering multiple factors and adapting based on specific circumstances and goals.

**Next Steps:**
- Identify your specific priorities and constraints
- Gather additional information if needed
- Consider testing or piloting approaches
- Plan for monitoring and adjustment

*What aspect of this topic would you like to explore in more depth?*".

(** ** The response simulator *)

Section Simulator.

(** [String.prototype.toLowerCase]. *)
Variable toLowerCase : jsstring -> jsstring.

(** The text [simulateAssistantResponse] resolves with (page.tsx, lines
    176-532): the keyword tests in source order. *)
Definition responseText (userMessage : jsstring) : jsstring :=
  let message := toLowerCase userMessage in
  if includes message (js "code")
     || includes message (js "programming")
     || includes message (js "javascript")
     || includes message (js "python")
     || includes message (js "react")
     || includes message (js "css")
     || includes message (js "html")
  then programmingTemplate userMessage
  else if includes message (js "math")
     || includes message (js "calculate")
     || includes message (js "formula")
     || includes message (js "science")
     || includes message (js "physics")
     || includes message (js "chemistry")
  then mathScienceTemplate userMessage
  else if includes message (js "business")
     || includes message (js "strategy")
     || includes message (js "marketing")
     || includes message (js "startup")
     || includes message (js "company")
  then businessTemplate userMessage
  else if includes message (js "ai")
     || includes message (js "artificial intelligence")
     || includes message (js "machine learning")
     || includes message (js "technology")
     || includes message (js "future")
  then aiTechnologyTemplate userMessage
  else if includes message (js "explain")
     || includes message (js "what is")
     || includes message (js "how does")
     || includes message (js "why")
  then explanatoryTemplate userMessage
  else if includes message (js "design")
     || includes message (js "creative")
     || includes message (js "art")
     || includes message (js "ui")
     || includes message (js "ux")
  then designTemplate userMessage
  else defaultTemplate userMessage.

End Simulator.

(** *** Category selection as the specification words it

    The categories in their priority order, each with its keyword set; the
    first category one of whose keywords occurs in the lower-cased text
    wins, and the default one is used when none does. *)

Inductive Category :=
| Programming | MathScience | BusinessStrategy | AITechnology
| Explanatory | DesignCreative | DefaultCategory.

Definition keywords (c : Category) : list jsstring :=
  match c with
  | Programming =>
    [js "code"; js "programming"; js "javascript"; js "python"; js "react"; js "css"; js "html"]
  | MathScience =>
    [js "math"; js "calculate"; js "formula"; js "science"; js "physics"; js "chemistry"]
  | BusinessStrategy =>
    [js "business"; js "strategy"; js "marketing"; js "startup"; js "company"]
  | AITechnology =>
    [js "ai"; js "artificial intelligence"; js "machine learning"; js "technology"; js "future"]
  | Explanatory => [js "explain"; js "what is"; js "how does"; js "why"]
  | DesignCreative => [js "design"; js "creative"; js "art"; js "ui"; js "ux"]
  | DefaultCategory => []
  end.

Definition template (c : Category) : jsstring -> jsstring :=
  match c with
  | Programming => programmingTemplate
  | MathScience => mathScienceTemplate
  | BusinessStrategy => businessTemplate
  | AITechnology => aiTechnologyTemplate
  | Explanatory => explanatoryTemplate
  | DesignCreative => designTemplate
  | DefaultCategory => defaultTemplate
  end.

Definition priority : list Category :=
  [Programming; MathScience; BusinessStrategy; AITechnology; Explanatory; DesignCreative].

(** Position in the priority order; a smaller rank is a higher priority. *)
Definition rank (c : Category) : nat :=
  match c with
  | Programming => 0
  | MathScience => 1
  | BusinessStrategy => 2
  | AITechnology => 3
  | Explanatory => 4
  | DesignCreative => 5
  | DefaultCategory => 6
  end.

Definition matchesCategory (message : jsstring) (c : Category) : bool :=
  existsb (includes message) (keywords c).

Definition spec_selectCategory (message : jsstring) : Category :=
  match find (matchesCategory message) priority with
  | Some c => c
  | None => DefaultCategory
  end.

(** The first code units of a category's template, before the user's text. *)
Definition marker (c : Category) : jsstring :=
  match c with
  | Programming => js "Great qu"
  | MathScience => js "Let me h"
  | BusinessStrategy => js "Excellen"
  | AITechnology => js "Fascinat"
  | Explanatory => js "Let me e"
  | DesignCreative => js "Great de"
  | DefaultCategory => js "Thank yo"
  end.

(** ** Completions *)

Inductive Exception := SyntaxError | TypeError.

Inductive Completion (A : Type) :=
| Normal (a : A)
| Throw (e : Exception).
Arguments Normal {A} a.
Arguments Throw {A} e.

(** ** JSON

    A JSON text as [JSON.parse] reads it. A number keeps its lexeme: the
    page never computes with one. An object keeps its members in source
    order, duplicates included. *)

#[local] Unset Elimination Schemes.
Inductive json :=
| JNull
| JBool (b : bool)
| JNumber (lexeme : jsstring)
| JString (s : jsstring)
| JArray (elements : list json)
| JObject (members : list (jsstring * json)).
#[local] Set Elimination Schemes.

Definition hexDigit (d : N) : N := if d <? 10 then 48 + d else 87 + d.

(** [UnicodeEscape]: backslash, u, four lower-case hexadecimal digits. *)
Definition unicodeEscape (c : N) : jsstring :=
  [92; 117; hexDigit (c / 4096 mod 16); hexDigit (c / 256 mod 16);
   hexDigit (c / 16 mod 16); hexDigit (c mod 16)].

Definition isLeadingSurrogate (c : N) : bool := (55296 <=? c) && (c <=? 56319).
Definition isTrailingSurrogate (c : N) : bool := (56320 <=? c) && (c <=? 57343).

(** One code unit that is not the first half of a surrogate pair, as
    [QuoteJSONString] writes it. *)
Definition quoteUnit (c : N) : jsstring :=
  if c =? 8 then [92; 98]
  else if c =? 9 then [92; 116]
  else if c =? 10 then [92; 110]
  else if c =? 12 then [92; 102]
  else if c =? 13 then [92; 114]
  else if c =? 34 then [92; 34]
  else if c =? 92 then [92; 92]
  else if (c <? 32) || isLeadingSurrogate c || isTrailingSurrogate c then unicodeEscape c
  else [c].

Fixpoint quoteUnits (s : jsstring) : jsstring :=
  match s with
  | [] => []
  | c :: r =>
    if isLeadingSurrogate c then
      match r with
      | d :: r' =>
        if isTrailingSurrogate d then c :: d :: quoteUnits r'
        else unicodeEscape c ++ quoteUnits r
      | [] => unicodeEscape c
      end
    else quoteUnit c ++ quoteUnits r
  end.

Definition QuoteJSONString (s : jsstring) : jsstring := dq ++ quoteUnits s ++ dq.

Fixpoint join (sep : jsstring) (parts : list jsstring) : jsstring :=
  match parts with
  | [] => []
  | [p] => p
  | p :: ps => p ++ sep ++ join sep ps
  end.

(** [JSON.stringify] with no indentation. *)
Fixpoint JSON_stringify (v : json) : jsstring :=
  match v with
  | JNull => js "null"
  | JBool true => js "true"
  | JBool false => js "false"
  | JNumber lexeme => lexeme
  | JString s => QuoteJSONString s
  | JArray l => js "[" ++ join (js ",") (map JSON_stringify l) ++ js "]"
  | JObject ms =>
    js "{"
    ++ join (js ",") (map (fun kv => QuoteJSONString (fst kv) ++ js ":" ++ JSON_stringify (snd kv)) ms)
    ++ js "}"
  end.

(** Values with no number in them: what the page itself serializes. *)
Fixpoint numberFree (v : json) : bool :=
  match v with
  | JNumber _ => false
  | JArray l => forallb numberFree l
  | JObject ms => forallb (fun kv => numberFree (snd kv)) ms
  | _ => true
  end.

(** *** [JSON.parse] *)

Definition isJSONWhiteSpace (c : N) : bool :=
  (c =? 32) || (c =? 9) || (c =? 10) || (c =? 13).

Fixpoint skipWhiteSpace (s : jsstring) : jsstring :=
  match s with
  | c :: s' => if isJSONWhiteSpace c then skipWhiteSpace s' else s
  | [] => []
  end.

(** The text after the code unit [c], when [s] starts with it. *)
Definition expect (c : N) (s : jsstring) : option jsstring :=
  match s with
  | d :: s' => if c =? d then Some s' else None
  | [] => None
  end.

Definition hexValue (c : N) : option N :=
  if (48 <=? c) && (c <=? 57) then Some (c - 48)
  else if (97 <=? c) && (c <=? 102) then Some (c - 87)
  else if (65 <=? c) && (c <=? 70) then Some (c - 55)
  else None.

Definition hex4 (a b c d : N) : option N :=
  match hexValue a, hexValue b, hexValue c, hexValue d with
  | Some x, Some y, Some z, Some w => Some (x * 4096 + y * 256 + z * 16 + w)
  | _, _, _, _ => None
  end.

Definition simpleEscape (e : N) : option N :=
  if e =? 34 then Some 34
  else if e =? 92 then Some 92
  else if e =? 47 then Some 47
  else if e =? 98 then Some 8
  else if e =? 102 then Some 12
  else if e =? 110 then Some 10
  else if e =? 114 then Some 13
  else if e =? 116 then Some 9
  else None.

(** The characters of a string after its opening quote, up to and including
    the closing quote: the string's value and the text that follows. *)
Fixpoint parseStringBody (s : jsstring) : option (jsstring * jsstring) :=
  match s with
  | [] => None
  | c :: r =>
    if c =? 34 then Some ([], r)
    else if c =? 92 then
      match r with
      | [] => None
      | e :: r1 =>
        if e =? 117 then
          match r1 with
          | h1 :: h2 :: h3 :: h4 :: r2 =>
            match hex4 h1 h2 h3 h4 with
            | Some u =>
              match parseStringBody r2 with
              | Some (v, rest) => Some (u :: v, rest)
              | None => None
              end
            | None => None
            end
          | _ => None
          end
        else
          match simpleEscape e with
          | Some u =>
            match parseStringBody r1 with
            | Some (v, rest) => Some (u :: v, rest)
            | None => None
            end
          | None => None
          end
      end
    else if c <? 32 then None
    else
      match parseStringBody r with
      | Some (v, rest) => Some (c :: v, rest)
      | None => None
      end
  end.

Definition isDigit (c : N) : bool := (48 <=? c) && (c <=? 57).

Fixpoint spanDigits (s : jsstring) : jsstring * jsstring :=
  match s with
  | c :: s' =>
    if isDigit c then let (ds, rest) := spanDigits s' in (c :: ds, rest) else ([], s)
  | [] => ([], [])
  end.

(** At least one digit. *)
Definition parseDigits (s : jsstring) : option (jsstring * jsstring) :=
  match spanDigits s with
  | ([], _) => None
  | r => Some r
  end.

(** The integer part: a single 0, or a non-zero digit and more digits. *)
Definition parseInt (s : jsstring) : option (jsstring * jsstring) :=
  match s with
  | c :: s' =>
    if c =? 48 then Some ([48], s')
    else if isDigit c then let (ds, rest) := spanDigits s' in Some (c :: ds, rest)
    else None
  | [] => None
  end.

Definition parseFraction (s : jsstring) : option (jsstring * jsstring) :=
  match expect 46 s with
  | Some s' =>
    match parseDigits s' with
    | Some (ds, rest) => Some (46 :: ds, rest)
    | None => None
    end
  | None => Some ([], s)
  end.

Definition parseExponent (s : jsstring) : option (jsstring * jsstring) :=
  match s with
  | c :: s' =>
    if (c =? 101) || (c =? 69) then
      match s' with
      | g :: s'' =>
        if (g =? 43) || (g =? 45) then
          match parseDigits s'' with
          | Some (ds, rest) => Some (c :: g :: ds, rest)
          | None => None
          end
        else
          match parseDigits s' with
          | Some (ds, rest) => Some (c :: ds, rest)
          | None => None
          end
      | [] => None
      end
    else Some ([], s)
  | [] => Some ([], s)
  end.

Definition parseUnsigned (s : jsstring) : option (jsstring * jsstring) :=
  match parseInt s with
  | Some (i, r1) =>
    match parseFraction r1 with
    | Some (f, r2) =>
      match parseExponent r2 with
      | Some (e, r3) => Some (i ++ f ++ e, r3)
      | None => None
      end
    | None => None
    end
  | None => None
  end.

Definition parseNumber (s : jsstring) : option (jsstring * jsstring) :=
  match expect 45 s with
  | Some s' =>
    match parseUnsigned s' with
    | Some (l, rest) => Some (45 :: l, rest)
    | None => None
    end
  | None => parseUnsigned s
  end.

(** A member of an object: a string, a colon and a value, read by
    [parseValue]. *)
Definition parseMember (parseValue : jsstring -> option (json * jsstring)) (s : jsstring)
  : option ((jsstring * json) * jsstring) :=
  r1 ← expect 34 (skipWhiteSpace s);
  '(k, r2) ← parseStringBody r1;
  r3 ← expect 58 (skipWhiteSpace r2);
  '(v, r4) ← parseValue r3;
  Some ((k, v), r4).

(** Recursive descent with fuel; every call with less fuel reads a strictly
    shorter text, so [S (length s)] is enough for [s] ([parseValue_fuel]). *)
Fixpoint parseValue (fuel : nat) (s : jsstring) {struct fuel} : option (json * jsstring) :=
  match fuel with
  | O => None
  | S f =>
    match skipWhiteSpace s with
    | [] => None
    | c :: r =>
      if c =? 34 then
        '(v, rest) ← parseStringBody r;
        Some (JString v, rest)
      else if c =? 91 then
        match expect 93 (skipWhiteSpace r) with
        | Some rest => Some (JArray [], rest)
        | None =>
          '(v, r1) ← parseValue f r;
          '(vs, rest) ← parseArrayTail f r1;
          Some (JArray (v :: vs), rest)
        end
      else if c =? 123 then
        match expect 125 (skipWhiteSpace r) with
        | Some rest => Some (JObject [], rest)
        | None =>
          '(m, r1) ← parseMember (parseValue f) r;
          '(ms, rest) ← parseObjectTail f r1;
          Some (JObject (m :: ms), rest)
        end
      else if startsWith (c :: r) (js "true") then Some (JBool true, skipn 4 (c :: r))
      else if startsWith (c :: r) (js "false") then Some (JBool false, skipn 5 (c :: r))
      else if startsWith (c :: r) (js "null") then Some (JNull, skipn 4 (c :: r))
      else
        '(l, rest) ← parseNumber (c :: r);
        Some (JNumber l, rest)
    end
  end

(** After an element: a closing bracket, or a comma and one more element. *)
with parseArrayTail (fuel : nat) (s : jsstring) {struct fuel} : option (list json * jsstring) :=
  match fuel with
  | O => None
  | S f =>
    match expect 93 (skipWhiteSpace s) with
    | Some rest => Some ([], rest)
    | None =>
      r ← expect 44 (skipWhiteSpace s);
      '(v, r1) ← parseValue f r;
      '(vs, rest) ← parseArrayTail f r1;
      Some (v :: vs, rest)
    end
  end

(** After a member: a closing brace, or a comma and one more member. *)
with parseObjectTail (fuel : nat) (s : jsstring) {struct fuel}
  : option (list (jsstring * json) * jsstring) :=
  match fuel with
  | O => None
  | S f =>
    match expect 125 (skipWhiteSpace s) with
    | Some rest => Some ([], rest)
    | None =>
      r ← expect 44 (skipWhiteSpace s);
      '(m, r1) ← parseMember (parseValue f) r;
      '(ms, rest) ← parseObjectTail f r1;
      Some (m :: ms, rest)
    end
  end.

(** [JSON.parse]: one value, white space around it, nothing else. *)
Definition JSON_parse (text : jsstring) : Completion json :=
  match parseValue (S (length text)) text with
  | Some (v, rest) =>
    match skipWhiteSpace rest with
    | [] => Normal v
    | _ :: _ => Throw SyntaxError
    end
  | None => Throw SyntaxError
  end.

(** ** Dates

    A [Date] is its time value, milliseconds since the epoch; the page only
    holds valid ones ([new Date()], and the strings it wrote itself). The
    day and year arithmetic is ECMA-262's. *)

Local Open Scope Z_scope.

Definition msPerDay : Z := 86400000.
Definition maxTime : Z := 8640000000000000.

Definition validTime (t : Z) : Prop := - maxTime <= t <= maxTime.

Definition Day (t : Z) : Z := t / msPerDay.
Definition TimeWithinDay (t : Z) : Z := t mod msPerDay.

Definition DayFromYear (y : Z) : Z :=
  365 * (y - 1970) + (y - 1969) / 4 - (y - 1901) / 100 + (y - 1601) / 400.

Definition InLeapYear (y : Z) : Z :=
  if negb (y mod 4 =? 0) then 0
  else if negb (y mod 100 =? 0) then 1
  else if negb (y mod 400 =? 0) then 0
  else 1.

(** The year [y] with [DayFromYear y <= day < DayFromYear (y + 1)]: an
    estimate from the mean year length, corrected by at most one. *)
Definition YearFromDay (day : Z) : Z :=
  let y := 1970 + 400 * day / 146097 in
  if day <? DayFromYear y then y - 1
  else if DayFromYear (y + 1) <=? day then y + 1
  else y.

(** First day of month [m] (0 to 11; 12 is the year's end) within the year. *)
Definition monthStart (m leap : Z) : Z :=
  if m <=? 0 then 0
  else if m =? 1 then 31
  else if m =? 2 then 59 + leap
  else if m =? 3 then 90 + leap
  else if m =? 4 then 120 + leap
  else if m =? 5 then 151 + leap
  else if m =? 6 then 181 + leap
  else if m =? 7 then 212 + leap
  else if m =? 8 then 243 + leap
  else if m =? 9 then 273 + leap
  else if m =? 10 then 304 + leap
  else if m =? 11 then 334 + leap
  else 365 + leap.

Definition MonthFromDay (dayWithinYear leap : Z) : Z :=
  if dayWithinYear <? 31 then 0
  else if dayWithinYear <? 59 + leap then 1
  else if dayWithinYear <? 90 + leap then 2
  else if dayWithinYear <? 120 + leap then 3
  else if dayWithinYear <? 151 + leap then 4
  else if dayWithinYear <? 181 + leap then 5
  else if dayWithinYear <? 212 + leap then 6
  else if dayWithinYear <? 243 + leap then 7
  else if dayWithinYear <? 273 + leap then 8
  else if dayWithinYear <? 304 + leap then 9
  else if dayWithinYear <? 334 + leap then 10
  else 11.

(** [w] decimal digits of [n], most significant first. *)
Fixpoint pad (w : nat) (n : Z) : jsstring :=
  match w with
  | O => []
  | S w' => pad w' (n / 10) ++ [Z.to_N (48 + n mod 10)]
  end.

Definition yearString (y : Z) : jsstring :=
  if (0 <=? y) && (y <=? 9999) then pad 4 y
  else (if y <? 0 then js "-" else js "+") ++ pad 6 (Z.abs y).

(** [Date.prototype.toISOString] of a valid time value. *)
Definition toISOString (t : Z) : jsstring :=
  let day := Day t in
  let y := YearFromDay day in
  let leap := InLeapYear y in
  let dayWithinYear := day - DayFromYear y in
  let m := MonthFromDay dayWithinYear leap in
  let tw := TimeWithinDay t in
  yearString y ++ js "-" ++ pad 2 (m + 1) ++ js "-"
  ++ pad 2 (dayWithinYear - monthStart m leap + 1) ++ js "T"
  ++ pad 2 (tw / 3600000) ++ js ":" ++ pad 2 (tw / 60000 mod 60) ++ js ":"
  ++ pad 2 (tw / 1000 mod 60) ++ js "." ++ pad 3 (tw mod 1000) ++ js "Z".

(** Exactly [w] decimal digits. *)
Fixpoint readDigits (w : nat) (acc : Z) (s : jsstring) : option (Z * jsstring) :=
  match w with
  | O => Some (acc, s)
  | S w' =>
    match s with
    | c :: s' => if isDigit c then readDigits w' (10 * acc + (Z.of_N c - 48)) s' else None
    | [] => None
    end
  end.

(** Four digits, or a sign and six; minus zero is not a year. *)
Definition readYear (s : jsstring) : option (Z * jsstring) :=
  match expect 43 s with
  | Some s' => readDigits 6 0 s'
  | None =>
    match expect 45 s with
    | Some s' =>
      '(y, r) ← readDigits 6 0 s';
      if y =? 0 then None else Some (- y, r)
    | None => readDigits 4 0 s
    end
  end.

(** [Date.parse] where ECMA-262 fixes its result and [toISOString] can
    have written the text: the complete form of the date-time string format,
    [YYYY-MM-DDTHH:mm:ss.sssZ] with a four-digit or an expanded year, every
    field in its range and the time within the range of [Date]. [None] does
    not mean that the engine gives no date: it stands for every other text,
    whatever the engine makes of it (the shorter forms and the offsets of
    the format, a day past the end of its month, the formats an engine
    accepts besides), none of which is modelled. *)
Definition Date_parse (s : jsstring) : option Z :=
  '(y, s) ← readYear s;
  s ← expect 45 s;
  '(mo, s) ← readDigits 2 0 s;
  s ← expect 45 s;
  '(d, s) ← readDigits 2 0 s;
  s ← expect 84 s;
  '(h, s) ← readDigits 2 0 s;
  s ← expect 58 s;
  '(mi, s) ← readDigits 2 0 s;
  s ← expect 58 s;
  '(sec, s) ← readDigits 2 0 s;
  s ← expect 46 s;
  '(ms, s) ← readDigits 3 0 s;
  s ← expect 90 s;
  let leap := InLeapYear y in
  if negb (truthy s)
     && (1 <=? mo) && (mo <=? 12)
     && (1 <=? d) && (d <=? monthStart mo leap - monthStart (mo - 1) leap)
     && (mi <=? 59) && (sec <=? 59)
     && ((h <=? 23) || ((h =? 24) && (mi =? 0) && (sec =? 0) && (ms =? 0)))
  then
    let day := DayFromYear y + monthStart (mo - 1) leap + d - 1 in
    let t := day * msPerDay + h * 3600000 + mi * 60000 + sec * 1000 + ms in
    if (- maxTime <=? t) && (t <=? maxTime) then Some t else None
  else None.

(** [Number.prototype.toString] of an integer: decimal digits. *)
Definition Z_toString (n : Z) : jsstring :=
  js (NilZero.string_of_int (Z.to_int n)).

Local Close Scope Z_scope.

(** ** Numbers: the delay of the simulated response

    A Number is an IEEE 754 binary64 value, [spec_float] with precision 53
    and maximal exponent 1024. *)

Definition number (n : Z) : spec_float := binary_normalize 53 1024 n 0 false.

(** [800 + Math.random() * 1500] (page.tsx, line 174), [random] being what
    [Math.random()] returned. *)
Definition delayOf (random : spec_float) : spec_float :=
  SFadd 53 1024 (number 800) (SFmul 53 1024 random (number 1500)).

(** What [Math.random] may return: a binary64 value at least 0 and less
    than 1. *)
Definition isRandom (r : spec_float) : Prop :=
  valid_binary 53 1024 r = true
  /\ SFleb (number 0) r = true /\ SFltb r (number 1) = true.

(** ** Messages (page.tsx, lines 12-17) *)

Inductive Role := user | assistant.

Record Message := mkMessage {
  id : jsstring;
  role : Role;
  content : jsstring;
  timestamp : Z
}.

Definition roleString (r : Role) : jsstring :=
  match r with
  | user => js "user"
  | assistant => js "assistant"
  end.

(** The object [JSON.stringify] sees for a message: the own properties in
    creation order, the [Date] through its [toJSON]. *)
Definition Message_toJSON (m : Message) : json :=
  JObject [(js "id", JString (id m));
           (js "role", JString (roleString (role m)));
           (js "content", JString (content m));
           (js "timestamp", JString (toISOString (timestamp m)))].

Definition stringifyMessages (ms : list Message) : jsstring :=
  JSON_stringify (JArray (map Message_toJSON ms)).

Fixpoint streq (a b : jsstring) : bool :=
  match a, b with
  | [], [] => true
  | c :: a', d :: b' => (c =? d) && streq a' b'
  | _, _ => false
  end.

(** [Get(O, k)] on an object read from JSON: the last member named [k]. *)
Fixpoint lookupLast (k : jsstring) (ms : list (jsstring * json)) : option json :=
  match ms with
  | [] => None
  | (k', v) :: ms' =>
    match lookupLast k ms' with
    | Some w => Some w
    | None => if streq k' k then Some v else None
    end
  end.

(** [ToPrimitive] of a value read from JSON throws when no callable
    [toString] is found: on an object with a member named toString, and on
    an array whose [join] meets such an object. *)
Fixpoint toPrimitiveThrows (v : json) : bool :=
  match v with
  | JObject ms => existsb (fun kv => streq (fst kv) (js "toString")) ms
  | JArray l => existsb toPrimitiveThrows l
  | _ => false
  end.

(** Whether the callback of [.map] (page.tsx, lines 152-155) throws on the
    element [msg]: reading [msg.timestamp] of null, or [new Date] of a value
    that has no primitive. *)
Definition reviveThrows (msg : json) : bool :=
  match msg with
  | JNull => true
  | JObject ms =>
    match lookupLast (js "timestamp") ms with
    | Some v => toPrimitiveThrows v
    | None => false
    end
  | _ => false
  end.

Definition parseRole (r : jsstring) : option Role :=
  if streq r (js "user") then Some user
  else if streq r (js "assistant") then Some assistant
  else None.

(** The callback's result when the element is written as the page writes
    its messages: an object of exactly the four properties, in the page's
    order, all strings, the role one of the two, the timestamp in the form
    [Date_parse] reads. [None] for every other element: the code makes an
    object of it all the same (it may even look like a message: other
    property orders, other date forms), but this development does not
    follow such objects. *)
Definition asMessage (msg : json) : option Message :=
  match msg with
  | JObject [(k1, JString i); (k2, JString r); (k3, JString c); (k4, JString t)] =>
    if streq k1 (js "id") && streq k2 (js "role")
       && streq k3 (js "content") && streq k4 (js "timestamp")
    then
      ro ← parseRole r;
      time ← Date_parse t;
      Some {| id := i; role := ro; content := c; timestamp := time |}
    else None
  | _ => None
  end.

(** What [setMessages] receives from the load effect. [Restored]: every
    element was written as the page writes its messages, and these are the
    messages. [Foreign]: some element was not; the code gives [setMessages]
    one object per element all the same, each a copy of the element's
    properties with [timestamp] replaced by a [Date]; these objects are not
    modelled, the elements they are made from are kept. *)
Inductive Loaded :=
| Restored (ms : list Message)
| Foreign (elements : list json).

Inductive LoadOutcome :=
| NotCalled
| SetMessages (parsedMessages : Loaded)
| Thrown (e : Exception).

Definition storageKey : jsstring := js "perplexity-chat-history".

(** The effect that runs once on mount (page.tsx, lines 149-158). *)
Definition loadEffect (localStorage : gmap jsstring jsstring) : LoadOutcome :=
  match localStorage !! storageKey with
  | None => NotCalled
  | Some savedMessages =>
    if truthy savedMessages then
      match JSON_parse savedMessages with
      | Throw e => Thrown e
      | Normal (JArray l) =>
        if existsb reviveThrows l then Thrown TypeError
        else
          match mapM asMessage l with
          | Some ms => SetMessages (Restored ms)
          | None => SetMessages (Foreign l)
          end
      | Normal _ => Thrown TypeError
      end
    else NotCalled
  end.

(** ** The component *)

Inductive Settlement :=
| Fulfilled (value : jsstring)
| Rejected (error : jsstring).

(** A call of [simulateAssistantResponse] that [handleSendMessage] awaits:
    the delay given to [setTimeout] and what the promise settles with. *)
Record Pending := mkPending {
  delay : spec_float;
  settlement : Settlement
}.

Record Clock := mkClock {
  dateNow : Z;   (* Date.now() *)
  newDate : Z    (* new Date() *)
}.

Record ChatApp := mkChatApp {
  messages : list Message;
  inputValue : jsstring;
  isTyping : bool;
  localStorage : gmap jsstring jsstring;
  pending : list Pending;
  consoleErrors : list (jsstring * jsstring)
}.

(** The effect on [messages] (page.tsx, lines 161-165); it runs after every
    render that follows a [setMessages]. *)
Definition saveEffect (st : ChatApp) : ChatApp :=
  match messages st with
  | [] => st
  | _ :: _ =>
    {| messages := messages st;
       inputValue := inputValue st;
       isTyping := isTyping st;
       localStorage := <[storageKey := stringifyMessages (messages st)]> (localStorage st);
       pending := pending st;
       consoleErrors := consoleErrors st |}
  end.

Inductive MountResult :=
| Mounted (st : ChatApp)
| MountedForeign (elements : list json)
| Crashed (e : Exception).

(** First render and its effects, over the browser's [localStorage].
    [Mounted]: the page is up with nothing loaded or with the messages it
    [Restored], the save effect run. [MountedForeign]: the page is up as
    well, with the objects made from the [Foreign] elements as its messages,
    and its save effect writes them back; how such objects are shown and
    serialized is not modelled, so the development stops there and says
    nothing of that page. [Crashed]: the load effect threw. *)
Definition mount (storage : gmap jsstring jsstring) : MountResult :=
  let initial ms :=
    {| messages := ms; inputValue := []; isTyping := false;
       localStorage := storage; pending := []; consoleErrors := [] |} in
  match loadEffect storage with
  | NotCalled => Mounted (initial [])
  | SetMessages (Restored ms) => Mounted (saveEffect (initial ms))
  | SetMessages (Foreign l) => MountedForeign l
  | Thrown e => Crashed e
  end.

Section App.

Variable toLowerCase : jsstring -> jsstring.

(** [simulateAssistantResponse] (page.tsx, lines 172-533). *)
Definition simulateAssistantResponse (random : spec_float) (userMessage : jsstring) : Pending :=
  {| delay := delayOf random;
     settlement := Fulfilled (responseText toLowerCase userMessage) |}.

(** [handleSendMessage] up to its [await] (page.tsx, lines 535-550). *)
Definition handleSendMessage (clock : Clock) (random : spec_float) (st : ChatApp) : ChatApp :=
  if negb (truthy (trim (inputValue st))) then st
  else
    let userMessage :=
      {| id := Z_toString (dateNow clock);
         role := user;
         content := trim (inputValue st);
         timestamp := newDate clock |} in
    saveEffect
      {| messages := messages st ++ [userMessage];
         inputValue := [];
         isTyping := true;
         localStorage := localStorage st;
         pending := pending st ++ [simulateAssistantResponse random (trim (inputValue st))];
         consoleErrors := consoleErrors st |}.

(** [handleSendMessage] from the [await] on (page.tsx, lines 550-564):
    [s] is what the awaited promise settled with. *)
Definition handleSendMessage_resume (s : Settlement) (clock : Clock) (st : ChatApp) : ChatApp :=
  match s with
  | Fulfilled assistantResponse =>
    let assistantMessage :=
      {| id := Z_toString (dateNow clock + 1);
         role := assistant;
         content := assistantResponse;
         timestamp := newDate clock |} in
    saveEffect
      {| messages := messages st ++ [assistantMessage];
         inputValue := inputValue st;
         isTyping := false;
         localStorage := localStorage st;
         pending := pending st;
         consoleErrors := consoleErrors st |}
  | Rejected error =>
    {| messages := messages st;
       inputValue := inputValue st;
       isTyping := false;
       localStorage := localStorage st;
       pending := pending st;
       consoleErrors := consoleErrors st ++ [(js "Error generating response:", error)] |}
  end.

(** [handleKeyPress] (page.tsx, lines 567-572). *)
Definition handleKeyPress (key : jsstring) (shiftKey : bool)
           (clock : Clock) (random : spec_float) (st : ChatApp) : ChatApp :=
  if streq key (js "Enter") && negb shiftKey then handleSendMessage clock random st
  else st.

(** [clearChat] (page.tsx, lines 574-577). *)
Definition clearChat (st : ChatApp) : ChatApp :=
  saveEffect
    {| messages := [];
       inputValue := inputValue st;
       isTyping := isTyping st;
       localStorage := delete storageKey (localStorage st);
       pending := pending st;
       consoleErrors := consoleErrors st |}.

Definition setInputValue (value : jsstring) (st : ChatApp) : ChatApp :=
  {| messages := messages st;
     inputValue := value;
     isTyping := isTyping st;
     localStorage := localStorage st;
     pending := pending st;
     consoleErrors := consoleErrors st |}.

(** What can happen to the mounted page: the events of its controls
    (page.tsx, lines 599-655) and the settling of an awaited response. A
    disabled control dispatches nothing. *)
Inductive Event :=
| Change (value : jsstring)
| KeyPress (key : jsstring) (shiftKey : bool) (clock : Clock) (random : spec_float)
| ClickSend (clock : Clock) (random : spec_float)
| ClickClear
| Settle (clock : Clock).

Definition step (e : Event) (st : ChatApp) : ChatApp :=
  match e with
  | Change value =>
    if isTyping st then st else setInputValue value st
  | KeyPress key shiftKey clock random =>
    if isTyping st then st else handleKeyPress key shiftKey clock random st
  | ClickSend clock random =>
    if negb (truthy (trim (inputValue st))) || isTyping st then st
    else handleSendMessage clock random st
  | ClickClear => clearChat st
  | Settle clock =>
    match pending st with
    | [] => st
    | p :: ps =>
      handleSendMessage_resume (settlement p) clock
        {| messages := messages st;
           inputValue := inputValue st;
           isTyping := isTyping st;
           localStorage := localStorage st;
           pending := ps;
           consoleErrors := consoleErrors st |}
    end
  end.

Definition validEvent (e : Event) : Prop :=
  match e with
  | KeyPress _ _ clock random | ClickSend clock random =>
    validTime (newDate clock) /\ isRandom random
  | Settle clock => validTime (newDate clock)
  | _ => True
  end.

(** The states of a page that came up [Mounted], that is, over a storage
    with no history or with a history written as the page writes it, and was
    then driven by its events. A page that came up [MountedForeign] is not
    among them. *)
Inductive reachable : ChatApp -> Prop :=
| reachable_mount storage st : mount storage = Mounted st -> reachable st
| reachable_step e st : reachable st -> validEvent e -> reachable (step e st).

End App.
(** * Notions the statements below are phrased with *)

(** Induction over JSON values, with the elements of an array and the members
    of an object covered by the hypothesis. *)
Section json_induction.
Variable P : json -> Prop.
Hypothesis HNull : P JNull.
Hypothesis HBool : forall b, P (JBool b).
Hypothesis HNumber : forall l, P (JNumber l).
Hypothesis HString : forall s, P (JString s).
Hypothesis HArray : forall l, Forall P l -> P (JArray l).
Hypothesis HObject : forall ms, Forall (fun kv => P (snd kv)) ms -> P (JObject ms).

Fixpoint json_induction (v : json) : P v :=
  match v with
  | JNull => HNull
  | JBool b => HBool b
  | JNumber l => HNumber l
  | JString s => HString s
  | JArray l =>
    HArray l ((fix elements (l : list json) : Forall P l :=
                 match l with
                 | [] => @List.Forall_nil _ P
                 | x :: l' => @List.Forall_cons _ P x l' (json_induction x) (elements l')
                 end) l)
  | JObject ms =>
    HObject ms ((fix members (ms : list (jsstring * json)) : Forall (fun kv => P (snd kv)) ms :=
                   match ms with
                   | [] => @List.Forall_nil _ _
                   | kv :: ms' =>
                     @List.Forall_cons _ (fun kv => P (snd kv)) kv ms' (json_induction (snd kv)) (members ms')
                   end) ms)
  end.
End json_induction.

(** The text after the first of a comma-separated run, up to [close]. *)
Fixpoint afterFirst (parts : list jsstring) (close : jsstring) : jsstring :=
  match parts with
  | [] => close
  | p :: ps => 44 :: p ++ afterFirst ps close
  end.

(** One member of an object as [JSON.stringify] writes it. *)
Definition memberText (kv : jsstring * json) : jsstring :=
  QuoteJSONString (fst kv) ++ js ":" ++ JSON_stringify (snd kv).

(** [v], written by [JSON.stringify] and followed by any text, is read back
    by [parseValue] with that text left over. *)
Definition parsesBack (v : json) : Prop :=
  numberFree v = true ->
  forall (f : nat) (rest : jsstring),
    (length (JSON_stringify v ++ rest) < f)%nat ->
    parseValue f (JSON_stringify v ++ rest) = Some (v, rest).

(** A parser that, when it succeeds, leaves a strictly shorter text. *)
Definition consumes {A : Type} (p : jsstring -> option (A * jsstring)) : Prop :=
  forall s a r, p s = Some (a, r) -> (length r < length s)%nat.

(** Two parsers that give the same result on every text shorter than [n]. *)
Definition agree {A : Type} (n : nat) (p q : jsstring -> option (A * jsstring)) : Prop :=
  forall s, (length s < n)%nat -> p s = q s.

(** Every timestamp is a time value a [Date] can hold. *)
Definition validTimestamps (ms : list Message) : Prop :=
  Forall (fun m => validTime (timestamp m)) ms.

(** The result of [binary_round_aux] from its final mantissa and exponent. *)
Definition buildFloat (m e : Z) : spec_float :=
  match m with
  | Z0 => S754_zero false
  | Zpos p => if (e <=? 971)%Z then S754_finite false p e else S754_infinity false
  | Zneg _ => S754_nan
  end.

(** How many objects [setMessages] received. *)
Definition loadedLength (loaded : Loaded) : nat :=
  match loaded with
  | Restored ms => length ms
  | Foreign elements => length elements
  end.

(** The storage holds no history, or it holds the messages [ms] written as
    the page writes its messages: under the key there is nothing, or the
    empty text, or the text of a JSON array each element of which
    [asMessage] reads as a message. *)
Definition ownHistory (storage : gmap jsstring jsstring) (ms : list Message) : Prop :=
  (ms = [] /\ (storage !! storageKey = None \/ storage !! storageKey = Some []))
  \/ exists text l,
       storage !! storageKey = Some text
       /\ JSON_parse text = Normal (JArray l)
       /\ mapM asMessage l = Some ms.

(** * The rest of the page *)

(** ** The code block of a message (page.tsx, lines 69-91) *)

(** [\w] of a regular expression without the [u] and [i] flags: an ASCII
    letter, a digit or the underscore. *)
Definition isWordChar (c : N) : bool :=
  ((48 <=? c) && (c <=? 57)) || ((65 <=? c) && (c <=? 90)) || (c =? 95)
  || ((97 <=? c) && (c <=? 122)).

(** The longest run of word characters at the start of [s]: what a greedy
    [\w+] takes when nothing follows it in the pattern. *)
Fixpoint takeWord (s : jsstring) : jsstring :=
  match s with
  | c :: s' => if isWordChar c then c :: takeWord s' else []
  | [] => []
  end.

(** [/language-(\w+)/] tried at the start of [s]: its first group. *)
Definition matchLanguageHere (s : jsstring) : option jsstring :=
  if startsWith s (js "language-") then
    match takeWord (skipn 9 s) with
    | [] => None
    | w => Some w
    end
  else None.

(** [/language-(\w+)/.exec(s)], reduced to its first group: the pattern is
    tried at every index from the left, and the first match is the result
    (page.tsx, line 70). *)
Fixpoint execLanguage (s : jsstring) : option jsstring :=
  match matchLanguageHere s with
  | Some w => Some w
  | None =>
    match s with
    | [] => None
    | _ :: s' => execLanguage s'
    end
  end.

(** [language] (page.tsx, lines 70-71); [className] is [None] when the
    property is undefined. *)
Definition language (className : option jsstring) : jsstring :=
  let subject :=
    match className with
    | Some c => if truthy c then c else []
    | None => []
    end in
  match execLanguage subject with
  | Some w => w
  | None => []
  end.

(** [.replace(/\n$/, "")] (page.tsx, line 82): without the [m] flag [$]
    matches at the end of the text only. *)
Definition stripFinalLineFeed (text : jsstring) : jsstring :=
  match rev text with
  | 10 :: before => rev before
  | _ => text
  end.

(** ** The copy button of a message (page.tsx, lines 43-49) *)

(** The [copied] flag of a [MessageBubble], the clipboard it writes to and
    the times at which the callbacks it gave to [setTimeout] are due, in the
    order they were set. *)
Record CopyState := mkCopyState {
  copied : bool;
  clipboard : option jsstring;
  timeouts : list Z
}.

(** [handleCopy] (page.tsx, lines 45-49), called at time [now]; [written]
    tells whether the promise of [navigator.clipboard.writeText] was
    fulfilled. When it is rejected the [await] throws and the two lines
    after it do not run. *)
Definition handleCopy (message : Message) (written : bool) (now : Z)
           (b : CopyState) : CopyState :=
  if written then
    {| copied := true;
       clipboard := Some (content message);
       timeouts := timeouts b ++ [(now + 2000)%Z] |}
  else b.

(** The oldest callback [() => setCopied(false)] running (page.tsx, line 48). *)
Definition timeoutFires (b : CopyState) : CopyState :=
  match timeouts b with
  | [] => b
  | _ :: rest => {| copied := false; clipboard := clipboard b; timeouts := rest |}
  end.

Inductive CopyEvent :=
| ClickCopy (written : bool) (now : Z)
| Timeout.

Definition copyStep (message : Message) (e : CopyEvent) (b : CopyState) : CopyState :=
  match e with
  | ClickCopy written now => handleCopy message written now b
  | Timeout => timeoutFires b
  end.

(** The clicks on the copy button of one message and the callbacks that
    run, one after the other, from a bubble just mounted. *)
Definition copyRun (message : Message) (events : list CopyEvent) : CopyState :=
  fold_left (fun b e => copyStep message e b) events
    {| copied := false; clipboard := None; timeouts := [] |}.

(** ** Runs of the page *)

(** The events of a list, one after the other. *)
Fixpoint run (toLowerCase : jsstring -> jsstring) (events : list Event)
         (st : ChatApp) : ChatApp :=
  match events with
  | [] => st
  | e :: es => run toLowerCase es (step toLowerCase e st)
  end.

(** The clock readings an event brings. *)
Definition eventClock (e : Event) : option Clock :=
  match e with
  | KeyPress _ _ clock _ | ClickSend clock _ | Settle clock => Some clock
  | Change _ | ClickClear => None
  end.

(** Each reading of [Date.now()] is more than one millisecond after the one
    before it, [last] being the reading before the first event. *)
Fixpoint spaced (last : Z) (events : list Event) : Prop :=
  match events with
  | [] => True
  | e :: es =>
    match eventClock e with
    | Some clock => (last + 1 < dateNow clock)%Z /\ spaced (dateNow clock) es
    | None => spaced last es
    end
  end.

(** Clear is clicked only while no response is awaited. *)
Fixpoint clearsWhenIdle (toLowerCase : jsstring -> jsstring) (events : list Event)
         (st : ChatApp) : Prop :=
  match events with
  | [] => True
  | e :: es =>
    (e = ClickClear -> isTyping st = false)
    /\ clearsWhenIdle toLowerCase es (step toLowerCase e st)
  end.

(** A history made of questions, each followed by the simulator's response
    to it. *)
Inductive exchanges (toLowerCase : jsstring -> jsstring) : list Message -> Prop :=
| exchanges_nil : exchanges toLowerCase []
| exchanges_snoc (ms : list Message) (q a : Message) :
    exchanges toLowerCase ms ->
    role q = user -> role a = assistant ->
    content a = responseText toLowerCase (content q) ->
    exchanges toLowerCase (ms ++ [q; a]).

(** The page holds whole exchanges and awaits nothing, or it holds whole
    exchanges and one more question, and awaits the response to it. *)
Definition conversation (toLowerCase : jsstring -> jsstring) (st : ChatApp) : Prop :=
  if isTyping st then
    exists ms q random,
      exchanges toLowerCase ms /\ role q = user /\ messages st = ms ++ [q]
      /\ pending st = [simulateAssistantResponse toLowerCase random (content q)]
  else exchanges toLowerCase (messages st) /\ pending st = [].

(** The React keys of the list of messages (page.tsx, lines 623-625). *)
Definition keys (st : ChatApp) : list jsstring := map id (messages st).

(** A stored history that the page did not write itself: white space
    between the tokens, and the year with a sign and six digits. *)
Definition handWritten : jsstring :=
  js "[ {" ++ dq ++ js "id" ++ dq ++ js ": " ++ dq ++ js "1" ++ dq
  ++ js ", " ++ dq ++ js "role" ++ dq ++ js ": " ++ dq ++ js "user" ++ dq
  ++ js ", " ++ dq ++ js "content" ++ dq ++ js ": " ++ dq ++ js "hi" ++ dq
  ++ js ", " ++ dq ++ js "timestamp" ++ dq ++ js ": "
  ++ dq ++ js "+002023-11-14T22:13:20.001Z" ++ dq ++ js "} ]".

(** A stored array with no null element on which the callback of [.map]
    throws: the [timestamp] of its element is an object whose [toString] is
    not a function. *)
Definition noPrimitive : jsstring :=
  js "[{" ++ dq ++ js "timestamp" ++ dq ++ js ":{" ++ dq ++ js "toString" ++ dq
  ++ js ":false}}]".


(** * Properties *)

(** ** Substring search *)

Lemma startsWith_app (k s : jsstring) : startsWith (k ++ s) k = true.
Proof.
  induction k as [|c k IH]; simpl; [reflexivity|].
  now rewrite N.eqb_refl, IH.
Qed.

Lemma startsWith_spec (s k : jsstring) :
  startsWith s k = true <-> exists b, s = k ++ b.
Proof.
  split.
  - revert s. induction k as [|c k IH]; intros s H.
    + now exists s.
    + destruct s as [|d s]; simpl in H; [discriminate|].
      apply andb_true_iff in H as [Hc Hk].
      apply N.eqb_eq in Hc. subst d.
      destruct (IH _ Hk) as [b ->]. now exists b.
  - intros [b ->]. apply startsWith_app.
Qed.

Lemma includes_here (s k : jsstring) : startsWith s k = true -> includes s k = true.
Proof. intros H. destruct s; simpl in *; now rewrite H. Qed.

Lemma includes_app_r (p s k : jsstring) :
  includes s k = true -> includes (p ++ s) k = true.
Proof.
  intros H. induction p as [|c p IH]; simpl; [exact H|].
  rewrite IH. apply orb_true_r.
Qed.

Lemma includes_middle (a k b : jsstring) : includes (a ++ k ++ b) k = true.
Proof. apply includes_app_r, includes_here, startsWith_app. Qed.

(** [includes] is plain containment: no word boundary is looked at. *)
Lemma includes_spec (s k : jsstring) :
  includes s k = true <-> exists a b, s = a ++ k ++ b.
Proof.
  split.
  - induction s as [|c s IH]; simpl; intros H.
    + rewrite orb_false_r in H. apply startsWith_spec in H as [b Hb].
      now exists [], b.
    + apply orb_true_iff in H as [H|H].
      * apply (startsWith_spec (c :: s)) in H as [b Hb]. now exists [], b.
      * destruct (IH H) as (a & b & ->). now exists (c :: a), b.
  - intros (a & b & ->). apply includes_middle.
Qed.

(** ** The templates *)

Lemma template_marker (c : Category) (userMessage : jsstring) :
  firstn 8 (template c userMessage) = marker c.
Proof. destruct c; vm_compute; reflexivity. Qed.

Lemma marker_inj (c c' : Category) : marker c = marker c' -> c = c'.
Proof. destruct c, c'; vm_compute; intros H; first [reflexivity | discriminate H]. Qed.

Lemma template_inj (c c' : Category) (userMessage : jsstring) :
  template c userMessage = template c' userMessage -> c = c'.
Proof.
  intros H. apply marker_inj.
  now rewrite <- (template_marker c userMessage), <- (template_marker c' userMessage), H.
Qed.

Lemma template_nonempty (c : Category) (userMessage : jsstring) :
  template c userMessage <> [].
Proof.
  intros H. pose proof (template_marker c userMessage) as M.
  rewrite H in M. destruct c; vm_compute in M; discriminate M.
Qed.

Lemma template_embeds (c : Category) (userMessage : jsstring) :
  exists a b, template c userMessage = a ++ userMessage ++ b.
Proof.
  destruct c; cbv [template programmingTemplate mathScienceTemplate businessTemplate
    aiTechnologyTemplate explanatoryTemplate designTemplate defaultTemplate];
    first [ eexists _, _; reflexivity
          | eexists (_ ++ _), _; rewrite <- app_assoc; reflexivity ].
Qed.

(** ** Category selection *)

Lemma rank_priority (c : Category) :
  c <> DefaultCategory -> priority !! rank c = Some c.
Proof. destruct c; intros H; first [reflexivity | now destruct H]. Qed.

Lemma matchesCategory_tests (message : jsstring) :
  (includes message (js "code") || includes message (js "programming")
   || includes message (js "javascript") || includes message (js "python")
   || includes message (js "react") || includes message (js "css")
   || includes message (js "html") = matchesCategory message Programming)
  /\ (includes message (js "math") || includes message (js "calculate")
      || includes message (js "formula") || includes message (js "science")
      || includes message (js "physics") || includes message (js "chemistry")
      = matchesCategory message MathScience)
  /\ (includes message (js "business") || includes message (js "strategy")
      || includes message (js "marketing") || includes message (js "startup")
      || includes message (js "company") = matchesCategory message BusinessStrategy)
  /\ (includes message (js "ai") || includes message (js "artificial intelligence")
      || includes message (js "machine learning") || includes message (js "technology")
      || includes message (js "future") = matchesCategory message AITechnology)
  /\ (includes message (js "explain") || includes message (js "what is")
      || includes message (js "how does") || includes message (js "why")
      = matchesCategory message Explanatory)
  /\ (includes message (js "design") || includes message (js "creative")
      || includes message (js "art") || includes message (js "ui")
      || includes message (js "ux") = matchesCategory message DesignCreative).
Proof.
  unfold matchesCategory, keywords. cbn [existsb].
  rewrite !orb_false_r, !orb_assoc. repeat split.
Qed.

Lemma first_match_chain {A : Type} (b1 b2 b3 b4 b5 b6 : bool) (f : Category -> A) :
  (if b1 then f Programming
   else if b2 then f MathScience
   else if b3 then f BusinessStrategy
   else if b4 then f AITechnology
   else if b5 then f Explanatory
   else if b6 then f DesignCreative
   else f DefaultCategory)
  = f (match
        (if b1 then Some Programming
         else if b2 then Some MathScience
         else if b3 then Some BusinessStrategy
         else if b4 then Some AITechnology
         else if b5 then Some Explanatory
         else if b6 then Some DesignCreative
         else None)
      with Some c => c | None => DefaultCategory end).
Proof. destruct b1, b2, b3, b4, b5, b6; reflexivity. Qed.

(** The chain of tests in the source is the first-match search over
    [priority]. *)
Lemma responseText_select (toLowerCase : jsstring -> jsstring) (userMessage : jsstring) :
  responseText toLowerCase userMessage
  = template (spec_selectCategory (toLowerCase userMessage)) userMessage.
Proof.
  unfold responseText.
  destruct (matchesCategory_tests (toLowerCase userMessage))
    as (-> & -> & -> & -> & -> & ->).
  exact (first_match_chain _ _ _ _ _ _ (fun c => template c userMessage)).
Qed.

Lemma select_default (message : jsstring) :
  spec_selectCategory message = DefaultCategory
  <-> forall c, In c priority -> matchesCategory message c = false.
Proof.
  unfold spec_selectCategory. split.
  - intros H c Hc. destruct (find _ priority) as [d|] eqn:F.
    + subst d. apply find_some in F as [F _]. simpl in F. intuition discriminate.
    + now apply (find_none _ _ F).
  - intros H. destruct (find _ priority) as [d|] eqn:F; [|reflexivity].
    apply find_some in F as [F1 F2]. rewrite (H _ F1) in F2. discriminate.
Qed.

(** First match: a category wins as soon as it matches and nothing of
    smaller rank does. *)
Lemma select_first (message : jsstring) (c : Category) :
  c <> DefaultCategory ->
  matchesCategory message c = true ->
  (forall c', (rank c' < rank c)%nat -> matchesCategory message c' = false) ->
  spec_selectCategory message = c.
Proof.
  intros Hd Hc Hlt. unfold spec_selectCategory, priority.
  destruct c; try (now destruct Hd); cbn [find];
    repeat match goal with
           | |- context [matchesCategory message ?d] =>
             first [ rewrite Hc | rewrite (Hlt d) by (cbn; lia) ]
           end; reflexivity.
Qed.

(** C2. The simulator lower-cases the text and tests the categories in the
    order Programming, Math/Science, Business/Strategy, AI/Technology,
    Explanatory, Design/Creative: the text it returns is the template of the
    first category one of whose keywords occurs, and the default template
    exactly when no category matches. A text with the keyword "code" gets
    the Programming template whatever else it contains, as "explain the math
    behind this code" does, which holds "math" too. *)
Theorem category_priority (toLowerCase : jsstring -> jsstring) (userMessage : jsstring) :
  responseText toLowerCase userMessage
  = template (spec_selectCategory (toLowerCase userMessage)) userMessage
  /\ (responseText toLowerCase userMessage = defaultTemplate userMessage
      <-> forall c, In c priority -> matchesCategory (toLowerCase userMessage) c = false)
  /\ (includes (toLowerCase userMessage) (js "code") = true ->
      responseText toLowerCase userMessage = programmingTemplate userMessage)
  /\ (includes (asciiLowerCase (js "explain the math behind this code")) (js "code") = true
      /\ includes (asciiLowerCase (js "explain the math behind this code")) (js "math") = true
      /\ responseText asciiLowerCase (js "explain the math behind this code")
         = programmingTemplate (js "explain the math behind this code")).
Proof.
  split; [apply responseText_select|].
  split.
  - rewrite responseText_select, <- select_default.
    change (defaultTemplate userMessage) with (template DefaultCategory userMessage).
    split; [apply template_inj | intros ->; reflexivity].
  - split.
    + intros H. rewrite responseText_select.
      rewrite (select_first _ Programming); [reflexivity | discriminate | | cbn; lia].
      unfold matchesCategory, keywords. cbn [existsb]. now rewrite H.
    + split; [vm_compute; reflexivity|]. split; [vm_compute; reflexivity|].
      rewrite responseText_select.
      replace (spec_selectCategory _) with Programming by (vm_compute; reflexivity).
      reflexivity.
Qed.

(** C10. Matching is containment of the keyword in the lower-cased text,
    inside a longer word or not ([includes_spec]): when a keyword of a
    category occurs and no keyword of a category of higher priority does,
    that category's template is returned. *)
Theorem substring_match_selects (toLowerCase : jsstring -> jsstring)
        (userMessage : jsstring) (c : Category) (keyword a b : jsstring) :
  In keyword (keywords c) ->
  toLowerCase userMessage = a ++ keyword ++ b ->
  (forall c', (rank c' < rank c)%nat ->
     forall k, In k (keywords c') -> includes (toLowerCase userMessage) k = false) ->
  responseText toLowerCase userMessage = template c userMessage.
Proof.
  intros Hk Hsub Hhigher. rewrite responseText_select. f_equal.
  apply select_first.
  - intros ->. destruct Hk.
  - unfold matchesCategory. apply existsb_exists. exists keyword. split; [exact Hk|].
    rewrite Hsub. apply includes_middle.
  - intros c' Hlt. unfold matchesCategory.
    destruct (existsb _ (keywords c')) eqn:E; [|reflexivity].
    apply existsb_exists in E as (k & Hin & Hinc).
    now rewrite (Hhigher c' Hlt k Hin) in Hinc.
Qed.

(** "email" and "train" hold "ai" and no keyword of the three categories
    before AI/Technology. *)
Lemma substring_match_selects_witness :
  responseText asciiLowerCase (js "email") = aiTechnologyTemplate (js "email")
  /\ responseText asciiLowerCase (js "Train") = aiTechnologyTemplate (js "Train").
Proof.
  split.
  - apply (substring_match_selects asciiLowerCase (js "email") AITechnology
             (js "ai") (js "em") (js "l")).
    + simpl. left. reflexivity.
    + vm_compute. reflexivity.
    + intros c' Hlt k Hk.
      destruct c'; cbn in Hlt; try lia; cbn in Hk;
        repeat (destruct Hk as [<-|Hk]; [vm_compute; reflexivity|]); destruct Hk.
  - apply (substring_match_selects asciiLowerCase (js "Train") AITechnology
             (js "ai") (js "tr") (js "n")).
    + simpl. left. reflexivity.
    + vm_compute. reflexivity.
    + intros c' Hlt k Hk.
      destruct c'; cbn in Hlt; try lia; cbn in Hk;
        repeat (destruct Hk as [<-|Hk]; [vm_compute; reflexivity|]); destruct Hk.
Defined.

(** C5. The text the simulator resolves with is not empty, contains the
    user's text as it was typed, and depends on that text only: another
    value of [Math.random] changes the delay and nothing else. *)
Theorem response_embeds_input (toLowerCase : jsstring -> jsstring)
        (random random' : spec_float) (userMessage : jsstring) :
  exists text,
    settlement (simulateAssistantResponse toLowerCase random userMessage) = Fulfilled text
    /\ text <> []
    /\ includes text userMessage = true
    /\ settlement (simulateAssistantResponse toLowerCase random' userMessage) = Fulfilled text.
Proof.
  exists (responseText toLowerCase userMessage).
  split; [reflexivity|].
  split; [rewrite responseText_select; apply template_nonempty|].
  split; [|reflexivity].
  rewrite responseText_select. apply includes_spec, template_embeds.
Qed.

(** ** Trimming *)

Lemma trimStart_whitespace (s : jsstring) :
  forallb isWhiteSpace s = true -> trimStart s = [].
Proof.
  induction s as [|c s IH]; simpl; [reflexivity|].
  intros H. apply andb_true_iff in H as [Hc Hs]. now rewrite Hc, IH.
Qed.

Lemma trimStart_empty (s : jsstring) :
  trimStart s = [] -> forallb isWhiteSpace s = true.
Proof.
  induction s as [|c s IH]; simpl; [reflexivity|].
  destruct (isWhiteSpace c); [exact IH | discriminate].
Qed.

Lemma trimStart_head (s : jsstring) (c : N) (r : jsstring) :
  trimStart s = c :: r -> isWhiteSpace c = false.
Proof.
  induction s as [|d s IH]; simpl; [discriminate|].
  destruct (isWhiteSpace d) eqn:E; [exact IH|].
  intros H. injection H as -> _. exact E.
Qed.

(** The trimmed text is empty exactly for an empty or white-space-only text. *)
Lemma trim_empty_iff (s : jsstring) :
  trim s = [] <-> forallb isWhiteSpace s = true.
Proof.
  unfold trim, trimEnd. split.
  - intros H. apply (f_equal (@rev N)) in H. rewrite rev_involutive in H. simpl in H.
    apply trimStart_empty in H.
    assert (H' : forallb isWhiteSpace (trimStart s) = true).
    { apply forallb_forall. intros x Hx.
      apply (proj1 (forallb_forall _ _) H). now apply in_rev in Hx. }
    clear H. rename H' into H.
    destruct (trimStart s) as [|c r] eqn:E; [now apply trimStart_empty|].
    apply trimStart_head in E. simpl in H. rewrite E in H. discriminate.
  - intros H. rewrite (trimStart_whitespace _ H). reflexivity.
Qed.

(** ** The submit and response cycle *)

Lemma saveEffect_messages (st : ChatApp) : messages (saveEffect st) = messages st.
Proof. unfold saveEffect. destruct (messages st) eqn:E; [exact E | reflexivity]. Qed.

Lemma saveEffect_isTyping (st : ChatApp) : isTyping (saveEffect st) = isTyping st.
Proof. unfold saveEffect. destruct (messages st); reflexivity. Qed.

Lemma saveEffect_pending (st : ChatApp) : pending (saveEffect st) = pending st.
Proof. unfold saveEffect. destruct (messages st); reflexivity. Qed.

Lemma saveEffect_consoleErrors (st : ChatApp) :
  consoleErrors (saveEffect st) = consoleErrors st.
Proof. unfold saveEffect. destruct (messages st); reflexivity. Qed.

Lemma saveEffect_inputValue (st : ChatApp) : inputValue (saveEffect st) = inputValue st.
Proof. unfold saveEffect. destruct (messages st); reflexivity. Qed.

(** What the save effect leaves under the key. *)
Lemma saveEffect_storage (st : ChatApp) :
  localStorage (saveEffect st) !! storageKey
  = match messages st with
    | [] => localStorage st !! storageKey
    | _ :: _ => Some (stringifyMessages (messages st))
    end.
Proof.
  unfold saveEffect. destruct (messages st); [reflexivity|].
  cbn [localStorage]. apply lookup_insert_eq.
Qed.

(** C6. With an input whose trimmed text is empty, submitting does nothing:
    the handler returns at its first line, so the state is the one before
    (no message appended, no simulator call pending, the typing flag as it
    was), from the button as from the Enter key. *)
Theorem empty_input_is_noop (toLowerCase : jsstring -> jsstring) (clock : Clock)
        (random : spec_float) (key : jsstring) (shiftKey : bool) (st : ChatApp) :
  trim (inputValue st) = [] ->
  handleSendMessage toLowerCase clock random st = st
  /\ step toLowerCase (ClickSend clock random) st = st
  /\ step toLowerCase (KeyPress key shiftKey clock random) st = st.
Proof.
  intros H.
  assert (Hs : handleSendMessage toLowerCase clock random st = st)
    by (unfold handleSendMessage; now rewrite H).
  split; [exact Hs|]. split.
  - cbn [step]. now rewrite H.
  - cbn [step]. unfold handleKeyPress. rewrite Hs.
    now destruct (isTyping st), (streq key (js "Enter") && negb shiftKey).
Qed.

(** A text of two spaces and a tab, in any state. *)
Lemma empty_input_is_noop_witness :
  let st := {| messages := []; inputValue := [32; 32; 9]; isTyping := false;
               localStorage := ∅; pending := []; consoleErrors := [] |} in
  handleSendMessage asciiLowerCase (mkClock 0 0) (number 0) st = st
  /\ step asciiLowerCase (ClickSend (mkClock 0 0) (number 0)) st = st
  /\ step asciiLowerCase (KeyPress (js "Enter") false (mkClock 0 0) (number 0)) st = st.
Proof.
  apply (empty_input_is_noop asciiLowerCase (mkClock 0 0) (number 0) (js "Enter") false).
  reflexivity.
Defined.

(** C7. When the awaited simulator call rejects, the handler's [catch] logs
    the error and its [finally] clears the typing flag: after the cycle the
    messages are those from before the submit and the user's message,
    nothing else, and storage is what the submit left. *)
Theorem simulator_failure_is_swallowed (toLowerCase : jsstring -> jsstring)
        (clock clock' : Clock) (random : spec_float) (error : jsstring) (st : ChatApp) :
  truthy (trim (inputValue st)) = true ->
  let submitted := handleSendMessage toLowerCase clock random st in
  let failed := handleSendMessage_resume (Rejected error) clock' submitted in
  messages failed
  = messages st ++ [{| id := Z_toString (dateNow clock); role := user;
                        content := trim (inputValue st); timestamp := newDate clock |}]
  /\ isTyping submitted = true
  /\ isTyping failed = false
  /\ consoleErrors failed
     = consoleErrors st ++ [(js "Error generating response:", error)]
  /\ localStorage failed = localStorage submitted.
Proof.
  intros H submitted failed. subst failed submitted.
  unfold handleSendMessage. rewrite H. cbn [negb handleSendMessage_resume].
  cbn [messages isTyping consoleErrors localStorage].
  rewrite saveEffect_messages, saveEffect_isTyping, saveEffect_consoleErrors.
  repeat split.
Qed.

Lemma simulator_failure_is_swallowed_witness :
  let st := {| messages := []; inputValue := js " hi "; isTyping := false;
               localStorage := ∅; pending := []; consoleErrors := [] |} in
  let failed :=
    handleSendMessage_resume (Rejected (js "boom")) (mkClock 5 5)
      (handleSendMessage asciiLowerCase (mkClock 1 2) (number 0) st) in
  messages failed
  = [{| id := js "1"; role := user; content := js "hi"; timestamp := 2%Z |}]
  /\ isTyping failed = false.
Proof.
  intros st failed.
  destruct (simulator_failure_is_swallowed asciiLowerCase (mkClock 1 2) (mkClock 5 5)
              (number 0) (js "boom") st eq_refl) as (Hm & _ & Ht & _).
  split; [exact Hm | exact Ht].
Defined.

(** The typing flag is set exactly while one simulator call is awaited. *)
Lemma reachable_pending (toLowerCase : jsstring -> jsstring) (st : ChatApp) :
  reachable toLowerCase st ->
  (isTyping st = false /\ pending st = [])
  \/ (isTyping st = true /\ exists p, pending st = [p]).
Proof.
  induction 1 as [storage st Hm | e st Hr IH Hv].
  - left. unfold mount in Hm.
    destruct (loadEffect storage) as [|[ms|l]|e]; inversion Hm; subst; clear Hm.
    + split; reflexivity.
    + now rewrite saveEffect_isTyping, saveEffect_pending.
  - destruct e as [value|key shiftKey clock random|clock random| |clock]; cbn [step].
    + destruct IH as [[Ht Hp]|[Ht Hp]]; rewrite Ht; [left|right]; [|now split].
      now split.
    + destruct IH as [[Ht Hp]|[Ht Hp]]; rewrite Ht; [|right; now split].
      unfold handleKeyPress.
      destruct (streq key (js "Enter") && negb shiftKey); [|left; now split].
      unfold handleSendMessage.
      destruct (negb (truthy (trim (inputValue st)))); [left; now split|].
      right. rewrite saveEffect_isTyping, saveEffect_pending. cbn. rewrite Hp.
      split; [reflexivity|]. eexists. reflexivity.
    + destruct IH as [[Ht Hp]|[Ht Hp]]; rewrite Ht.
      * destruct (negb (truthy (trim (inputValue st)))) eqn:E; cbn [orb];
          [left; now split|].
        unfold handleSendMessage. rewrite E.
        right. rewrite saveEffect_isTyping, saveEffect_pending. cbn. rewrite Hp.
        split; [reflexivity|]. eexists. reflexivity.
      * rewrite orb_true_r. right. now split.
    + unfold clearChat. rewrite saveEffect_isTyping, saveEffect_pending. exact IH.
    + destruct IH as [[Ht Hp]|[Ht [p Hp]]]; rewrite Hp; [left; now split|].
      left. unfold handleSendMessage_resume.
      destruct (settlement p); [|split; reflexivity].
      now rewrite saveEffect_isTyping, saveEffect_pending.
Qed.

(** C8. While the typing flag is set, the input and the send button are
    disabled: a click on the button or a key press changes nothing, so the
    message sequence keeps its length and no second simulator call starts;
    on a page that was mounted and driven by its events exactly one call is
    then awaited. *)
Theorem submit_blocked_while_typing (toLowerCase : jsstring -> jsstring)
        (clock : Clock) (random : spec_float) (key : jsstring) (shiftKey : bool)
        (st : ChatApp) :
  isTyping st = true ->
  step toLowerCase (ClickSend clock random) st = st
  /\ step toLowerCase (KeyPress key shiftKey clock random) st = st
  /\ (reachable toLowerCase st -> length (pending st) = 1%nat).
Proof.
  intros H. cbn [step]. rewrite H, orb_true_r. repeat split.
  intros Hr. destruct (reachable_pending _ _ Hr) as [[Ht _]|[_ [p ->]]]; [congruence|reflexivity].
Qed.

Lemma submit_blocked_while_typing_witness :
  let st := handleSendMessage asciiLowerCase (mkClock 1 2) (number 0)
              {| messages := []; inputValue := js "hi"; isTyping := false;
                 localStorage := ∅; pending := []; consoleErrors := [] |} in
  step asciiLowerCase (ClickSend (mkClock 3 4) (number 0)) st = st
  /\ step asciiLowerCase (KeyPress (js "Enter") false (mkClock 3 4) (number 0)) st = st.
Proof.
  intros st.
  destruct (submit_blocked_while_typing asciiLowerCase (mkClock 3 4) (number 0)
              (js "Enter") false st eq_refl) as (H1 & H2 & _).
  split; [exact H1 | exact H2].
Defined.

(** C4. After [clearChat], in any state, the message sequence is empty and
    the entry under the key is gone; a page mounted over that storage starts
    with no message. *)
Theorem clear_then_load (toLowerCase : jsstring -> jsstring) (st : ChatApp) :
  step toLowerCase ClickClear st = clearChat st
  /\ messages (clearChat st) = []
  /\ localStorage (clearChat st) !! storageKey = None
  /\ loadEffect (localStorage (clearChat st)) = NotCalled
  /\ exists fresh,
       mount (localStorage (clearChat st)) = Mounted fresh /\ messages fresh = [].
Proof.
  assert (Hk : localStorage (clearChat st) !! storageKey = None).
  { unfold clearChat. rewrite saveEffect_storage. cbn. apply lookup_delete_eq. }
  assert (Hl : loadEffect (localStorage (clearChat st)) = NotCalled).
  { unfold loadEffect. now rewrite Hk. }
  split; [reflexivity|]. split; [unfold clearChat; now rewrite saveEffect_messages|].
  split; [exact Hk|]. split; [exact Hl|].
  unfold mount. rewrite Hl. eexists. split; reflexivity.
Qed.

(** ** JSON strings: parsing what [QuoteJSONString] wrote *)

Lemma hexValue_hexDigit (d : N) : d < 16 -> hexValue (hexDigit d) = Some d.
Proof.
  intros H.
  assert (E : d = 0 \/ d = 1 \/ d = 2 \/ d = 3 \/ d = 4 \/ d = 5 \/ d = 6 \/ d = 7
              \/ d = 8 \/ d = 9 \/ d = 10 \/ d = 11 \/ d = 12 \/ d = 13 \/ d = 14
              \/ d = 15) by lia.
  repeat (destruct E as [->|E]; [reflexivity|]). now subst d.
Qed.

Lemma parseStringBody_unicodeEscape (c : N) (rest : jsstring) :
  c < 65536 ->
  parseStringBody (unicodeEscape c ++ rest)
  = match parseStringBody rest with
    | Some (v, r) => Some (c :: v, r)
    | None => None
    end.
Proof.
  intros H. unfold unicodeEscape. cbn [app parseStringBody N.eqb Pos.eqb].
  unfold hex4.
  rewrite !hexValue_hexDigit by (apply N.mod_lt; discriminate).
  replace (c / 4096 mod 16 * 4096 + c / 256 mod 16 * 256 + c / 16 mod 16 * 16 + c mod 16)
    with c; [reflexivity|].
  change 4096 with (16 * (16 * 16)). change 256 with (16 * 16).
  rewrite <- !N.Div0.div_div.
  pose proof (N.div_mod c 16). pose proof (N.div_mod (c / 16) 16).
  pose proof (N.div_mod (c / 16 / 16) 16).
  pose proof (N.mod_lt c 16). pose proof (N.mod_lt (c / 16) 16).
  pose proof (N.mod_lt (c / 16 / 16) 16).
  assert (c / 16 < 4096) by (apply N.Div0.div_lt_upper_bound; lia).
  assert (c / 16 / 16 < 256) by (apply N.Div0.div_lt_upper_bound; lia).
  assert (c / 16 / 16 / 16 < 16) by (apply N.Div0.div_lt_upper_bound; lia).
  rewrite (N.mod_small (c / 16 / 16 / 16)) by assumption.
  lia.
Qed.

Lemma parseStringBody_quoteUnit (c : N) (rest : jsstring) :
  parseStringBody (quoteUnit c ++ rest)
  = match parseStringBody rest with
    | Some (v, r) => Some (c :: v, r)
    | None => None
    end.
Proof.
  unfold quoteUnit.
  repeat match goal with
         | |- context [if ?x =? ?k then _ else _] =>
           destruct (N.eqb_spec x k) as [->|?]; [reflexivity|]
         end.
  destruct ((c <? 32) || isLeadingSurrogate c || isTrailingSurrogate c) eqn:E.
  - apply parseStringBody_unicodeEscape.
    unfold isLeadingSurrogate, isTrailingSurrogate in E. lia.
  - apply orb_false_iff in E as [E _]. apply orb_false_iff in E as [E _].
    cbn [app parseStringBody].
    destruct (N.eqb_spec c 34) as [?|_]; [contradiction|].
    destruct (N.eqb_spec c 92) as [?|_]; [contradiction|].
    now rewrite E.
Qed.

Lemma parseStringBody_literal (c : N) (rest : jsstring) :
  55296 <= c ->
  parseStringBody (c :: rest)
  = match parseStringBody rest with
    | Some (v, r) => Some (c :: v, r)
    | None => None
    end.
Proof.
  intros H. cbn [parseStringBody].
  destruct (N.eqb_spec c 34) as [?|_]; [lia|].
  destruct (N.eqb_spec c 92) as [?|_]; [lia|].
  destruct (N.ltb_spec c 32); [lia|reflexivity].
Qed.

Lemma parseStringBody_quoteUnits (s rest : jsstring) :
  parseStringBody (quoteUnits s ++ dq ++ rest) = Some (s, rest).
Proof.
  induction s as [s IH] using (induction_ltof1 _ (@length N)). unfold ltof in IH.
  destruct s as [|c r]; [reflexivity|].
  cbn [quoteUnits].
  destruct (isLeadingSurrogate c) eqn:L.
  - unfold isLeadingSurrogate in L.
    destruct r as [|d r'].
    + rewrite parseStringBody_unicodeEscape by lia. reflexivity.
    + destruct (isTrailingSurrogate d) eqn:T.
      * unfold isTrailingSurrogate in T.
        cbn [app]. rewrite !parseStringBody_literal by lia.
        rewrite IH by (cbn; lia). reflexivity.
      * rewrite <- app_assoc, parseStringBody_unicodeEscape by lia.
        rewrite IH by (cbn; lia). reflexivity.
  - rewrite <- app_assoc, parseStringBody_quoteUnit.
    rewrite IH by (cbn; lia). reflexivity.
Qed.

Lemma parseStringBody_shorter (s v rest : jsstring) :
  parseStringBody s = Some (v, rest) -> (length rest < length s)%nat.
Proof.
  revert v rest. induction s as [s IH] using (induction_ltof1 _ (@length N)).
  unfold ltof in IH. intros v rest H.
  destruct s as [|c r]; [discriminate|]. cbn [parseStringBody] in H.
  destruct (c =? 34).
  - injection H as _ <-. cbn. lia.
  - destruct (c =? 92).
    + destruct r as [|e r1]; [discriminate|].
      destruct (e =? 117).
      * destruct r1 as [|h1 [|h2 [|h3 [|h4 r2]]]]; try discriminate.
        destruct (hex4 h1 h2 h3 h4); [|discriminate].
        destruct (parseStringBody r2) as [[v' rest']|] eqn:E; [|discriminate].
        injection H as _ <-. apply IH in E; cbn in *; lia.
      * destruct (simpleEscape e); [|discriminate].
        destruct (parseStringBody r1) as [[v' rest']|] eqn:E; [|discriminate].
        injection H as _ <-. apply IH in E; cbn in *; lia.
    + destruct (c <? 32); [discriminate|].
      destruct (parseStringBody r) as [[v' rest']|] eqn:E; [|discriminate].
      injection H as _ <-. apply IH in E; cbn in *; lia.
Qed.

(** ** The fuel of [parseValue] never runs out *)

Lemma skipWhiteSpace_length (s : jsstring) :
  (length (skipWhiteSpace s) <= length s)%nat.
Proof.
  induction s as [|c s IH]; cbn [skipWhiteSpace]; [lia|].
  destruct (isJSONWhiteSpace c); cbn [length]; lia.
Qed.

Lemma expect_length (c : N) (s r : jsstring) :
  expect c s = Some r -> length s = S (length r).
Proof.
  destruct s as [|d s]; cbn [expect]; [discriminate|].
  destruct (c =? d); [|discriminate]. now intros [= ->].
Qed.

Lemma expect_skip_length (c : N) (s r : jsstring) :
  expect c (skipWhiteSpace s) = Some r -> (length r < length s)%nat.
Proof.
  intros H. apply expect_length in H. pose proof (skipWhiteSpace_length s). lia.
Qed.

Lemma spanDigits_length (s ds r : jsstring) :
  spanDigits s = (ds, r) -> length s = (length ds + length r)%nat.
Proof.
  revert ds r. induction s as [|c s IH]; intros ds r; cbn [spanDigits].
  - now intros [= <- <-].
  - destruct (isDigit c).
    + destruct (spanDigits s) as [ds' r'] eqn:E. intros [= <- <-].
      cbn [length]. now rewrite (IH _ _ eq_refl).
    + now intros [= <- <-].
Qed.

Lemma parseDigits_length (s ds r : jsstring) :
  parseDigits s = Some (ds, r) -> (length r <= length s)%nat.
Proof.
  unfold parseDigits. destruct (spanDigits s) as [ds' r'] eqn:E.
  apply spanDigits_length in E. destruct ds'; [discriminate|].
  intros [= <- <-]. lia.
Qed.

Lemma parseInt_length (s i r : jsstring) :
  parseInt s = Some (i, r) -> (length r < length s)%nat.
Proof.
  destruct s as [|c s]; cbn [parseInt]; [discriminate|].
  destruct (c =? 48); [intros [= <- <-]; cbn; lia|].
  destruct (isDigit c); [|discriminate].
  destruct (spanDigits s) as [ds r'] eqn:E. apply spanDigits_length in E.
  intros [= <- <-]. cbn [length]. lia.
Qed.

Lemma parseFraction_length (s fr r : jsstring) :
  parseFraction s = Some (fr, r) -> (length r <= length s)%nat.
Proof.
  unfold parseFraction.
  destruct (expect 46 s) as [s'|] eqn:X; [|now intros [= <- <-]].
  apply expect_length in X.
  destruct (parseDigits s') as [[ds r']|] eqn:E; [|discriminate].
  apply parseDigits_length in E. intros [= <- <-]. lia.
Qed.

Lemma parseExponent_length (s ex r : jsstring) :
  parseExponent s = Some (ex, r) -> (length r <= length s)%nat.
Proof.
  unfold parseExponent.
  destruct s as [|c s]; [now intros [= <- <-]|].
  destruct ((c =? 101) || (c =? 69)); [|now intros [= <- <-]].
  destruct s as [|g s]; [discriminate|].
  destruct ((g =? 43) || (g =? 45)).
  - destruct (parseDigits s) as [[ds r']|] eqn:E; [|discriminate].
    apply parseDigits_length in E. intros [= <- <-]. cbn [length]. lia.
  - destruct (parseDigits (g :: s)) as [[ds r']|] eqn:E; [|discriminate].
    apply parseDigits_length in E. intros [= <- <-]. cbn [length] in *. lia.
Qed.

Lemma parseUnsigned_length (s l r : jsstring) :
  parseUnsigned s = Some (l, r) -> (length r < length s)%nat.
Proof.
  unfold parseUnsigned.
  destruct (parseInt s) as [[i r1]|] eqn:E1; [|discriminate].
  destruct (parseFraction r1) as [[fr r2]|] eqn:E2; [|discriminate].
  destruct (parseExponent r2) as [[ex r3]|] eqn:E3; [|discriminate].
  apply parseInt_length in E1. apply parseFraction_length in E2.
  apply parseExponent_length in E3. intros [= <- <-]. lia.
Qed.

Lemma parseNumber_length (s l r : jsstring) :
  parseNumber s = Some (l, r) -> (length r < length s)%nat.
Proof.
  unfold parseNumber.
  destruct (expect 45 s) as [s'|] eqn:X;
    [|intros H; now apply parseUnsigned_length in H].
  apply expect_length in X.
  destruct (parseUnsigned s') as [[l' r']|] eqn:E; [|discriminate].
  apply parseUnsigned_length in E. intros [= <- <-]. lia.
Qed.

Lemma parseValue_S (f : nat) (s : jsstring) :
  parseValue (S f) s
  = match skipWhiteSpace s with
    | [] => None
    | c :: r =>
      if c =? 34 then
        '(v, rest) ← parseStringBody r;
        Some (JString v, rest)
      else if c =? 91 then
        match expect 93 (skipWhiteSpace r) with
        | Some rest => Some (JArray [], rest)
        | None =>
          '(v, r1) ← parseValue f r;
          '(vs, rest) ← parseArrayTail f r1;
          Some (JArray (v :: vs), rest)
        end
      else if c =? 123 then
        match expect 125 (skipWhiteSpace r) with
        | Some rest => Some (JObject [], rest)
        | None =>
          '(m, r1) ← parseMember (parseValue f) r;
          '(ms, rest) ← parseObjectTail f r1;
          Some (JObject (m :: ms), rest)
        end
      else if startsWith (c :: r) (js "true") then Some (JBool true, skipn 4 (c :: r))
      else if startsWith (c :: r) (js "false") then Some (JBool false, skipn 5 (c :: r))
      else if startsWith (c :: r) (js "null") then Some (JNull, skipn 4 (c :: r))
      else
        '(l, rest) ← parseNumber (c :: r);
        Some (JNumber l, rest)
    end.
Proof. reflexivity. Qed.

Lemma parseArrayTail_S (f : nat) (s : jsstring) :
  parseArrayTail (S f) s
  = match expect 93 (skipWhiteSpace s) with
    | Some rest => Some ([], rest)
    | None =>
      r ← expect 44 (skipWhiteSpace s);
      '(v, r1) ← parseValue f r;
      '(vs, rest) ← parseArrayTail f r1;
      Some (v :: vs, rest)
    end.
Proof. reflexivity. Qed.

Lemma parseObjectTail_S (f : nat) (s : jsstring) :
  parseObjectTail (S f) s
  = match expect 125 (skipWhiteSpace s) with
    | Some rest => Some ([], rest)
    | None =>
      r ← expect 44 (skipWhiteSpace s);
      '(m, r1) ← parseMember (parseValue f) r;
      '(ms, rest) ← parseObjectTail f r1;
      Some (m :: ms, rest)
    end.
Proof. reflexivity. Qed.

Ltac bind_case H :=
  match type of H with
  | mbind _ ?o = Some _ =>
    let E := fresh "E" in
    destruct o as [[? ?]|] eqn:E; cbn [mbind option_bind] in H; [|discriminate H]
  | mbind _ ?o = Some _ =>
    let E := fresh "E" in
    destruct o as [?|] eqn:E; cbn [mbind option_bind] in H; [|discriminate H]
  end.

Lemma parseMember_shorter (pv : jsstring -> option (json * jsstring))
      (s : jsstring) (m : jsstring * json) (r : jsstring) :
  (forall s' v' r', pv s' = Some (v', r') -> (length r' < length s')%nat) ->
  parseMember pv s = Some (m, r) -> (length r < length s)%nat.
Proof.
  intros Hpv H. unfold parseMember in H.
  bind_case H. bind_case H. bind_case H. bind_case H.
  injection H as _ <-.
  apply expect_skip_length in E. apply parseStringBody_shorter in E0.
  apply expect_skip_length in E1. apply Hpv in E2. lia.
Qed.

(** A successful parse leaves a strictly shorter text. *)
Lemma parse_consumes (f : nat) :
  consumes (parseValue f) /\ consumes (parseArrayTail f) /\ consumes (parseObjectTail f).
Proof.
  induction f as [|f (IHv & IHa & IHo)]; [repeat split; intros s a r H; discriminate H|].
  repeat split; intros s a r H.
  - rewrite parseValue_S in H. pose proof (skipWhiteSpace_length s) as L.
    destruct (skipWhiteSpace s) as [|c t]; [discriminate|]. cbn [length] in L.
    destruct (c =? 34).
    { bind_case H. injection H as _ <-. apply parseStringBody_shorter in E. lia. }
    destruct (c =? 91).
    { destruct (expect 93 (skipWhiteSpace t)) as [rest|] eqn:X.
      - injection H as _ <-. apply expect_skip_length in X. lia.
      - bind_case H. bind_case H. injection H as _ <-.
        apply IHv in E. apply IHa in E0. lia. }
    destruct (c =? 123).
    { destruct (expect 125 (skipWhiteSpace t)) as [rest|] eqn:X.
      - injection H as _ <-. apply expect_skip_length in X. lia.
      - bind_case H. bind_case H. injection H as _ <-.
        apply (parseMember_shorter _ _ _ _ IHv) in E. apply IHo in E0. lia. }
    destruct (startsWith (c :: t) (js "true"));
      [injection H as _ <-; cbn [skipn]; pose proof (length_skipn 3 t); lia|].
    destruct (startsWith (c :: t) (js "false"));
      [injection H as _ <-; cbn [skipn]; pose proof (length_skipn 4 t); lia|].
    destruct (startsWith (c :: t) (js "null"));
      [injection H as _ <-; cbn [skipn]; pose proof (length_skipn 3 t); lia|].
    bind_case H. injection H as _ <-. apply parseNumber_length in E.
    cbn [length] in E. lia.
  - rewrite parseArrayTail_S in H.
    destruct (expect 93 (skipWhiteSpace s)) as [rest|] eqn:X.
    + injection H as _ <-. now apply expect_skip_length in X.
    + bind_case H. bind_case H. bind_case H. injection H as _ <-.
      apply expect_skip_length in E. apply IHv in E0. apply IHa in E1. lia.
  - rewrite parseObjectTail_S in H.
    destruct (expect 125 (skipWhiteSpace s)) as [rest|] eqn:X.
    + injection H as _ <-. now apply expect_skip_length in X.
    + bind_case H. bind_case H. bind_case H. injection H as _ <-.
      apply expect_skip_length in E.
      apply (parseMember_shorter _ _ _ _ IHv) in E0. apply IHo in E1. lia.
Qed.

Lemma parseMember_agree (n : nat) (pv qv : jsstring -> option (json * jsstring)) :
  agree n pv qv -> agree (S n) (parseMember pv) (parseMember qv).
Proof.
  intros H s Hs. unfold parseMember.
  destruct (expect 34 (skipWhiteSpace s)) as [r1|] eqn:E1; [|reflexivity].
  cbn [mbind option_bind].
  destruct (parseStringBody r1) as [[k r2]|] eqn:E2; [|reflexivity].
  cbn [mbind option_bind].
  destruct (expect 58 (skipWhiteSpace r2)) as [r3|] eqn:E3; [|reflexivity].
  cbn [mbind option_bind].
  apply expect_skip_length in E1. apply parseStringBody_shorter in E2.
  apply expect_skip_length in E3. rewrite H by lia. reflexivity.
Qed.

(** With more fuel than the text is long the result does not depend on the
    fuel: [None] from [JSON_parse] is a syntax error, never a lack of fuel. *)
Lemma parseValue_fuel (f f' : nat) :
  agree (Nat.min f f') (parseValue f) (parseValue f')
  /\ agree (Nat.min f f') (parseArrayTail f) (parseArrayTail f')
  /\ agree (Nat.min f f') (parseObjectTail f) (parseObjectTail f').
Proof.
  revert f'. induction f as [|f IH]; intros f';
    [repeat split; intros s Hs; cbn in Hs; lia|].
  destruct f' as [|f']; [repeat split; intros s Hs; cbn in Hs; lia|].
  destruct (IH f') as (IHv & IHa & IHo). clear IH.
  destruct (parse_consumes f') as (Cv & Ca & Co).
  assert (Hm : agree (S (Nat.min f f')) (parseMember (parseValue f))
                     (parseMember (parseValue f')))
    by (apply parseMember_agree, IHv).
  change (Nat.min (S f) (S f')) with (S (Nat.min f f')).
  repeat split; intros s Hs.
  - rewrite !parseValue_S. pose proof (skipWhiteSpace_length s) as L.
    destruct (skipWhiteSpace s) as [|c t]; [reflexivity|]. cbn [length] in L.
    destruct (c =? 34); [reflexivity|].
    destruct (c =? 91).
    { destruct (expect 93 (skipWhiteSpace t)); [reflexivity|].
      rewrite IHv by lia. destruct (parseValue f' t) as [[v r1]|] eqn:E; [|reflexivity].
      cbn [mbind option_bind]. apply Cv in E. rewrite IHa by lia. reflexivity. }
    destruct (c =? 123); [|reflexivity].
    destruct (expect 125 (skipWhiteSpace t)); [reflexivity|].
    rewrite Hm by lia.
    destruct (parseMember (parseValue f') t) as [[m r1]|] eqn:E; [|reflexivity].
    cbn [mbind option_bind]. apply (parseMember_shorter _ _ _ _ Cv) in E.
    rewrite IHo by lia. reflexivity.
  - rewrite !parseArrayTail_S.
    destruct (expect 93 (skipWhiteSpace s)); [reflexivity|].
    destruct (expect 44 (skipWhiteSpace s)) as [r|] eqn:E; [|reflexivity].
    cbn [mbind option_bind]. apply expect_skip_length in E.
    rewrite IHv by lia. destruct (parseValue f' r) as [[v r1]|] eqn:E'; [|reflexivity].
    cbn [mbind option_bind]. apply Cv in E'. rewrite IHa by lia. reflexivity.
  - rewrite !parseObjectTail_S.
    destruct (expect 125 (skipWhiteSpace s)); [reflexivity|].
    destruct (expect 44 (skipWhiteSpace s)) as [r|] eqn:E; [|reflexivity].
    cbn [mbind option_bind]. apply expect_skip_length in E.
    rewrite Hm by lia.
    destruct (parseMember (parseValue f') r) as [[m r1]|] eqn:E'; [|reflexivity].
    cbn [mbind option_bind]. apply (parseMember_shorter _ _ _ _ Cv) in E'.
    rewrite IHo by lia. reflexivity.
Qed.

Ltac bind_mono H IH :=
  match type of H with
  | mbind _ ?o = Some _ =>
    let E := fresh "E" in
    destruct o as [[? ?]|] eqn:E; cbn [mbind option_bind] in H; [|discriminate H];
    try rewrite (IH _ _ E); cbn [mbind option_bind]
  | mbind _ ?o = Some _ =>
    let E := fresh "E" in
    destruct o as [?|] eqn:E; cbn [mbind option_bind] in H; [|discriminate H];
    cbn [mbind option_bind]
  end.

Lemma parseMember_mono (pv qv : jsstring -> option (json * jsstring)) :
  (forall s x, pv s = Some x -> qv s = Some x) ->
  forall s x, parseMember pv s = Some x -> parseMember qv s = Some x.
Proof.
  intros Hpq s x H. unfold parseMember in *.
  bind_mono H Hpq. bind_mono H Hpq. bind_mono H Hpq. bind_mono H Hpq. exact H.
Qed.

(** More fuel keeps a successful parse. *)
Lemma parse_mono (f : nat) :
  (forall s x, parseValue f s = Some x -> parseValue (S f) s = Some x)
  /\ (forall s x, parseArrayTail f s = Some x -> parseArrayTail (S f) s = Some x)
  /\ (forall s x, parseObjectTail f s = Some x -> parseObjectTail (S f) s = Some x).
Proof.
  induction f as [|f (IHv & IHa & IHo)]; [repeat split; intros s x H; discriminate H|].
  pose proof (parseMember_mono _ _ IHv) as IHm.
  repeat split; intros s x H.
  - rewrite parseValue_S in H. rewrite parseValue_S.
    destruct (skipWhiteSpace s) as [|c t]; [discriminate|].
    destruct (c =? 34); [exact H|].
    destruct (c =? 91).
    { destruct (expect 93 (skipWhiteSpace t)); [exact H|].
      bind_mono H IHv. bind_mono H IHa. exact H. }
    destruct (c =? 123); [|exact H].
    destruct (expect 125 (skipWhiteSpace t)); [exact H|].
    bind_mono H IHm. bind_mono H IHo. exact H.
  - rewrite parseArrayTail_S in H. rewrite parseArrayTail_S.
    destruct (expect 93 (skipWhiteSpace s)); [exact H|].
    bind_mono H IHv. bind_mono H IHv. bind_mono H IHa. exact H.
  - rewrite parseObjectTail_S in H. rewrite parseObjectTail_S.
    destruct (expect 125 (skipWhiteSpace s)); [exact H|].
    bind_mono H IHv. bind_mono H IHm. bind_mono H IHo. exact H.
Qed.

Lemma parseValue_mono (f f' : nat) (s : jsstring) (x : json * jsstring) :
  (f <= f')%nat -> parseValue f s = Some x -> parseValue f' s = Some x.
Proof.
  induction 1 as [|f' Hle IH]; [trivial|].
  intros H. apply (proj1 (parse_mono f')), IH, H.
Qed.

(** [JSON_parse] accepts a text as soon as some fuel parses it whole, and
    with the value that fuel gives. *)
Lemma JSON_parse_any_fuel (text : jsstring) (f : nat) (v : json) (rest : jsstring) :
  parseValue f text = Some (v, rest) -> skipWhiteSpace rest = [] ->
  JSON_parse text = Normal v.
Proof.
  intros H Hr. unfold JSON_parse.
  apply (parseValue_mono f (f + S (length text))) in H; [|lia].
  destruct (parseValue_fuel (S (length text)) (f + S (length text))) as (Hv & _ & _).
  rewrite (Hv text) by lia. rewrite H, Hr. reflexivity.
Qed.

(** ** JSON values: [JSON.parse] after [JSON.stringify] *)

Lemma join_afterFirst (p : jsstring) (ps : list jsstring) (close : jsstring) :
  join (js ",") (p :: ps) ++ close = p ++ afterFirst ps close.
Proof.
  revert p. induction ps as [|q ps IH]; intros p; [reflexivity|].
  change (join (js ",") (p :: q :: ps)) with (p ++ js "," ++ join (js ",") (q :: ps)).
  rewrite <- !app_assoc, IH. reflexivity.
Qed.

Lemma stringify_array_cons (v : json) (l : list json) (rest : jsstring) :
  JSON_stringify (JArray (v :: l)) ++ rest
  = 91 :: JSON_stringify v ++ afterFirst (map JSON_stringify l) [93] ++ rest.
Proof.
  change (JSON_stringify (JArray (v :: l)))
    with (js "[" ++ join (js ",") (JSON_stringify v :: map JSON_stringify l) ++ js "]").
  rewrite join_afterFirst, <- !app_assoc. reflexivity.
Qed.

Lemma stringify_object_cons (kv : jsstring * json) (ms : list (jsstring * json))
      (rest : jsstring) :
  JSON_stringify (JObject (kv :: ms)) ++ rest
  = 123 :: memberText kv ++ afterFirst (map memberText ms) [125] ++ rest.
Proof.
  change (JSON_stringify (JObject (kv :: ms)))
    with (js "{" ++ join (js ",") (memberText kv :: map memberText ms) ++ js "}").
  rewrite join_afterFirst, <- !app_assoc. reflexivity.
Qed.

Lemma memberText_app (k : jsstring) (v : json) (rest : jsstring) :
  memberText (k, v) ++ rest
  = 34 :: quoteUnits k ++ dq ++ 58 :: JSON_stringify v ++ rest.
Proof.
  unfold memberText, QuoteJSONString. cbn [fst snd].
  rewrite <- !app_assoc. reflexivity.
Qed.

(** A serialized value starts with a character that is neither white space,
    nor a comma, nor a closing bracket or brace. *)
Lemma stringify_head (v : json) (rest : jsstring) :
  numberFree v = true ->
  skipWhiteSpace (JSON_stringify v ++ rest) = JSON_stringify v ++ rest
  /\ expect 93 (JSON_stringify v ++ rest) = None.
Proof.
  destruct v as [|[|]|l|s|l|ms]; intros H; try discriminate H; split; reflexivity.
Qed.

Lemma parseValue_string (f : nat) (r : jsstring) :
  parseValue (S f) (34 :: r) = '(v, rest) ← parseStringBody r; Some (JString v, rest).
Proof. reflexivity. Qed.

Lemma parseValue_array (f : nat) (r : jsstring) :
  parseValue (S f) (91 :: r)
  = match expect 93 (skipWhiteSpace r) with
    | Some rest => Some (JArray [], rest)
    | None =>
      '(v, r1) ← parseValue f r;
      '(vs, rest) ← parseArrayTail f r1;
      Some (JArray (v :: vs), rest)
    end.
Proof. reflexivity. Qed.

Lemma parseValue_object (f : nat) (r : jsstring) :
  parseValue (S f) (123 :: r)
  = match expect 125 (skipWhiteSpace r) with
    | Some rest => Some (JObject [], rest)
    | None =>
      '(m, r1) ← parseMember (parseValue f) r;
      '(ms, rest) ← parseObjectTail f r1;
      Some (JObject (m :: ms), rest)
    end.
Proof. reflexivity. Qed.

Lemma parseArrayTail_comma (f : nat) (r : jsstring) :
  parseArrayTail (S f) (44 :: r)
  = '(v, r1) ← parseValue f r; '(vs, rest) ← parseArrayTail f r1; Some (v :: vs, rest).
Proof. reflexivity. Qed.

Lemma parseObjectTail_comma (f : nat) (r : jsstring) :
  parseObjectTail (S f) (44 :: r)
  = '(m, r1) ← parseMember (parseValue f) r;
    '(ms, rest) ← parseObjectTail f r1;
    Some (m :: ms, rest).
Proof. reflexivity. Qed.

Lemma parseArrayTail_afterFirst (l : list json) :
  Forall parsesBack l -> forallb numberFree l = true ->
  forall (f : nat) (rest : jsstring),
    (length (afterFirst (map JSON_stringify l) [93%N] ++ rest) < f)%nat ->
    parseArrayTail f (afterFirst (map JSON_stringify l) [93] ++ rest) = Some (l, rest).
Proof.
  induction 1 as [|v l Hv Hl IH]; intros Hn f rest Hf.
  - destruct f as [|f]; [cbn in Hf; lia|]. reflexivity.
  - cbn [forallb] in Hn. apply andb_true_iff in Hn as [Hnv Hnl].
    cbn [map afterFirst app] in *. rewrite <- app_assoc in *.
    destruct f as [|f]; [cbn in Hf; lia|]. cbn [length] in Hf.
    rewrite parseArrayTail_comma, (Hv Hnv) by lia. cbn [mbind option_bind].
    rewrite length_app in Hf. rewrite (IH Hnl) by lia. reflexivity.
Qed.

Lemma parseMember_memberText (f : nat) (k : jsstring) (v : json) (rest : jsstring) :
  parsesBack v -> numberFree v = true ->
  (length (memberText (k, v) ++ rest) < S f)%nat ->
  parseMember (parseValue f) (memberText (k, v) ++ rest) = Some ((k, v), rest).
Proof.
  intros Hv Hn Hf. rewrite memberText_app in *. unfold parseMember.
  change (expect 34 (skipWhiteSpace (34 :: ?x))) with (Some x).
  cbn [mbind option_bind]. rewrite parseStringBody_quoteUnits. cbn [mbind option_bind].
  change (expect 58 (skipWhiteSpace (58 :: ?x))) with (Some x).
  cbn [mbind option_bind]. rewrite (Hv Hn); [reflexivity|].
  cbn [length] in Hf. rewrite !length_app in Hf. cbn [length] in Hf.
  rewrite length_app in Hf. rewrite length_app. lia.
Qed.

Lemma parseObjectTail_afterFirst (ms : list (jsstring * json)) :
  Forall (fun kv => parsesBack (snd kv)) ms ->
  forallb (fun kv => numberFree (snd kv)) ms = true ->
  forall (f : nat) (rest : jsstring),
    (length (afterFirst (map memberText ms) [125%N] ++ rest) < f)%nat ->
    parseObjectTail f (afterFirst (map memberText ms) [125] ++ rest) = Some (ms, rest).
Proof.
  induction 1 as [|[k v] ms Hv Hl IH]; intros Hn f rest Hf.
  - destruct f as [|f]; [cbn in Hf; lia|]. reflexivity.
  - cbn [forallb snd] in Hn. apply andb_true_iff in Hn as [Hnv Hnl].
    cbn [map afterFirst app] in *. rewrite <- app_assoc in *.
    destruct f as [|f]; [cbn in Hf; lia|]. cbn [length] in Hf.
    rewrite parseObjectTail_comma, (parseMember_memberText f k v) by (auto; lia).
    cbn [mbind option_bind].
    rewrite length_app in Hf. rewrite (IH Hnl) by lia. reflexivity.
Qed.

(** Every value with no number in it parses back from its serialization,
    whatever text follows. *)
Lemma parseValue_stringify (v : json) : parsesBack v.
Proof.
  induction v as [|b|l|s|l IH|ms IH] using json_induction; intros Hn f rest Hf;
    try discriminate Hn;
    (destruct f as [|f]; [cbn in Hf; lia|]).
  - reflexivity.
  - destruct b; reflexivity.
  - change (JSON_stringify (JString s) ++ rest) with ((dq ++ quoteUnits s ++ dq) ++ rest).
    rewrite <- !app_assoc. change (dq ++ ?x) with (34 :: x) at 1.
    rewrite parseValue_string, parseStringBody_quoteUnits. reflexivity.
  - destruct l as [|v l]; [reflexivity|].
    cbn [numberFree forallb] in Hn. apply andb_true_iff in Hn as [Hnv Hnl].
    apply Forall_cons_iff in IH as [Hv Hl].
    rewrite stringify_array_cons in *. cbn [length] in Hf.
    rewrite parseValue_array.
    destruct (stringify_head v (afterFirst (map JSON_stringify l) [93] ++ rest) Hnv)
      as [-> ->].
    rewrite (Hv Hnv) by lia. cbn [mbind option_bind].
    rewrite length_app in Hf.
    rewrite (parseArrayTail_afterFirst l Hl Hnl) by lia. reflexivity.
  - destruct ms as [|[k v] ms]; [reflexivity|].
    cbn [numberFree forallb snd] in Hn. apply andb_true_iff in Hn as [Hnv Hnl].
    apply Forall_cons_iff in IH as [Hv Hl]. cbn [snd] in Hv.
    rewrite stringify_object_cons in *. cbn [length] in Hf.
    rewrite parseValue_object.
    replace (expect 125 (skipWhiteSpace _)) with (@None jsstring)
      by (rewrite memberText_app; reflexivity).
    rewrite (parseMember_memberText f k v) by (auto; lia).
    cbn [mbind option_bind]. rewrite length_app in Hf.
    rewrite (parseObjectTail_afterFirst ms Hl Hnl) by lia. reflexivity.
Qed.

(** [JSON.parse(JSON.stringify(v))] is [v]. *)
Lemma JSON_parse_stringify (v : json) :
  numberFree v = true -> JSON_parse (JSON_stringify v) = Normal v.
Proof.
  intros Hn. unfold JSON_parse.
  rewrite <- (app_nil_r (JSON_stringify v)) at 2.
  rewrite (parseValue_stringify v Hn); [reflexivity|].
  rewrite app_nil_r. lia.
Qed.

(** ** Dates: [Date.parse] after [toISOString] *)

Local Open Scope Z_scope.

(** Linear arithmetic with divisions and remainders by constants. *)
Ltac zlia := Z.to_euclidean_division_equations; lia.

Lemma DayFromYear_step (y : Z) : DayFromYear (y + 1) - DayFromYear y = 365 + InLeapYear y.
Proof.
  unfold DayFromYear, InLeapYear.
  destruct (Z.eqb_spec (y mod 4) 0), (Z.eqb_spec (y mod 100) 0),
    (Z.eqb_spec (y mod 400) 0); cbn [negb]; zlia.
Qed.

Lemma InLeapYear_cases (y : Z) : InLeapYear y = 0 \/ InLeapYear y = 1.
Proof.
  unfold InLeapYear.
  destruct (negb _); [now left|]. destruct (negb _); [now right|].
  destruct (negb _); [now left | now right].
Qed.

(** [YearFromDay] is ECMA-262's [YearFromTime]: the year the day falls in. *)
Lemma YearFromDay_spec (day : Z) :
  DayFromYear (YearFromDay day) <= day < DayFromYear (YearFromDay day + 1).
Proof.
  unfold YearFromDay.
  destruct (Z.ltb_spec day (DayFromYear (1970 + 400 * day / 146097))) as [H|H].
  - replace (1970 + 400 * day / 146097 - 1 + 1) with (1970 + 400 * day / 146097) by zlia.
    split; [|exact H]. unfold DayFromYear in *. zlia.
  - destruct (Z.leb_spec (DayFromYear (1970 + 400 * day / 146097 + 1)) day) as [H'|H'].
    + split; [exact H'|]. unfold DayFromYear in *. zlia.
    + split; assumption.
Qed.

Lemma YearFromDay_range (day : Z) :
  -100000000 <= day <= 100000000 -> -271821 <= YearFromDay day <= 275760.
Proof.
  intros H. pose proof (YearFromDay_spec day) as S.
  unfold DayFromYear in S. zlia.
Qed.

Ltac month_arith :=
  repeat match goal with
         | |- context [Z.add ?a 1] =>
           let v := eval vm_compute in (Z.add a 1) in change (Z.add a 1) with v
         end;
  cbn; lia.

Lemma MonthFromDay_spec (dayWithinYear leap : Z) :
  0 <= dayWithinYear < 365 + leap -> leap = 0 \/ leap = 1 ->
  0 <= MonthFromDay dayWithinYear leap <= 11
  /\ monthStart (MonthFromDay dayWithinYear leap) leap <= dayWithinYear
     < monthStart (MonthFromDay dayWithinYear leap + 1) leap.
Proof.
  intros H L. remember (MonthFromDay dayWithinYear leap) as m eqn:E.
  symmetry in E. revert E. unfold MonthFromDay.
  repeat match goal with
         | |- (if Z.ltb ?x ?k then _ else _) = _ -> _ =>
           destruct (Z.ltb_spec x k); [intros <-; month_arith|]
         end.
  intros <-. month_arith.
Qed.

Lemma monthStart_bounds (m leap : Z) :
  0 <= m <= 11 -> leap = 0 \/ leap = 1 ->
  28 <= monthStart (m + 1) leap - monthStart m leap <= 31.
Proof.
  intros H L.
  assert (E : m = 0 \/ m = 1 \/ m = 2 \/ m = 3 \/ m = 4 \/ m = 5 \/ m = 6 \/ m = 7
              \/ m = 8 \/ m = 9 \/ m = 10 \/ m = 11) by lia.
  repeat (destruct E as [->|E]; [month_arith|]). subst m. month_arith.
Qed.

(** *** Decimal fields *)

Lemma digit_unit (d : Z) :
  0 <= d <= 9 ->
  isDigit (Z.to_N (48 + d)) = true /\ Z.of_N (Z.to_N (48 + d)) - 48 = d.
Proof. intros H. unfold isDigit. lia. Qed.

Lemma readDigits_app (w1 w2 : nat) (acc : Z) (s : jsstring) :
  readDigits (w1 + w2) acc s = '(a, r) ← readDigits w1 acc s; readDigits w2 a r.
Proof.
  revert acc s. induction w1 as [|w1 IH]; intros acc s; [reflexivity|].
  cbn [Nat.add readDigits]. destruct s as [|c s]; [reflexivity|].
  destruct (isDigit c); [apply IH | reflexivity].
Qed.

Lemma readDigits_pad (w : nat) (n acc : Z) (rest : jsstring) :
  0 <= n < 10 ^ Z.of_nat w ->
  readDigits w acc (pad w n ++ rest) = Some (acc * 10 ^ Z.of_nat w + n, rest).
Proof.
  revert n acc rest. induction w as [|w IH]; intros n acc rest H.
  - cbn in *. apply (f_equal (fun z => Some (z, rest))); zlia.
  - rewrite Nat2Z.inj_succ, Z.pow_succ_r in * by zlia.
    cbn [pad]. rewrite <- app_assoc. cbn [app].
    replace (S w) with (w + 1)%nat by zlia.
    rewrite readDigits_app, IH by zlia. cbn [mbind option_bind readDigits].
    destruct (digit_unit (n mod 10)) as [-> ->]; [zlia|].
    apply (f_equal (fun z => Some (z, rest))). pose proof (Z.div_mod n 10). lia.
Qed.

Lemma pad_head (w : nat) (n : Z) (rest : jsstring) :
  exists c r, pad (S w) n ++ rest = c :: r /\ isDigit c = true.
Proof.
  revert n rest. induction w as [|w IH]; intros n rest.
  - exists (Z.to_N (48 + n mod 10)), rest. split; [reflexivity|].
    apply digit_unit. zlia.
  - change (pad (S (S w)) n) with (pad (S w) (n / 10) ++ [Z.to_N (48 + n mod 10)]).
    rewrite <- app_assoc. apply IH.
Qed.

Lemma expect_digit (k c : N) (r : jsstring) :
  isDigit c = true -> (k < 48)%N -> expect k (c :: r) = None.
Proof.
  intros H Hk. unfold expect, isDigit in *.
  destruct (N.eqb_spec k c); [lia | reflexivity].
Qed.

Lemma readYear_yearString (y : Z) (rest : jsstring) :
  -999999 <= y <= 999999 -> readYear (yearString y ++ rest) = Some (y, rest).
Proof.
  intros H. unfold yearString, readYear.
  destruct ((0 <=? y) && (y <=? 9999)) eqn:E.
  - destruct (pad_head 3 y rest) as (c & r & Hc & Hd).
    rewrite Hc, !expect_digit by (auto; zlia). rewrite <- Hc.
    rewrite readDigits_pad by (cbn; zlia). apply (f_equal (fun z => Some (z, rest))); zlia.
  - destruct (Z.ltb_spec y 0) as [Hy|Hy].
    + rewrite <- app_assoc. cbn [js list_ascii_of_string map app expect].
      change (N_of_ascii "-") with 45%N. cbn [N.eqb Pos.eqb].
      rewrite readDigits_pad by (cbn; zlia). cbn [mbind option_bind].
      destruct (Z.eqb_spec (0 * 10 ^ Z.of_nat 6 + Z.abs y) 0) as [?|_]; [zlia|].
      apply (f_equal (fun z => Some (z, rest))); zlia.
    + rewrite <- app_assoc. cbn [js list_ascii_of_string map app expect].
      change (N_of_ascii "+") with 43%N. cbn [N.eqb Pos.eqb].
      rewrite readDigits_pad by (cbn; zlia). apply (f_equal (fun z => Some (z, rest))); zlia.
Qed.

Lemma expect_js (c : N) (a : ascii) (rest : jsstring) :
  N_of_ascii a = c -> expect c (js (String a EmptyString) ++ rest) = Some rest.
Proof.
  intros <-. cbn [js list_ascii_of_string map app expect]. now rewrite N.eqb_refl.
Qed.

(** A valid time value comes back from the string [toISOString] writes for
    it. *)
Lemma Date_parse_toISOString (t : Z) :
  validTime t -> Date_parse (toISOString t) = Some t.
Proof.
  unfold validTime, maxTime. intros Ht.
  unfold toISOString, Date_parse.
  set (day := Day t). set (y := YearFromDay day). set (leap := InLeapYear y).
  set (dwy := day - DayFromYear y). set (m := MonthFromDay dwy leap).
  set (tw := TimeWithinDay t).
  assert (Hday : -100000000 <= day <= 100000000)
    by (subst day; unfold Day, msPerDay; zlia).
  pose proof (YearFromDay_range day Hday) as Hy. fold y in Hy.
  pose proof (YearFromDay_spec day) as Hs. fold y in Hs.
  pose proof (DayFromYear_step y) as Hstep. fold leap in Hstep.
  pose proof (InLeapYear_cases y) as Hleap. fold leap in Hleap.
  assert (Hdwy : 0 <= dwy < 365 + leap) by (subst dwy; zlia).
  destruct (MonthFromDay_spec dwy leap Hdwy Hleap) as [Hm Hdm]. fold m in Hm, Hdm.
  pose proof (monthStart_bounds m leap Hm Hleap) as Hlen.
  assert (Htw : 0 <= tw < 86400000)
    by (subst tw; unfold TimeWithinDay, msPerDay; apply Z.mod_pos_bound; zlia).
  rewrite readYear_yearString by zlia. cbn [mbind option_bind].
  rewrite (expect_js 45 "-") by reflexivity. cbn [mbind option_bind].
  rewrite readDigits_pad by (cbn; zlia). cbn [mbind option_bind].
  rewrite (expect_js 45 "-") by reflexivity. cbn [mbind option_bind].
  rewrite readDigits_pad by (cbn; zlia). cbn [mbind option_bind].
  rewrite (expect_js 84 "T") by reflexivity. cbn [mbind option_bind].
  rewrite readDigits_pad by (cbn; zlia). cbn [mbind option_bind].
  rewrite (expect_js 58 ":") by reflexivity. cbn [mbind option_bind].
  rewrite readDigits_pad by (cbn; zlia). cbn [mbind option_bind].
  rewrite (expect_js 58 ":") by reflexivity. cbn [mbind option_bind].
  rewrite readDigits_pad by (cbn; zlia). cbn [mbind option_bind].
  rewrite (expect_js 46 ".") by reflexivity. cbn [mbind option_bind].
  rewrite readDigits_pad by (cbn; zlia). cbn [mbind option_bind].
  change (expect 90 (js "Z")) with (Some (@nil N)).
  cbn [mbind option_bind truthy negb andb].
  change (Z.of_nat 2) with 2. change (Z.of_nat 3) with 3.
  replace (0 * 10 ^ 2 + (m + 1) - 1) with m by zlia.
  replace (0 * 10 ^ 2 + (m + 1)) with (m + 1) by zlia.
  rewrite !Z.mul_0_l, !Z.add_0_l. fold leap.
  assert (Ht' : (DayFromYear y + monthStart m leap + (dwy - monthStart m leap + 1) - 1)
                * msPerDay + tw / 3600000 * 3600000 + tw / 60000 mod 60 * 60000
                + tw / 1000 mod 60 * 1000 + tw mod 1000 = t).
  { subst dwy tw day. unfold TimeWithinDay, Day, msPerDay in *. zlia. }
  rewrite Ht'.
  replace ((1 <=? m + 1) && (m + 1 <=? 12) && (1 <=? dwy - monthStart m leap + 1)
           && (dwy - monthStart m leap + 1 <=? monthStart (m + 1) leap - monthStart m leap)
           && (tw / 60000 mod 60 <=? 59) && (tw / 1000 mod 60 <=? 59)
           && ((tw / 3600000 <=? 23)
               || (tw / 3600000 =? 24) && (tw / 60000 mod 60 =? 0)
                  && (tw / 1000 mod 60 =? 0) && (tw mod 1000 =? 0)))
    with true by zlia.
  assert (Hclip : (- maxTime <=? t) && (t <=? maxTime) = true) by (unfold maxTime; lia).
  rewrite Hclip. reflexivity.
Qed.

Local Close Scope Z_scope.

(** ** Loading what the page saved *)

Lemma Date_parse_valid (s : jsstring) (t : Z) : Date_parse s = Some t -> validTime t.
Proof.
  unfold Date_parse, validTime. intros H.
  repeat match type of H with
         | (mbind _ ?o) = _ => destruct o as [[? ?]|]; cbn [mbind option_bind] in H;
                               [|discriminate H]
         | (mbind _ ?o) = _ => destruct o as [?|]; cbn [mbind option_bind] in H;
                               [|discriminate H]
         end.
  destruct (negb _ && _ && _ && _ && _ && _ && _ && _); [|discriminate H].
  match type of H with
  | (if ?c then _ else _) = _ => destruct c eqn:E; [|discriminate H]
  end.
  injection H as <-. lia.
Qed.

Lemma asMessage_toJSON (m : Message) :
  validTime (timestamp m) -> asMessage (Message_toJSON m) = Some m.
Proof.
  intros H. destruct m as [i r c t]. cbn [timestamp] in H.
  unfold Message_toJSON, asMessage. cbn [id role content timestamp].
  change (streq (js "id") (js "id") && streq (js "role") (js "role")
          && streq (js "content") (js "content")
          && streq (js "timestamp") (js "timestamp")) with true.
  cbn match.
  replace (parseRole (roleString r)) with (Some r) by (destruct r; reflexivity).
  cbn [mbind option_bind]. rewrite (Date_parse_toISOString t H). reflexivity.
Qed.

Lemma asMessage_valid (v : json) (m : Message) :
  asMessage v = Some m -> validTime (timestamp m).
Proof.
  unfold asMessage.
  destruct v as [| | | |l|ms]; try discriminate.
  destruct ms as [|[k1 [| | |i| |]] ms]; try discriminate.
  destruct ms as [|[k2 [| | |r| |]] ms]; try discriminate.
  destruct ms as [|[k3 [| | |c| |]] ms]; try discriminate.
  destruct ms as [|[k4 [| | |t| |]] ms]; try discriminate.
  destruct ms; try discriminate.
  destruct (_ && _ && _ && _); [|discriminate].
  destruct (parseRole r); [|discriminate]. cbn [mbind option_bind].
  destruct (Date_parse t) as [time|] eqn:E; [|discriminate]. cbn [mbind option_bind].
  intros H. injection H as <-. cbn [timestamp]. exact (Date_parse_valid _ _ E).
Qed.

Lemma mapM_asMessage_toJSON (ms : list Message) :
  validTimestamps ms -> mapM asMessage (map Message_toJSON ms) = Some ms.
Proof.
  intros H. apply mapM_Some.
  induction H as [|m ms Hm Hms IH]; constructor; [|exact IH].
  exact (asMessage_toJSON m Hm).
Qed.

Lemma mapM_asMessage_valid (l : list json) (ms : list Message) :
  mapM asMessage l = Some ms -> validTimestamps ms.
Proof.
  intros H. apply mapM_Some in H.
  induction H as [|v m l ms Hv Hl IH]; constructor; [|exact IH].
  exact (asMessage_valid v m Hv).
Qed.

Lemma reviveThrows_toJSON (ms : list Message) :
  existsb reviveThrows (map Message_toJSON ms) = false.
Proof. induction ms as [|m ms IH]; [reflexivity|]. cbn [map existsb]. now rewrite IH. Qed.

Lemma numberFree_toJSON (ms : list Message) :
  numberFree (JArray (map Message_toJSON ms)) = true.
Proof.
  cbn [numberFree]. induction ms as [|m ms IH]; [reflexivity|].
  cbn [map forallb]. now rewrite IH.
Qed.

(** Over a storage that holds the serialization of [ms], the load effect
    gives [ms] to [setMessages]. *)
Lemma loadEffect_stringifyMessages (storage : gmap jsstring jsstring) (ms : list Message) :
  storage !! storageKey = Some (stringifyMessages ms) ->
  validTimestamps ms ->
  loadEffect storage = SetMessages (Restored ms).
Proof.
  intros Hs Hv. unfold loadEffect. rewrite Hs.
  unfold stringifyMessages at 1.
  change (truthy (JSON_stringify (JArray ?l))) with true. cbn match.
  unfold stringifyMessages.
  rewrite (JSON_parse_stringify _ (numberFree_toJSON ms)).
  now rewrite reviveThrows_toJSON, mapM_asMessage_toJSON.
Qed.

Lemma loadEffect_valid (storage : gmap jsstring jsstring) (ms : list Message) :
  loadEffect storage = SetMessages (Restored ms) -> validTimestamps ms.
Proof.
  unfold loadEffect.
  destruct (storage !! storageKey) as [text|]; [|discriminate].
  destruct (truthy text); [|discriminate].
  destruct (JSON_parse text) as [[| | | |l|]|]; try discriminate.
  destruct (existsb reviveThrows l); [discriminate|].
  destruct (mapM asMessage l) as [ms'|] eqn:E; [|discriminate].
  intros H. injection H as <-. exact (mapM_asMessage_valid _ _ E).
Qed.

(** On a page mounted over a storage it could read and driven by its events,
    the timestamps are valid and, unless the history is empty, storage holds
    the serialization of the messages in memory. *)
Lemma reachable_storage (toLowerCase : jsstring -> jsstring) (st : ChatApp) :
  reachable toLowerCase st ->
  validTimestamps (messages st)
  /\ (messages st <> [] ->
      localStorage st !! storageKey = Some (stringifyMessages (messages st))).
Proof.
  assert (Hsave : forall s, validTimestamps (messages s) ->
            validTimestamps (messages (saveEffect s))
            /\ (messages (saveEffect s) <> [] ->
                localStorage (saveEffect s) !! storageKey
                = Some (stringifyMessages (messages (saveEffect s))))).
  { intros s Hv. rewrite saveEffect_messages, saveEffect_storage. split; [exact Hv|].
    destruct (messages s); [congruence | reflexivity]. }
  assert (Hsnoc : forall ms m, validTimestamps ms -> validTime (timestamp m) ->
            validTimestamps (ms ++ [m])).
  { intros ms m Hms Hm. apply Forall_app. split; [exact Hms|]. now constructor. }
  induction 1 as [storage st Hm | e st Hr [IHv IHs] Hv].
  - unfold mount in Hm.
    destruct (loadEffect storage) as [|[ms|l]|e] eqn:E; inversion Hm; subst; clear Hm.
    + split; [apply List.Forall_nil | intros H; now destruct H].
    + apply Hsave. cbn [messages]. exact (loadEffect_valid _ _ E).
  - destruct e as [value|key shiftKey clock random|clock random| |clock];
      cbn [step validEvent] in *.
    + destruct (isTyping st); split; assumption.
    + destruct (isTyping st); [split; assumption|]. unfold handleKeyPress.
      destruct (streq key (js "Enter") && negb shiftKey); [|split; assumption].
      unfold handleSendMessage.
      destruct (negb (truthy (trim (inputValue st)))); [split; assumption|].
      apply Hsave. cbn [messages]. apply Hsnoc; [exact IHv | apply Hv].
    + destruct (negb (truthy (trim (inputValue st))) || isTyping st) eqn:E;
        [split; assumption|].
      apply orb_false_iff in E as [E _]. unfold handleSendMessage. rewrite E.
      apply Hsave. cbn [messages]. apply Hsnoc; [exact IHv | apply Hv].
    + unfold clearChat. apply Hsave. apply List.Forall_nil.
    + destruct (pending st) as [|p ps]; [split; assumption|].
      unfold handleSendMessage_resume. destruct (settlement p).
      * apply Hsave. cbn [messages]. apply Hsnoc; [exact IHv | exact Hv].
      * split; assumption.
Qed.

(** C3. Persist, then load. On a page driven by its events the entry under
    the key is the serialization of the messages in memory whenever there is
    one, and loading it (on this page's storage, by a page mounted afresh)
    gives back the same sequence: the same ids, roles, contents and order,
    and the same time values, which [toISOString] writes to the
    millisecond. *)
Theorem persisted_history_loads_back (toLowerCase : jsstring -> jsstring) (st : ChatApp) :
  reachable toLowerCase st ->
  messages st <> [] ->
  localStorage st !! storageKey = Some (stringifyMessages (messages st))
  /\ loadEffect (localStorage st) = SetMessages (Restored (messages st))
  /\ exists fresh,
       mount (localStorage st) = Mounted fresh /\ messages fresh = messages st.
Proof.
  intros Hr Hne. destruct (reachable_storage _ _ Hr) as [Hv Hs].
  specialize (Hs Hne).
  pose proof (loadEffect_stringifyMessages _ _ Hs Hv) as Hl.
  split; [exact Hs|]. split; [exact Hl|].
  unfold mount. rewrite Hl. eexists. split; [reflexivity|].
  rewrite saveEffect_messages. reflexivity.
Qed.

(** A page mounted over an empty storage, a question typed and sent, the
    response settled: two messages, and loading gives the two back. *)
Lemma persisted_history_loads_back_witness :
  let fresh := {| messages := []; inputValue := []; isTyping := false;
                  localStorage := ∅; pending := []; consoleErrors := [] |} in
  let st :=
    step asciiLowerCase (Settle (mkClock 1700000002000 1700000002001))
      (step asciiLowerCase (ClickSend (mkClock 1700000000000 1700000000000) (number 0))
         (step asciiLowerCase (Change (js "what is a proof")) fresh)) in
  map role (messages st) = [user; assistant]
  /\ loadEffect (localStorage st) = SetMessages (Restored (messages st)).
Proof.
  intros fresh st.
  assert (R : reachable asciiLowerCase st).
  { subst st. apply reachable_step; [apply reachable_step; [apply reachable_step|]|].
    - apply (reachable_mount _ ∅). reflexivity.
    - exact I.
    - split; [unfold validTime, maxTime; cbn; lia|]. repeat split; reflexivity.
    - unfold validEvent, validTime, maxTime. cbn. lia. }
  assert (M : map role (messages st) = [user; assistant]) by (vm_compute; reflexivity).
  split; [exact M|].
  refine (proj1 (proj2 (persisted_history_loads_back asciiLowerCase st R _))).
  intros E. rewrite E in M. discriminate M.
Defined.

(** ** Loading what the page did not save *)

Lemma JSON_parse_throws (text : jsstring) (e : Exception) :
  JSON_parse text = Throw e -> e = SyntaxError.
Proof.
  unfold JSON_parse. destruct (parseValue _ text) as [[v rest]|].
  - destruct (skipWhiteSpace rest); [discriminate | congruence].
  - congruence.
Qed.

Lemma truthy_nonempty (s : jsstring) : s <> [] -> truthy s = true.
Proof. destruct s; [congruence | reflexivity]. Qed.

Lemma reviveThrows_cases (msg : json) :
  reviveThrows msg = true <->
  msg = JNull
  \/ exists ms v,
       msg = JObject ms /\ lookupLast (js "timestamp") ms = Some v
       /\ toPrimitiveThrows v = true.
Proof.
  split.
  - destruct msg as [| | | | |ms]; cbn [reviveThrows]; try discriminate; [now left|].
    destruct (lookupLast (js "timestamp") ms) as [v|] eqn:E; [|discriminate].
    intros H. right. now exists ms, v.
  - intros [->|(ms & v & -> & E & H)]; [reflexivity|]. cbn [reviveThrows]. now rewrite E.
Qed.

Lemma loadEffect_array (storage : gmap jsstring jsstring) (text : jsstring) (l : list json) :
  storage !! storageKey = Some text -> JSON_parse text = Normal (JArray l) ->
  loadEffect storage
  = if existsb reviveThrows l then Thrown TypeError
    else match mapM asMessage l with
         | Some ms => SetMessages (Restored ms)
         | None => SetMessages (Foreign l)
         end.
Proof.
  intros Hs Hp. unfold loadEffect. rewrite Hs.
  destruct text as [|c text]; [discriminate Hp|]. cbn [truthy]. now rewrite Hp.
Qed.

(** C1, as the code has it. The load effect has no handler of its own, and
    what it does is decided by the text under the key, case by case.
    - No entry, or the empty text: nothing is parsed, the sequence stays
      empty, nothing is raised.
    - A text that is not JSON: the SyntaxError of [JSON.parse] leaves the
      effect, and the page is not mounted.
    - JSON that is not an array: a TypeError leaves the effect ([.map] is
      not a function there).
    - An array with an element the callback throws on, which is null (its
      [timestamp] cannot be read) or an object whose [timestamp] is an
      object or array that [new Date] cannot turn into a primitive value: a
      TypeError leaves the effect.
    - Any other array: nothing is raised, and [setMessages] receives one
      object for each element; for the empty array the sequence stays empty.
    So the load raises nothing and leaves the sequence empty exactly in
    three cases: no entry, the empty text, the text of an empty array. *)
Theorem load_outcomes (storage : gmap jsstring jsstring) :
  (storage !! storageKey = None \/ storage !! storageKey = Some [] ->
   loadEffect storage = NotCalled
   /\ mount storage
      = Mounted {| messages := []; inputValue := []; isTyping := false;
                   localStorage := storage; pending := []; consoleErrors := [] |})
  /\ (forall text e,
        storage !! storageKey = Some text -> text <> [] ->
        JSON_parse text = Throw e ->
        loadEffect storage = Thrown SyntaxError /\ mount storage = Crashed SyntaxError)
  /\ (forall text v,
        storage !! storageKey = Some text -> text <> [] ->
        JSON_parse text = Normal v ->
        (forall l, v <> JArray l) ->
        loadEffect storage = Thrown TypeError /\ mount storage = Crashed TypeError)
  /\ (forall text l,
        storage !! storageKey = Some text ->
        JSON_parse text = Normal (JArray l) ->
        In JNull l
        \/ (exists ms v,
              In (JObject ms) l /\ lookupLast (js "timestamp") ms = Some v
              /\ toPrimitiveThrows v = true) ->
        loadEffect storage = Thrown TypeError /\ mount storage = Crashed TypeError)
  /\ (forall text l,
        storage !! storageKey = Some text ->
        JSON_parse text = Normal (JArray l) ->
        ~ In JNull l ->
        (forall ms v,
           In (JObject ms) l -> lookupLast (js "timestamp") ms = Some v ->
           toPrimitiveThrows v = false) ->
        (exists loaded,
           loadEffect storage = SetMessages loaded /\ loadedLength loaded = length l)
        /\ (forall e, mount storage <> Crashed e)
        /\ (l = [] ->
            mount storage
            = Mounted {| messages := []; inputValue := []; isTyping := false;
                         localStorage := storage; pending := []; consoleErrors := [] |}))
  /\ (loadEffect storage = NotCalled
      \/ (exists loaded, loadEffect storage = SetMessages loaded /\ loadedLength loaded = 0%nat)
      <-> storage !! storageKey = None \/ storage !! storageKey = Some []
          \/ exists text,
               storage !! storageKey = Some text /\ JSON_parse text = Normal (JArray [])).
Proof.
  split; [|split; [|split; [|split; [|split]]]].
  - intros H.
    assert (E : loadEffect storage = NotCalled)
      by (unfold loadEffect; destruct H as [-> | ->]; reflexivity).
    split; [exact E|]. unfold mount. now rewrite E.
  - intros text e Hs Hne Hp.
    assert (E : loadEffect storage = Thrown SyntaxError).
    { unfold loadEffect. rewrite Hs, (truthy_nonempty _ Hne), Hp.
      now rewrite (JSON_parse_throws _ _ Hp). }
    split; [exact E|]. unfold mount. now rewrite E.
  - intros text v Hs Hne Hp Hv.
    assert (E : loadEffect storage = Thrown TypeError).
    { unfold loadEffect. rewrite Hs, (truthy_nonempty _ Hne), Hp.
      destruct v; try reflexivity. now destruct (Hv elements). }
    split; [exact E|]. unfold mount. now rewrite E.
  - intros text l Hs Hp Hv.
    assert (E : loadEffect storage = Thrown TypeError).
    { rewrite (loadEffect_array _ _ _ Hs Hp).
      replace (existsb reviveThrows l) with true; [reflexivity|].
      symmetry. apply existsb_exists. destruct Hv as [Hin|(ms & v & Hin & Hl & Ht)].
      - exists JNull. now split.
      - exists (JObject ms). split; [exact Hin|].
        apply reviveThrows_cases. right. now exists ms, v. }
    split; [exact E|]. unfold mount. now rewrite E.
  - intros text l Hs Hp Hnull Hobj.
    assert (Hv : existsb reviveThrows l = false).
    { destruct (existsb reviveThrows l) eqn:Ex; [|reflexivity]. exfalso.
      apply existsb_exists in Ex as (msg & Hin & Hr).
      apply reviveThrows_cases in Hr as [->|(ms & v & -> & Hl & Ht)];
        [exact (Hnull Hin)|].
      rewrite (Hobj ms v Hin Hl) in Ht. discriminate Ht. }
    pose proof (loadEffect_array _ _ _ Hs Hp) as E. rewrite Hv in E.
    split; [|split].
    + destruct (mapM asMessage l) as [ms|] eqn:Em; eexists; (split; [exact E|]);
        cbn [loadedLength]; [symmetry; exact (length_mapM _ _ _ Em) | reflexivity].
    + intros e. unfold mount. rewrite E.
      destruct (mapM asMessage l); discriminate.
    + intros ->. cbn in E. unfold mount. now rewrite E.
  - split.
    + intros H. unfold loadEffect in H.
      destruct (storage !! storageKey) as [text|] eqn:Hs; [|now left].
      right. destruct text as [|c text]; [now left|]. right.
      exists (c :: text). split; [reflexivity|]. cbn [truthy] in H.
      destruct (JSON_parse (c :: text)) as [v|e].
      * assert (Hl : exists l, v = JArray l /\ existsb reviveThrows l = false
                               /\ (mapM asMessage l = None \/ exists ms, mapM asMessage l = Some ms)
                               /\ forall loaded,
                                    match mapM asMessage l with
                                    | Some ms => SetMessages (Restored ms)
                                    | None => SetMessages (Foreign l)
                                    end = SetMessages loaded ->
                                    loadedLength loaded = length l).
        { destruct v as [| | | |l|]; try (destruct H as [H|(x & H & _)]; discriminate H).
          exists l. split; [reflexivity|].
          destruct (existsb reviveThrows l);
            [destruct H as [H|(x & H & _)]; discriminate H|].
          split; [reflexivity|]. split.
          - destruct (mapM asMessage l); [right; now eexists | now left].
          - intros loaded. destruct (mapM asMessage l) as [ms|] eqn:Em; intros E;
              injection E as <-; cbn [loadedLength];
              [symmetry; exact (length_mapM _ _ _ Em) | reflexivity]. }
        destruct Hl as (l & -> & Hr & _ & Hlen). rewrite Hr in H.
        destruct H as [H|(loaded & H & H0)].
        -- destruct (mapM asMessage l); discriminate H.
        -- apply Hlen in H. rewrite H0 in H. destruct l; [reflexivity | discriminate H].
      * destruct H as [H|(x & H & _)]; discriminate H.
    + intros [H|[H|(text & Hs & Hp)]].
      * left. unfold loadEffect. now rewrite H.
      * left. unfold loadEffect. now rewrite H.
      * right. exists (Restored []). split; [|reflexivity].
        now rewrite (loadEffect_array _ _ _ Hs Hp).
Qed.

(** The cases on stored values: none, a text that is not JSON, an array
    with a null element, the empty array, and an array whose element has a
    timestamp without a primitive value. *)
Lemma load_outcomes_witness :
  mount ∅ = Mounted {| messages := []; inputValue := []; isTyping := false;
                       localStorage := ∅; pending := []; consoleErrors := [] |}
  /\ mount {[ storageKey := js "<html>" ]} = Crashed SyntaxError
  /\ mount {[ storageKey := js "[null]" ]} = Crashed TypeError
  /\ mount {[ storageKey := js "[]" ]}
     = Mounted {| messages := []; inputValue := []; isTyping := false;
                  localStorage := {[ storageKey := js "[]" ]}; pending := [];
                  consoleErrors := [] |}
  /\ mount {[ storageKey := noPrimitive ]} = Crashed TypeError.
Proof.
  split; [|split; [|split; [|split]]].
  - apply (proj1 (load_outcomes ∅)). left. reflexivity.
  - refine (proj2 (proj1 (proj2 (load_outcomes {[ storageKey := js "<html>" ]}))
                     (js "<html>") SyntaxError _ _ _)).
    + apply lookup_singleton_eq.
    + discriminate.
    + vm_compute. reflexivity.
  - refine (proj2 (proj1 (proj2 (proj2 (proj2 (load_outcomes {[ storageKey := js "[null]" ]}))))
                     (js "[null]") [JNull] _ _ _)).
    + apply lookup_singleton_eq.
    + vm_compute. reflexivity.
    + left. now left.
  - refine (proj2 (proj2 (proj1 (proj2 (proj2 (proj2 (proj2
              (load_outcomes {[ storageKey := js "[]" ]})))))
                     (js "[]") [] _ _ _ _)) eq_refl).
    + apply lookup_singleton_eq.
    + vm_compute. reflexivity.
    + intros [].
    + intros ms v [].
  - refine (proj2 (proj1 (proj2 (proj2 (proj2 (load_outcomes {[ storageKey := noPrimitive ]}))))
                     noPrimitive
                     [JObject [(js "timestamp", JObject [(js "toString", JBool false)])]]
                     _ _ _)).
    + apply lookup_singleton_eq.
    + vm_compute. reflexivity.
    + right. eexists _, _. split; [now left|]. split; reflexivity.
Defined.

(** C1 as stated fails: with a stored text that is not JSON the load raises
    a SyntaxError to its caller, and with stored JSON of another shape the
    sequence is not left empty or a TypeError is raised. *)
Lemma load_raises_on_malformed_data :
  mount {[ storageKey := js "not json" ]} = Crashed SyntaxError
  /\ mount {[ storageKey := js "{}" ]} = Crashed TypeError
  /\ loadEffect {[ storageKey := js "[1]" ]} = SetMessages (Foreign [JNumber (js "1")]).
Proof.
  unfold mount, loadEffect. rewrite !lookup_singleton_eq.
  repeat split; vm_compute; reflexivity.
Qed.

(** ** The delay: binary64 rounding of [800 + random * 1500] *)

Local Open Scope Z_scope.

Lemma digits2_pos_bounds (p : positive) :
  2 ^ (Zpos (digits2_pos p) - 1) <= Zpos p < 2 ^ Zpos (digits2_pos p).
Proof.
  induction p as [p IH|p IH|]; cbn [digits2_pos]; [| |cbn; lia];
    rewrite Pos2Z.inj_succ;
    replace (Z.succ (Zpos (digits2_pos p)) - 1) with (Z.succ (Zpos (digits2_pos p) - 1)) by lia;
    rewrite !Z.pow_succ_r by lia; lia.
Qed.

(** One more than the exponent of the leading bit. *)
Lemma Zdigits2_le (m : positive) (k : Z) :
  0 <= k -> Zpos m < 2 ^ k -> Zdigits2 (Zpos m) <= k.
Proof.
  intros Hk H. cbn [Zdigits2]. pose proof (digits2_pos_bounds m) as [B _].
  destruct (Z.le_gt_cases (Zpos (digits2_pos m)) k) as [?|G]; [assumption|].
  assert (2 ^ k <= 2 ^ (Zpos (digits2_pos m) - 1)) by (apply Z.pow_le_mono_r; lia).
  lia.
Qed.

Lemma Zdigits2_ge (m : positive) (k : Z) :
  2 ^ k <= Zpos m -> k < Zdigits2 (Zpos m).
Proof.
  intros H. cbn [Zdigits2]. pose proof (digits2_pos_bounds m) as [_ B].
  destruct (Z.lt_ge_cases k (Zpos (digits2_pos m))) as [?|G]; [assumption|].
  assert (2 ^ Zpos (digits2_pos m) <= 2 ^ k) by (apply Z.pow_le_mono_r; lia).
  lia.
Qed.

(** *** Shifting right with a round and a sticky bit *)

Lemma shr_1_spec (mrs : shr_record) :
  0 <= shr_m mrs ->
  shr_m (shr_1 mrs) = shr_m mrs / 2
  /\ (forall q, shr_m mrs = q * 2 -> shr_r mrs = false -> shr_s mrs = false ->
      shr_r (shr_1 mrs) = false /\ shr_s (shr_1 mrs) = false).
Proof.
  destruct mrs as [m r s]. cbn [shr_m shr_r shr_s]. intros H.
  destruct m as [|[p|p|]|p]; cbn [shr_1 shr_m shr_r shr_s]; try lia.
  - split; [reflexivity|]. intros q _ -> ->. now split.
  - split; [|intros q E; lia].
    rewrite (Pos2Z.inj_xI p). apply (Z.div_unique _ _ _ 1); lia.
  - split; [|intros q _ -> ->; now split].
    rewrite (Pos2Z.inj_xO p). apply (Z.div_unique _ _ _ 0); lia.
  - split; [reflexivity|]. intros q E. lia.
Qed.

Lemma iter_shr_1_spec (n : positive) (mrs : shr_record) :
  0 <= shr_m mrs ->
  shr_m (SpecFloat.iter_pos shr_1 n mrs) = shr_m mrs / 2 ^ Zpos n
  /\ (forall q, shr_m mrs = q * 2 ^ Zpos n -> shr_r mrs = false -> shr_s mrs = false ->
      shr_r (SpecFloat.iter_pos shr_1 n mrs) = false
      /\ shr_s (SpecFloat.iter_pos shr_1 n mrs) = false).
Proof.
  revert mrs. induction n as [n IH|n IH|]; intros mrs H; cbn [SpecFloat.iter_pos].
  - destruct (shr_1_spec mrs H) as [M1 E1].
    assert (H1 : 0 <= shr_m (shr_1 mrs)) by (rewrite M1; apply Z.div_pos; lia).
    destruct (IH _ H1) as [M2 E2].
    assert (H2 : 0 <= shr_m (SpecFloat.iter_pos shr_1 n (shr_1 mrs)))
      by (rewrite M2; apply Z.div_pos; lia).
    destruct (IH _ H2) as [M3 E3].
    rewrite (Pos2Z.inj_xI n).
    replace (2 * Zpos n + 1) with (1 + Zpos n + Zpos n) by lia.
    rewrite !Z.pow_add_r by lia. change (2 ^ 1) with 2.
    set (k := 2 ^ Zpos n) in *. assert (0 < k) by (subst k; apply Z.pow_pos_nonneg; lia).
    split.
    + rewrite M3, M2, M1, !Z.div_div by lia. f_equal. lia.
    + intros q Hq Hr Hs.
      destruct (E1 (q * k * k)) as [R1 S1]; [rewrite Hq; ring | assumption | assumption |].
      assert (Q1 : shr_m (shr_1 mrs) = q * k * k).
      { rewrite M1, Hq. replace (q * (2 * k * k)) with (q * k * k * 2) by ring.
        apply Z.div_mul. lia. }
      destruct (E2 (q * k)) as [R2 S2]; [exact Q1 | assumption | assumption |].
      apply (E3 q); [|assumption|assumption].
      rewrite M2, Q1. apply Z.div_mul. lia.
  - destruct (IH _ H) as [M2 E2].
    assert (H2 : 0 <= shr_m (SpecFloat.iter_pos shr_1 n mrs))
      by (rewrite M2; apply Z.div_pos; lia).
    destruct (IH _ H2) as [M3 E3].
    rewrite (Pos2Z.inj_xO n).
    replace (2 * Zpos n) with (Zpos n + Zpos n) by lia.
    rewrite !Z.pow_add_r by lia.
    set (k := 2 ^ Zpos n) in *. assert (0 < k) by (subst k; apply Z.pow_pos_nonneg; lia).
    split.
    + rewrite M3, M2, !Z.div_div by lia. reflexivity.
    + intros q Hq Hr Hs.
      destruct (E2 (q * k)) as [R2 S2]; [rewrite Hq; ring | assumption | assumption |].
      apply (E3 q); [|assumption|assumption].
      rewrite M2, Hq. replace (q * (k * k)) with (q * k * k) by ring.
      apply Z.div_mul. lia.
  - change (2 ^ 1) with 2. apply shr_1_spec, H.
Qed.

Lemma round_nearest_even_bounds (mrs : shr_record) :
  shr_m mrs <= round_nearest_even (shr_m mrs) (loc_of_shr_record mrs) <= shr_m mrs + 1
  /\ (shr_r mrs = false ->
      round_nearest_even (shr_m mrs) (loc_of_shr_record mrs) = shr_m mrs).
Proof.
  destruct mrs as [m [|] [|]]; cbn [shr_m shr_r loc_of_shr_record round_nearest_even];
    try (destruct (Z.even m)); split; try lia; try reflexivity; discriminate.
Qed.

(** The exponent of the grid a value is rounded to, and the shifted
    mantissa, with the round and sticky bits clear when the shift is exact. *)
Lemma shr_fexp_spec (m e : Z) :
  0 <= m ->
  exists mrs,
    shr_fexp 53 1024 m e loc_Exact
    = (mrs, Z.max e (fexp 53 1024 (Zdigits2 m + e)))
    /\ shr_m mrs = m / 2 ^ (Z.max e (fexp 53 1024 (Zdigits2 m + e)) - e)
    /\ (forall q, m = q * 2 ^ (Z.max e (fexp 53 1024 (Zdigits2 m + e)) - e) ->
        shr_r mrs = false).
Proof.
  intros H. unfold shr_fexp, shr. cbn [shr_record_of_loc].
  set (g := fexp 53 1024 (Zdigits2 m + e)).
  destruct (g - e) as [|n|n] eqn:E.
  - replace (Z.max e g) with e by lia. rewrite Z.sub_diag.
    eexists. split; [reflexivity|]. cbn [shr_m shr_r]. split; [now rewrite Z.div_1_r|easy].
  - replace (Z.max e g) with (e + Zpos n) by lia.
    replace (e + Zpos n - e) with (Zpos n) by lia.
    destruct (iter_shr_1_spec n {| shr_m := m; shr_r := false; shr_s := false |} H)
      as [M R].
    eexists. split; [reflexivity|]. split; [exact M|].
    intros q Hq. now destruct (R q Hq eq_refl eq_refl).
  - replace (Z.max e g) with e by lia. rewrite Z.sub_diag.
    eexists. split; [reflexivity|]. cbn [shr_m shr_r]. split; [now rewrite Z.div_1_r|easy].
Qed.

(** Rounding a positive mantissa: the first shift and rounding give [mr] on
    the grid [g1], a second shift takes care of a carry. *)
Lemma binary_round_aux_spec (M E : Z) :
  0 < M ->
  exists mr,
    let g1 := Z.max E (fexp 53 1024 (Zdigits2 M + E)) in
    let g2 := Z.max g1 (fexp 53 1024 (Zdigits2 mr + g1)) in
    M / 2 ^ (g1 - E) <= mr <= M / 2 ^ (g1 - E) + 1
    /\ (forall q, M = q * 2 ^ (g1 - E) -> mr = q)
    /\ binary_round_aux 53 1024 false M E loc_Exact = buildFloat (mr / 2 ^ (g2 - g1)) g2.
Proof.
  intros HM. unfold binary_round_aux.
  destruct (shr_fexp_spec M E) as (mrs1 & -> & M1 & R1); [lia|].
  set (g1 := Z.max E (fexp 53 1024 (Zdigits2 M + E))) in *.
  destruct (round_nearest_even_bounds mrs1) as [B1 X1].
  set (mr := round_nearest_even (shr_m mrs1) (loc_of_shr_record mrs1)) in *.
  assert (Hmr : 0 <= mr).
  { rewrite M1 in B1. assert (0 <= M / 2 ^ (g1 - E)) by (apply Z.div_pos; [lia|];
      apply Z.pow_pos_nonneg; lia). lia. }
  destruct (shr_fexp_spec mr g1 Hmr) as (mrs2 & -> & M2 & _).
  exists mr. cbn zeta. rewrite <- M1. split; [exact B1|]. split.
  - intros q Hq. rewrite (X1 (R1 q Hq)), M1, Hq. apply Z.div_mul.
    apply Z.pow_nonzero; lia.
  - rewrite M2. unfold buildFloat. reflexivity.
Qed.

Lemma fexp_le (x k : Z) : x <= k -> fexp 53 1024 x <= Z.max (k - 53) (-1074).
Proof. unfold fexp, emin. lia. Qed.

Lemma fexp_ge (x k : Z) : k <= x -> k - 53 <= fexp 53 1024 x.
Proof. unfold fexp, emin. lia. Qed.

Lemma pow2_pos (a : Z) : 0 <= a -> 0 < 2 ^ a.
Proof. intros H. apply Z.pow_pos_nonneg; lia. Qed.

Lemma pow2_shift (k a : Z) : 0 <= k -> 0 <= a -> 2 ^ (k + a) = 2 ^ k * 2 ^ a.
Proof. intros H1 H2. apply Z.pow_add_r; lia. Qed.

(** Rounding keeps a value between two integers below 4096, on a grid of
    exponent -41 at most. *)
Lemma round_between (M E lo hi : Z) :
  0 < M -> E <= -41 -> 0 <= lo -> hi < 4096 ->
  lo * 2 ^ (- E) <= M <= hi * 2 ^ (- E) ->
  (lo = 0 /\ binary_round_aux 53 1024 false M E loc_Exact = S754_zero false)
  \/ exists m e,
       binary_round_aux 53 1024 false M E loc_Exact = S754_finite false m e
       /\ E <= e <= -41
       /\ lo * 2 ^ (- e) <= Zpos m <= hi * 2 ^ (- e)
       /\ (forall k, 0 <= k -> 2 ^ k <= lo -> k - 52 <= e).
Proof.
  intros HM HE Hlo Hhi [HL HH].
  destruct (binary_round_aux_spec M E HM) as (mr & B & X & ->). cbn zeta in *.
  set (g1 := Z.max E (fexp 53 1024 (Zdigits2 M + E))) in *.
  assert (P12 : 2 ^ 12 = 4096) by reflexivity.
  assert (HdM : Zdigits2 M + E <= 12).
  { destruct M as [|M|M]; try lia.
    assert (Zdigits2 (Zpos M) <= 12 - E); [|lia].
    apply Zdigits2_le; [lia|]. replace (12 - E) with (12 + - E) by lia.
    rewrite pow2_shift, P12 by lia. pose proof (pow2_pos (- E)). nia. }
  assert (Hg1 : E <= g1 <= -41).
  { pose proof (fexp_le _ _ HdM). subst g1. lia. }
  assert (S1 : 2 ^ (- E) = 2 ^ (- g1) * 2 ^ (g1 - E)).
  { rewrite <- Z.pow_add_r by lia. f_equal. lia. }
  pose proof (pow2_pos (g1 - E)) as Pp. pose proof (pow2_pos (- g1)) as Pg.
  set (p := 2 ^ (g1 - E)) in *. set (u := 2 ^ (- g1)) in *.
  assert (Hup : mr <= hi * u).
  { assert (Hm1 : M / p <= hi * u) by (apply Z.div_le_upper_bound; nia).
    destruct (Z.eq_dec (M / p) (hi * u)) as [Eq|Ne]; [|lia].
    assert (M = hi * u * p).
    { pose proof (Z.mul_div_le M p). nia. }
    rewrite (X (hi * u)); [lia | assumption]. }
  assert (Hlow : lo * u <= mr).
  { assert (lo * u <= M / p) by (apply Z.div_le_lower_bound; nia). lia. }
  set (g2 := Z.max g1 (fexp 53 1024 (Zdigits2 mr + g1))).
  assert (Hmr : 0 <= mr) by nia.
  assert (Hg2 : g1 <= g2 <= -41).
  { destruct mr as [|mr|mr]; try lia.
    - subst g2. cbn [Zdigits2]. pose proof (fexp_le (0 + g1) 12). lia.
    - assert (Zdigits2 (Zpos mr) <= 12 - g1).
      { apply Zdigits2_le; [lia|]. replace (12 - g1) with (12 + - g1) by lia.
        rewrite pow2_shift, P12 by lia. fold u. nia. }
      pose proof (fexp_le (Zdigits2 (Zpos mr) + g1) 12). subst g2. lia. }
  assert (S2 : u = 2 ^ (- g2) * 2 ^ (g2 - g1)).
  { subst u. rewrite <- Z.pow_add_r by lia. f_equal. lia. }
  pose proof (pow2_pos (g2 - g1)) as Pp2. pose proof (pow2_pos (- g2)) as Pg2.
  set (p2 := 2 ^ (g2 - g1)) in *. set (u2 := 2 ^ (- g2)) in *.
  assert (Hup2 : mr / p2 <= hi * u2) by (apply Z.div_le_upper_bound; nia).
  assert (Hlow2 : lo * u2 <= mr / p2) by (apply Z.div_le_lower_bound; nia).
  destruct (mr / p2) as [|m|m] eqn:Em.
  - left. split; [nia | reflexivity].
  - right. exists m, g2. unfold buildFloat.
    replace (g2 <=? 971) with true by lia.
    split; [reflexivity|]. split; [lia|]. split; [lia|].
    intros k Hk Hpk.
    assert (k < Zdigits2 mr + g1).
    { destruct mr as [|mr|mr]; try nia.
      assert (k - g1 < Zdigits2 (Zpos mr)); [|lia].
      apply Zdigits2_ge. replace (k - g1) with (k + - g1) by lia.
      rewrite pow2_shift by lia. fold u. nia. }
    pose proof (fexp_ge (Zdigits2 mr + g1) (k + 1)). subst g2. lia.
  - exfalso. assert (0 <= mr / p2) by (apply Z.div_pos; lia). lia.
Qed.

Lemma iter_xO (m d : positive) : Zpos (Pos.iter xO m d) = Zpos m * 2 ^ Zpos d.
Proof.
  induction d as [|d IH] using Pos.peano_ind.
  - cbn [Pos.iter]. rewrite Pos2Z.inj_xO. change (2 ^ 1) with 2. lia.
  - rewrite Pos.iter_succ, Pos2Z.inj_xO, IH, Pos2Z.inj_succ, Z.pow_succ_r by lia. lia.
Qed.

(** Aligning lowers the exponent and keeps the value. *)
Lemma shl_align_spec (mx : positive) (ex ex' : Z) :
  exists mz,
    shl_align mx ex ex' = (mz, Z.min ex ex')
    /\ Zpos mz = Zpos mx * 2 ^ (ex - Z.min ex ex').
Proof.
  unfold shl_align. destruct (ex' - ex) as [|d|d] eqn:E.
  - replace (Z.min ex ex') with ex by lia. rewrite Z.sub_diag.
    exists mx. split; [reflexivity | lia].
  - replace (Z.min ex ex') with ex by lia. rewrite Z.sub_diag.
    exists mx. split; [reflexivity | lia].
  - replace (Z.min ex ex') with ex' by lia. replace (ex - ex') with (Zpos d) by lia.
    eexists. split; [reflexivity | apply iter_xO].
Qed.

(** The constants of the delay expression as binary64 values. *)
Lemma number_0 : number 0 = S754_zero false.
Proof. vm_compute. reflexivity. Qed.

Lemma number_1 : number 1 = S754_finite false 4503599627370496 (-52).
Proof. vm_compute. reflexivity. Qed.

Lemma number_800 : number 800 = S754_finite false 7036874417766400 (-43).
Proof. vm_compute. reflexivity. Qed.

Lemma number_1500 : number 1500 = S754_finite false 6597069766656000 (-42).
Proof. vm_compute. reflexivity. Qed.

Lemma number_2300 : number 2300 = S754_finite false 5057753487769600 (-41).
Proof. vm_compute. reflexivity. Qed.

(** A canonical mantissa has at most 53 bits, exactly 53 at exponent -52. *)
Lemma canonical_digits (m : positive) (e : Z) :
  valid_binary 53 1024 (S754_finite false m e) = true ->
  Zpos (digits2_pos m) <= 53 /\ (e = -52 -> Zpos (digits2_pos m) = 53).
Proof.
  intros Hv. cbn [valid_binary] in Hv. unfold bounded, canonical_mantissa in Hv.
  apply andb_true_iff in Hv as [Hc _]. apply Z.eqb_eq in Hc.
  unfold fexp, emin in Hc. lia.
Qed.

Lemma SFltb_finite (m q : positive) (e e' : Z) :
  SFltb (S754_finite false m e) (S754_finite false q e') = true ->
  e < e' \/ (e = e' /\ Zpos m < Zpos q).
Proof.
  unfold SFltb, SFcompare. intros H1.
  destruct (e ?= e') eqn:E.
  - apply Z.compare_eq_iff in E. right. split; [exact E|].
    rewrite Pos.compare_cont_spec in H1. unfold Pos.switch_Eq in H1.
    destruct (m ?= q)%positive eqn:Cmp;
      [discriminate H1 | | discriminate H1].
    now apply Pos.compare_lt_iff, Pos2Z.pos_lt_pos in Cmp.
  - apply Z.compare_lt_iff in E. now left.
  - discriminate H1.
Qed.

(** What a value of [Math.random] looks like. *)
Lemma isRandom_cases (r : spec_float) :
  isRandom r ->
  (exists s, r = S754_zero s)
  \/ exists m e, r = S754_finite false m e /\ e <= -53 /\ Zpos m < 2 ^ (- e).
Proof.
  intros (Hv & H0 & H1).
  rewrite number_0 in H0. rewrite number_1 in H1.
  destruct r as [s|s| |s m e]; [left; now exists s | | vm_compute in H1; discriminate H1 |].
  - destruct s; [vm_compute in H0; discriminate H0 | vm_compute in H1; discriminate H1].
  - destruct s; [vm_compute in H0; discriminate H0|]. right. exists m, e. split; [reflexivity|].
    apply canonical_digits in Hv as [Hd Hd'].
    pose proof (digits2_pos_bounds m) as [D1 D2].
    set (d := Zpos (digits2_pos m)) in *.
    assert (He : e <= -53).
    { apply SFltb_finite in H1 as [H1|[H1 H2]]; [lia|]. exfalso.
      specialize (Hd' H1).
      assert (P : 2 ^ (d - 1) = 4503599627370496)
        by (rewrite Hd'; vm_compute; reflexivity).
      rewrite P in D1. clear - D1 H2. lia. }
    split; [exact He|].
    assert (2 ^ d <= 2 ^ (- e)) by (apply Z.pow_le_mono_r; lia). lia.
Qed.

(** Comparing two positive finite values. *)
Lemma SFleb_same_exponent (m1 m2 : positive) (e : Z) :
  Zpos m1 <= Zpos m2 ->
  SFleb (S754_finite false m1 e) (S754_finite false m2 e) = true.
Proof.
  intros H. unfold SFleb, SFcompare. rewrite Z.compare_refl, Pos.compare_cont_spec.
  unfold Pos.switch_Eq. destruct (m1 ?= m2)%positive eqn:Cmp; [reflexivity | reflexivity |].
  apply Pos.compare_gt_iff, Pos2Z.pos_lt_pos in Cmp. lia.
Qed.

Lemma SFleb_lower_exponent (m1 m2 : positive) (e1 e2 : Z) :
  e1 < e2 ->
  SFleb (S754_finite false m1 e1) (S754_finite false m2 e2) = true.
Proof.
  intros H. unfold SFleb, SFcompare.
  apply Z.compare_lt_iff in H. now rewrite H.
Qed.

Lemma SFleb_between (m : positive) (e : Z) :
  -43 <= e <= -41 ->
  800 * 2 ^ (- e) <= Zpos m <= 2300 * 2 ^ (- e) ->
  SFleb (number 800) (S754_finite false m e) = true
  /\ SFleb (S754_finite false m e) (number 2300) = true.
Proof.
  intros He Hm. rewrite number_800, number_2300.
  assert (P43 : 2 ^ 43 = 8796093022208) by (vm_compute; reflexivity).
  assert (P41 : 2 ^ 41 = 2199023255552) by (vm_compute; reflexivity).
  assert (E : e = -43 \/ e = -42 \/ e = -41) by lia.
  destruct E as [-> | [-> | ->]]; split.
  - apply SFleb_same_exponent. change (- -43) with 43 in Hm. rewrite P43 in Hm. lia.
  - apply SFleb_lower_exponent. lia.
  - apply SFleb_lower_exponent. lia.
  - apply SFleb_lower_exponent. lia.
  - apply SFleb_lower_exponent. lia.
  - apply SFleb_same_exponent. change (- -41) with 41 in Hm. rewrite P41 in Hm. lia.
Qed.
(** [random * 1500] is zero, or a value of at most 1500 on a grid of exponent
    -41 at most. *)
Lemma product_range (m : positive) (e : Z) :
  e <= -53 -> Zpos m < 2 ^ (- e) ->
  SFmul 53 1024 (S754_finite false m e) (number 1500) = S754_zero false
  \/ exists mp ep,
       SFmul 53 1024 (S754_finite false m e) (number 1500) = S754_finite false mp ep
       /\ ep <= -41 /\ Zpos mp <= 1500 * 2 ^ (- ep).
Proof.
  intros He Hm. rewrite number_1500. cbn [SFmul xorb].
  assert (P42 : 2 ^ 42 = 4398046511104) by (vm_compute; reflexivity).
  assert (HX : 0 < 2 ^ (- e)) by (apply pow2_pos; lia).
  assert (HE : 2 ^ (- (e + -42)) = 4398046511104 * 2 ^ (- e)).
  { replace (- (e + -42)) with (42 + - e) by lia.
    rewrite pow2_shift, P42 by lia. reflexivity. }
  destruct (round_between (Zpos (m * 6597069766656000)) (e + -42) 0 1500)
    as [[_ Hz]|(mp & ep & Hr & Hep & Hmp & _)].
  - apply Pos2Z.is_pos.
  - lia.
  - lia.
  - lia.
  - rewrite HE, Pos2Z.inj_mul. lia.
  - left. exact Hz.
  - right. exists mp, ep. split; [exact Hr|]. split; lia.
Qed.

(** Adding such a value to 800 gives a value between 800 and 2300. *)
Lemma sum_range (mp : positive) (ep : Z) :
  ep <= -41 -> Zpos mp <= 1500 * 2 ^ (- ep) ->
  exists ms es,
    SFadd 53 1024 (number 800) (S754_finite false mp ep) = S754_finite false ms es
    /\ -43 <= es <= -41
    /\ 800 * 2 ^ (- es) <= Zpos ms <= 2300 * 2 ^ (- es).
Proof.
  intros Hep Hmp. rewrite number_800. cbn [SFadd cond_Zopp].
  set (ez := Z.min (-43) ep).
  destruct (shl_align_spec 7036874417766400 (-43) ez) as (a & Ea & Ha).
  destruct (shl_align_spec mp ep ez) as (b & Eb & Hb).
  replace (Z.min (-43) ez) with ez in * by lia.
  replace (Z.min ep ez) with ez in * by lia.
  rewrite Ea, Eb. cbn [fst].
  change (Zpos a + Zpos b) with (Zpos (a + b)).
  cbn [binary_normalize]. unfold binary_round.
  destruct (shl_align_spec (a + b) ez (fexp 53 1024 (Zpos (digits2_pos (a + b)) + ez)))
    as (c & Ec & Hc).
  rewrite Ec.
  set (ec := Z.min ez (fexp 53 1024 (Zpos (digits2_pos (a + b)) + ez))) in *.
  assert (P43 : 2 ^ 43 = 8796093022208) by (vm_compute; reflexivity).
  assert (P9 : 2 ^ 9 = 512) by (vm_compute; reflexivity).
  assert (HA : 0 < 2 ^ (-43 - ez)) by (apply pow2_pos; lia).
  assert (HB : 0 < 2 ^ (ez - ec)) by (apply pow2_pos; lia).
  assert (HC : 0 < 2 ^ (ep - ez)) by (apply pow2_pos; lia).
  assert (HD : 0 < 2 ^ (- ep)) by (apply pow2_pos; lia).
  assert (K1 : 2 ^ (- ec) = 8796093022208 * 2 ^ (-43 - ez) * 2 ^ (ez - ec)).
  { replace (- ec) with (43 + (-43 - ez) + (ez - ec)) by lia.
    rewrite !pow2_shift, P43 by lia. reflexivity. }
  assert (K2 : 2 ^ (- ec) = 2 ^ (- ep) * 2 ^ (ep - ez) * 2 ^ (ez - ec)).
  { replace (- ec) with (- ep + (ep - ez) + (ez - ec)) by lia.
    rewrite !pow2_shift by lia. reflexivity. }
  rewrite Pos2Z.inj_add, Ha, Hb in Hc.
  assert (L1 : 0 <= Zpos mp * 2 ^ (ep - ez) * 2 ^ (ez - ec)).
  { apply Z.mul_nonneg_nonneg; [apply Z.mul_nonneg_nonneg|]; lia. }
  assert (L2 : Zpos mp * 2 ^ (ep - ez) * 2 ^ (ez - ec)
               <= 1500 * 2 ^ (- ep) * 2 ^ (ep - ez) * 2 ^ (ez - ec)).
  { apply Z.mul_le_mono_nonneg_r; [lia|]. apply Z.mul_le_mono_nonneg_r; lia. }
  destruct (round_between (Zpos c) ec 800 2300)
    as [[Hlo _]|(ms & es & Hr & Hes & Hms & Hk)].
  - apply Pos2Z.is_pos.
  - lia.
  - lia.
  - lia.
  - rewrite K1 at 1. rewrite K2, Hc.
    generalize dependent (2 ^ (-43 - ez)). generalize dependent (2 ^ (ez - ec)).
    generalize dependent (2 ^ (ep - ez)). generalize dependent (2 ^ (- ep)).
    intros. lia.
  - discriminate Hlo.
  - exists ms, es. split; [exact Hr|]. split; [|exact Hms].
    specialize (Hk 9). lia.
Qed.

(** C9, as the code has it.  The delay that [simulateAssistantResponse]
    waits for is the binary64 value of [800 + random * 1500]; whenever
    [random] is a binary64 value with 0 <= random < 1, that delay is at least
    800 and at most 2300. *)
Theorem delay_range (toLowerCase : jsstring -> jsstring) (random : spec_float)
    (userMessage : jsstring) :
  isRandom random ->
  delay (simulateAssistantResponse toLowerCase random userMessage)
  = SFadd 53 1024 (number 800) (SFmul 53 1024 random (number 1500))
  /\ SFleb (number 800)
       (delay (simulateAssistantResponse toLowerCase random userMessage)) = true
  /\ SFleb (delay (simulateAssistantResponse toLowerCase random userMessage))
       (number 2300) = true.
Proof.
  intros Hr. split; [reflexivity|].
  cbn [simulateAssistantResponse delay]. unfold delayOf.
  destruct (isRandom_cases random Hr) as [[s ->]|(m & e & -> & He & Hm)].
  - rewrite number_1500. cbn [SFmul]. rewrite number_800. cbn [SFadd].
    rewrite number_2300. split; vm_compute; reflexivity.
  - destruct (product_range m e He Hm) as [->|(mp & ep & -> & Hep & Hmp)].
    + rewrite number_800. cbn [SFadd]. rewrite number_2300. split; vm_compute; reflexivity.
    + destruct (sum_range mp ep Hep Hmp) as (ms & es & -> & Hes & Hms).
      apply SFleb_between; assumption.
Qed.

(** At [random] = 0.5 the delay is 1550. *)
Lemma delay_range_witness :
  isRandom (S754_finite false 4503599627370496 (-53))
  /\ delay (simulateAssistantResponse asciiLowerCase
              (S754_finite false 4503599627370496 (-53)) (js "hi"))
     = number 1550
  /\ SFleb (number 800)
       (delay (simulateAssistantResponse asciiLowerCase
                 (S754_finite false 4503599627370496 (-53)) (js "hi"))) = true
  /\ SFleb (delay (simulateAssistantResponse asciiLowerCase
                     (S754_finite false 4503599627370496 (-53)) (js "hi")))
       (number 2300) = true.
Proof.
  assert (H : isRandom (S754_finite false 4503599627370496 (-53)))
    by (repeat split; vm_compute; reflexivity).
  split; [exact H|]. split; [vm_compute; reflexivity|].
  exact (proj2 (delay_range asciiLowerCase _ (js "hi") H)).
Defined.

(** The upper end is reached: at [random] = 1 - 2^-52, the largest value
    below 1 with 52 fraction bits, the product [random * 1500] is
    1500 - 1500 * 2^-52, and the sum with 800 rounds to 2300 itself. *)
Lemma delay_reaches_2300 :
  isRandom (S754_finite false 9007199254740990 (-53))
  /\ delay (simulateAssistantResponse asciiLowerCase
              (S754_finite false 9007199254740990 (-53)) (js "hi"))
     = number 2300
  /\ SFltb (delay (simulateAssistantResponse asciiLowerCase
                     (S754_finite false 9007199254740990 (-53)) (js "hi")))
       (number 2300) = false.
Proof.
  split; [repeat split; vm_compute; reflexivity|].
  split; vm_compute; reflexivity.
Qed.

Local Close Scope Z_scope.

(** ** The handlers, step by step *)

(** Clearing while a response is awaited: the Clear button is not disabled
    by the typing flag, so the response that arrives afterwards is appended
    to the emptied history and written under the key again. *)
Theorem response_after_clear_is_saved (toLowerCase : jsstring -> jsstring)
        (clock : Clock) (p : Pending) (response : jsstring) (st : ChatApp) :
  pending st = [p] -> settlement p = Fulfilled response ->
  messages (step toLowerCase (Settle clock) (step toLowerCase ClickClear st))
  = [{| id := Z_toString (dateNow clock + 1); role := assistant;
        content := response; timestamp := newDate clock |}]
  /\ localStorage (step toLowerCase (Settle clock) (step toLowerCase ClickClear st))
     !! storageKey
     = Some (stringifyMessages
               [{| id := Z_toString (dateNow clock + 1); role := assistant;
                   content := response; timestamp := newDate clock |}]).
Proof.
  intros Hp Hs. cbn [step]. unfold clearChat.
  rewrite saveEffect_pending. cbn [pending]. rewrite Hp, Hs.
  unfold handleSendMessage_resume.
  rewrite saveEffect_messages, saveEffect_storage. cbn [messages].
  rewrite saveEffect_messages. cbn [messages app]. split; reflexivity.
Qed.

Lemma response_after_clear_is_saved_witness :
  map role
    (messages
       (step asciiLowerCase (Settle (mkClock 3 3))
          (step asciiLowerCase ClickClear
             (handleSendMessage asciiLowerCase (mkClock 1 2) (number 0)
                {| messages := []; inputValue := js "hi"; isTyping := false;
                   localStorage := ∅; pending := []; consoleErrors := [] |}))))
  = [assistant].
Proof.
  exact (f_equal (map role)
           (proj1 (response_after_clear_is_saved asciiLowerCase (mkClock 3 3)
                     (simulateAssistantResponse asciiLowerCase (number 0) (js "hi"))
                     (responseText asciiLowerCase (js "hi"))
                     (handleSendMessage asciiLowerCase (mkClock 1 2) (number 0)
                        {| messages := []; inputValue := js "hi"; isTyping := false;
                           localStorage := ∅; pending := []; consoleErrors := [] |})
                     eq_refl eq_refl))).
Defined.

(** ** Saving and loading, for any history *)

(** Whatever the messages, as long as their timestamps are time values a
    [Date] can hold: over a storage whose entry is what the save effect
    writes for them (page.tsx, line 163), the load effect (lines 150-156)
    hands the same messages to [setMessages]. *)
Theorem load_inverts_save (ms : list Message) :
  Forall (fun m => validTime (timestamp m)) ms ->
  loadEffect {[ storageKey := stringifyMessages ms ]} = SetMessages (Restored ms).
Proof.
  intros H. apply loadEffect_stringifyMessages; [apply lookup_singleton_eq | exact H].
Qed.

Lemma load_inverts_save_witness :
  loadEffect
    {[ storageKey :=
         stringifyMessages
           [{| id := js "1700000000000"; role := user; content := js "say \hi/";
               timestamp := 1700000000001%Z |}] ]}
  = SetMessages
      (Restored [{| id := js "1700000000000"; role := user; content := js "say \hi/";
                    timestamp := 1700000000001%Z |}]).
Proof.
  apply (load_inverts_save
           [{| id := js "1700000000000"; role := user; content := js "say \hi/";
               timestamp := 1700000000001%Z |}]).
  repeat constructor; cbn; unfold validTime, maxTime; lia.
Defined.

(** A timestamp survives its serialization: [new Date(d.toISOString())]
    (page.tsx, line 154, on what line 163 wrote) has the time value of [d],
    for every time value a [Date] can hold. *)
Theorem timestamp_survives_serialization (t : Z) :
  validTime t -> Date_parse (toISOString t) = Some t.
Proof. apply Date_parse_toISOString. Qed.

Lemma timestamp_survives_serialization_witness :
  toISOString 1700000000001 = js "2023-11-14T22:13:20.001Z"
  /\ Date_parse (toISOString 1700000000001) = Some 1700000000001%Z.
Proof.
  split; [vm_compute; reflexivity|].
  apply (timestamp_survives_serialization 1700000000001).
  unfold validTime, maxTime. lia.
Defined.

(** * More of the page *)

(** ** Keywords that can never decide *)

Lemma select_rank_le (message : jsstring) (c : Category) :
  matchesCategory message c = true ->
  (rank (spec_selectCategory message) <= rank c)%nat.
Proof.
  intros H. unfold spec_selectCategory, priority. cbn [find].
  destruct (matchesCategory message Programming) eqn:E1; [cbn; lia|].
  destruct (matchesCategory message MathScience) eqn:E2;
    [destruct c; cbn; first [lia | congruence]|].
  destruct (matchesCategory message BusinessStrategy) eqn:E3;
    [destruct c; cbn; first [lia | congruence]|].
  destruct (matchesCategory message AITechnology) eqn:E4;
    [destruct c; cbn; first [lia | congruence]|].
  destruct (matchesCategory message Explanatory) eqn:E5;
    [destruct c; cbn; first [lia | congruence]|].
  destruct (matchesCategory message DesignCreative) eqn:E6;
    [destruct c; cbn; first [lia | congruence]|].
  destruct c; cbn; first [lia | congruence | discriminate H].
Qed.

(** A text that has [a ++ k ++ b] in it has [k] in it. *)
Lemma includes_part (s a k b : jsstring) :
  includes s (a ++ k ++ b) = true -> includes s k = true.
Proof.
  intros H. apply includes_spec in H as (x & y & ->).
  rewrite <- !app_assoc. rewrite (app_assoc x a).
  apply includes_middle.
Qed.

(** The keyword explain of the Explanatory category never decides: a text
    with explain in it has ai in it, and AI/Technology is tested first. So
    such a text gets the template of one of the first four categories, never
    the Explanatory one. *)
Theorem explain_is_shadowed (toLowerCase : jsstring -> jsstring) (userMessage : jsstring) :
  includes (toLowerCase userMessage) (js "explain") = true ->
  (rank (spec_selectCategory (toLowerCase userMessage)) <= rank AITechnology)%nat
  /\ responseText toLowerCase userMessage
     = template (spec_selectCategory (toLowerCase userMessage)) userMessage
  /\ responseText toLowerCase userMessage <> explanatoryTemplate userMessage.
Proof.
  intros H.
  assert (Hai : includes (toLowerCase userMessage) (js "ai") = true)
    by exact (includes_part _ (js "expl") (js "ai") (js "n") H).
  assert (Hm : matchesCategory (toLowerCase userMessage) AITechnology = true)
    by (unfold matchesCategory; cbn [keywords existsb]; now rewrite Hai).
  pose proof (select_rank_le _ _ Hm) as Hr.
  split; [exact Hr|]. split; [apply responseText_select|].
  rewrite responseText_select. intros E.
  apply (template_inj _ Explanatory) in E. rewrite E in Hr. cbn in Hr. lia.
Qed.

Lemma explain_is_shadowed_witness :
  responseText asciiLowerCase (js "Explain recursion")
  = aiTechnologyTemplate (js "Explain recursion")
  /\ responseText asciiLowerCase (js "Explain recursion")
     <> explanatoryTemplate (js "Explain recursion").
Proof.
  destruct (explain_is_shadowed asciiLowerCase (js "Explain recursion"))
    as (_ & H & Hne); [vm_compute; reflexivity|].
  split; [|exact Hne].
  rewrite H.
  replace (spec_selectCategory (asciiLowerCase (js "Explain recursion")))
    with AITechnology by (vm_compute; reflexivity).
  reflexivity.
Defined.

(** ** What [trim] removes *)

Lemma trimStart_split (s : jsstring) :
  exists a, s = a ++ trimStart s /\ forallb isWhiteSpace a = true.
Proof.
  induction s as [|c s (a & E & Ha)]; [now exists []|].
  cbn [trimStart]. destruct (isWhiteSpace c) eqn:Ec.
  - exists (c :: a). cbn [app forallb]. rewrite Ec, Ha. split; [now f_equal | reflexivity].
  - now exists [].
Qed.

Lemma forallb_rev_whitespace (a : jsstring) :
  forallb isWhiteSpace a = true -> forallb isWhiteSpace (rev a) = true.
Proof.
  intros H. apply forallb_forall. intros x Hx. apply in_rev in Hx.
  exact (proj1 (forallb_forall _ _) H x Hx).
Qed.

Lemma trimEnd_split (s : jsstring) :
  exists b, s = trimEnd s ++ b /\ forallb isWhiteSpace b = true.
Proof.
  unfold trimEnd. destruct (trimStart_split (rev s)) as (a & E & Ha).
  exists (rev a). split; [|now apply forallb_rev_whitespace].
  rewrite <- rev_app_distr, <- E. now rewrite rev_involutive.
Qed.

Lemma trimEnd_last (s r : jsstring) (c : N) :
  trimEnd s = r ++ [c] -> isWhiteSpace c = false.
Proof.
  unfold trimEnd. intros H. apply (f_equal (@rev N)) in H.
  rewrite rev_involutive, rev_app_distr in H. cbn in H.
  exact (trimStart_head _ _ _ H).
Qed.

(** [trim] takes white space, and nothing else, from the two ends. *)
Lemma trim_spec (s : jsstring) :
  exists a b,
    s = a ++ trim s ++ b
    /\ forallb isWhiteSpace a = true /\ forallb isWhiteSpace b = true
    /\ (forall c r, trim s = c :: r -> isWhiteSpace c = false)
    /\ (forall c r, trim s = r ++ [c] -> isWhiteSpace c = false).
Proof.
  destruct (trimStart_split s) as (a & Ea & Ha).
  destruct (trimEnd_split (trimStart s)) as (b & Eb & Hb).
  exists a, b. unfold trim. split; [now rewrite <- Eb|].
  split; [exact Ha|]. split; [exact Hb|]. split.
  - intros c r E. rewrite E in Eb. cbn in Eb. exact (trimStart_head _ _ _ Eb).
  - intros c r E. exact (trimEnd_last _ _ _ E).
Qed.

(** What is sent is the input without the white space at its two ends
    (page.tsx, lines 536-545): the message appended has a content that is
    not empty, that neither starts nor ends with white space, and the input
    is that content between two runs of white space. *)
Theorem sent_content_is_trimmed (toLowerCase : jsstring -> jsstring) (clock : Clock)
        (random : spec_float) (st : ChatApp) :
  truthy (trim (inputValue st)) = true ->
  exists m a b,
    messages (handleSendMessage toLowerCase clock random st) = messages st ++ [m]
    /\ role m = user
    /\ inputValue st = a ++ content m ++ b
    /\ forallb isWhiteSpace a = true /\ forallb isWhiteSpace b = true
    /\ content m <> []
    /\ (forall c r, content m = c :: r -> isWhiteSpace c = false)
    /\ (forall c r, content m = r ++ [c] -> isWhiteSpace c = false).
Proof.
  intros H. destruct (trim_spec (inputValue st)) as (a & b & E & Ha & Hb & Hf & Hl).
  exists {| id := Z_toString (dateNow clock); role := user;
            content := trim (inputValue st); timestamp := newDate clock |}, a, b.
  cbn [content role]. split.
  - unfold handleSendMessage. rewrite H. cbn [negb]. now rewrite saveEffect_messages.
  - repeat split; try assumption. intros E'. now rewrite E' in H.
Qed.

Lemma sent_content_is_trimmed_witness :
  exists m a b,
    messages (handleSendMessage asciiLowerCase (mkClock 1 2) (number 0)
                {| messages := []; inputValue := js "  why  not "; isTyping := false;
                   localStorage := ∅; pending := []; consoleErrors := [] |})
    = [] ++ [m]
    /\ js "  why  not " = a ++ content m ++ b
    /\ content m <> [].
Proof.
  destruct (sent_content_is_trimmed asciiLowerCase (mkClock 1 2) (number 0)
              {| messages := []; inputValue := js "  why  not "; isTyping := false;
                 localStorage := ∅; pending := []; consoleErrors := [] |} eq_refl)
    as (m & a & b & Hm & _ & Hi & _ & _ & Hne & _).
  exists m, a, b. split; [exact Hm|]. split; [exact Hi | exact Hne].
Defined.

(** ** The controls *)

Lemma streq_eq (a b : jsstring) : streq a b = true <-> a = b.
Proof.
  revert b. induction a as [|c a IH]; intros [|d b]; cbn [streq]; split;
    try discriminate; try reflexivity.
  - intros H. apply andb_true_iff in H as [H1 H2].
    apply N.eqb_eq in H1. apply IH in H2. now subst.
  - intros H. injection H as -> ->. rewrite N.eqb_refl. now apply IH.
Qed.

(** Enter and the send button do the same in every state: the guard of the
    handler (page.tsx, line 536) and the [disabled] of the button (line 651)
    agree on a blank input, and both controls are disabled while a response
    is awaited. Any other key, and Enter with Shift, changes nothing. *)
Theorem enter_is_send (toLowerCase : jsstring -> jsstring) (clock : Clock)
        (random : spec_float) (st : ChatApp) :
  step toLowerCase (KeyPress (js "Enter") false clock random) st
  = step toLowerCase (ClickSend clock random) st
  /\ (forall key shiftKey,
        shiftKey = true \/ key <> js "Enter" ->
        step toLowerCase (KeyPress key shiftKey clock random) st = st).
Proof.
  split.
  - cbn [step]. unfold handleKeyPress.
    replace (streq (js "Enter") (js "Enter")) with true by (symmetry; now apply streq_eq).
    cbn [andb negb]. destruct (isTyping st); [now rewrite orb_true_r|].
    rewrite orb_false_r. unfold handleSendMessage.
    now destruct (negb (truthy (trim (inputValue st)))).
  - intros key shiftKey H. cbn [step]. unfold handleKeyPress.
    destruct (isTyping st); [reflexivity|].
    destruct H as [-> | H]; [now rewrite andb_false_r|].
    destruct (streq key (js "Enter")) eqn:E; [|reflexivity].
    apply streq_eq in E. contradiction.
Qed.

Lemma enter_is_send_witness :
  step asciiLowerCase (KeyPress (js "a") false (mkClock 1 2) (number 0))
    {| messages := []; inputValue := js "hi"; isTyping := false;
       localStorage := ∅; pending := []; consoleErrors := [] |}
  = {| messages := []; inputValue := js "hi"; isTyping := false;
       localStorage := ∅; pending := []; consoleErrors := [] |}.
Proof.
  apply (proj2 (enter_is_send asciiLowerCase (mkClock 1 2) (number 0) _)).
  right. discriminate.
Defined.

(** ** The storage *)





(** ** What holds in every state the page can reach *)

Ltac kept :=
  match goal with
  | IHc : consoleErrors ?st = [], IHp : Forall _ (pending ?st),
    IHi : _ -> inputValue ?st = [] |- _ =>
    split; [exact IHc|]; split; [exact IHp | intros; apply IHi; congruence]
  end.

(** Three facts that every event keeps: nothing was logged, what is awaited
    are fulfilled responses, and while one is awaited the input is empty. *)
Lemma reachable_quiet (toLowerCase : jsstring -> jsstring) (st : ChatApp) :
  reachable toLowerCase st ->
  consoleErrors st = []
  /\ Forall (fun p => exists text, settlement p = Fulfilled text) (pending st)
  /\ (isTyping st = true -> inputValue st = []).
Proof.
  induction 1 as [storage st Hm | e st Hr (IHc & IHp & IHi) Hv].
  - unfold mount in Hm.
    destruct (loadEffect storage) as [|[ms|l]|e]; inversion Hm; subst; clear Hm.
    + split; [reflexivity|]. split; [constructor | discriminate].
    + rewrite saveEffect_consoleErrors, saveEffect_pending, saveEffect_isTyping.
      split; [reflexivity|]. split; [constructor | discriminate].
  - assert (Hsend : forall clock random,
              truthy (trim (inputValue st)) = true ->
              consoleErrors (handleSendMessage toLowerCase clock random st) = []
              /\ Forall (fun p => exists text, settlement p = Fulfilled text)
                   (pending (handleSendMessage toLowerCase clock random st))
              /\ (isTyping (handleSendMessage toLowerCase clock random st) = true ->
                  inputValue (handleSendMessage toLowerCase clock random st) = [])).
    { intros clock random Ht. unfold handleSendMessage. rewrite Ht. cbn [negb].
      rewrite saveEffect_consoleErrors, saveEffect_pending, saveEffect_isTyping,
        saveEffect_inputValue.
      cbn [consoleErrors pending isTyping inputValue].
      split; [exact IHc|]. split; [|reflexivity].
      apply Forall_app. split; [exact IHp|]. constructor; [|constructor].
      eexists. reflexivity. }
    destruct e as [value|key shiftKey clock random|clock random| |clock]; cbn [step].
    + destruct (isTyping st) eqn:Et; [kept|].
      cbn [setInputValue consoleErrors pending isTyping inputValue].
      split; [exact IHc|]. split; [exact IHp | congruence].
    + destruct (isTyping st) eqn:Et; [kept|]. unfold handleKeyPress.
      destruct (streq key (js "Enter") && negb shiftKey); [|kept].
      destruct (truthy (trim (inputValue st))) eqn:Ht; [now apply Hsend|].
      unfold handleSendMessage. rewrite Ht. cbn [negb]. kept.
    + destruct (truthy (trim (inputValue st))) eqn:Ht; [|cbn [negb orb]; kept].
      cbn [negb orb]. destruct (isTyping st) eqn:Et; [kept | now apply Hsend].
    + unfold clearChat.
      rewrite saveEffect_consoleErrors, saveEffect_pending, saveEffect_isTyping,
        saveEffect_inputValue.
      cbn [consoleErrors pending isTyping inputValue].
      split; [exact IHc|]. split; [exact IHp | exact IHi].
    + destruct (pending st) as [|p ps] eqn:Ep;
        [split; [exact IHc|]; split; [rewrite Ep; constructor | exact IHi]|].
      apply Forall_cons_iff in IHp as [[text Hp] Hps].
      unfold handleSendMessage_resume. rewrite Hp.
      rewrite saveEffect_consoleErrors, saveEffect_pending, saveEffect_isTyping.
      cbn [consoleErrors pending isTyping].
      split; [exact IHc|]. split; [exact Hps | discriminate].
Qed.

(** While a response is awaited the input, disabled, is empty. So the
    handler, which has no test of the typing flag of its own, needs none on
    this page: called then, it returns at its first line whether or not the
    controls let the call through. *)
Theorem handler_rests_while_typing (toLowerCase : jsstring -> jsstring) (clock : Clock)
        (random : spec_float) (st : ChatApp) :
  reachable toLowerCase st -> isTyping st = true ->
  inputValue st = []
  /\ handleSendMessage toLowerCase clock random st = st.
Proof.
  intros Hr Ht. destruct (reachable_quiet _ _ Hr) as (_ & _ & Hi).
  split; [exact (Hi Ht)|]. unfold handleSendMessage. now rewrite (Hi Ht).
Qed.

Lemma handler_rests_while_typing_witness :
  handleSendMessage asciiLowerCase (mkClock 3 4) (number 0)
    (step asciiLowerCase (ClickSend (mkClock 1 2) (number 0))
       (step asciiLowerCase (Change (js "hi"))
          {| messages := []; inputValue := []; isTyping := false;
             localStorage := ∅; pending := []; consoleErrors := [] |}))
  = step asciiLowerCase (ClickSend (mkClock 1 2) (number 0))
      (step asciiLowerCase (Change (js "hi"))
         {| messages := []; inputValue := []; isTyping := false;
            localStorage := ∅; pending := []; consoleErrors := [] |}).
Proof.
  apply (handler_rests_while_typing asciiLowerCase).
  - apply reachable_step; [apply reachable_step|].
    + apply (reachable_mount _ ∅). reflexivity.
    + exact I.
    + split; [unfold validTime, maxTime; cbn; lia|]. repeat split; reflexivity.
  - vm_compute. reflexivity.
Defined.

(** ** Questions and their answers *)

Lemma conversation_step (toLowerCase : jsstring -> jsstring) (e : Event) (st : ChatApp) :
  conversation toLowerCase st ->
  (e = ClickClear -> isTyping st = false) ->
  conversation toLowerCase (step toLowerCase e st).
Proof.
  intros Hc Hclear.
  assert (Hsend : forall clock random,
            isTyping st = false -> truthy (trim (inputValue st)) = true ->
            conversation toLowerCase (handleSendMessage toLowerCase clock random st)).
  { intros clock random Et Ht. unfold conversation in *. rewrite Et in Hc.
    destruct Hc as [Hx Hp].
    unfold handleSendMessage. rewrite Ht. cbn [negb].
    rewrite saveEffect_isTyping, saveEffect_messages, saveEffect_pending.
    cbn [isTyping messages pending]. rewrite Hp.
    eexists (messages st), _, random. split; [exact Hx|]. split; [|split; reflexivity].
    reflexivity. }
  destruct e as [value|key shiftKey clock random|clock random| |clock]; cbn [step].
  - destruct (isTyping st) eqn:Et; [exact Hc|].
    unfold conversation in *. cbn [setInputValue isTyping messages pending].
    now rewrite Et in *.
  - destruct (isTyping st) eqn:Et; [exact Hc|]. unfold handleKeyPress.
    destruct (streq key (js "Enter") && negb shiftKey); [|exact Hc].
    destruct (truthy (trim (inputValue st))) eqn:Ht; [now apply Hsend|].
    unfold handleSendMessage. now rewrite Ht.
  - destruct (truthy (trim (inputValue st))) eqn:Ht; [|exact Hc].
    cbn [negb orb]. destruct (isTyping st) eqn:Et; [exact Hc | now apply Hsend].
  - specialize (Hclear eq_refl). unfold conversation in *. rewrite Hclear in Hc.
    destruct Hc as [_ Hp]. unfold clearChat.
    rewrite saveEffect_isTyping, saveEffect_messages, saveEffect_pending.
    cbn [isTyping messages pending]. rewrite Hclear. split; [constructor | exact Hp].
  - unfold conversation in Hc. destruct (isTyping st) eqn:Et.
    + destruct Hc as (ms & q & random & Hx & Hq & Hm & Hp). rewrite Hp.
      cbn [simulateAssistantResponse settlement handleSendMessage_resume].
      unfold conversation.
      rewrite saveEffect_isTyping, saveEffect_messages, saveEffect_pending.
      cbn [isTyping messages pending]. split; [|reflexivity].
      rewrite Hm, <- app_assoc. cbn [app].
      apply exchanges_snoc; [exact Hx | exact Hq | reflexivity | reflexivity].
    + destruct Hc as [Hx Hp]. rewrite Hp. unfold conversation. now rewrite Et.
Qed.

(** From a page with no history, and as long as Clear is not clicked while a
    response is awaited, the history is made of whole exchanges: questions
    of the user, each followed at once by the response the simulator gives
    to that very text; while a response is awaited it ends with the one
    question still open. *)
Theorem questions_get_their_answers (toLowerCase : jsstring -> jsstring)
        (events : list Event) (st : ChatApp) :
  conversation toLowerCase st ->
  clearsWhenIdle toLowerCase events st ->
  conversation toLowerCase (run toLowerCase events st).
Proof.
  revert st. induction events as [|e es IH]; intros st Hc Hq; [exact Hc|].
  cbn [run]. destruct Hq as [H1 H2]. apply IH; [|exact H2].
  now apply conversation_step.
Qed.

Lemma conversation_idle (toLowerCase : jsstring -> jsstring) (st : ChatApp) :
  isTyping st = false -> conversation toLowerCase st ->
  exchanges toLowerCase (messages st) /\ pending st = [].
Proof. unfold conversation. intros E H. now rewrite E in H. Qed.

Lemma questions_get_their_answers_witness :
  exchanges asciiLowerCase
    (messages
       (run asciiLowerCase
          [Change (js "hi"); ClickSend (mkClock 1 2) (number 0); Settle (mkClock 3 4);
           ClickClear; Change (js "why"); KeyPress (js "Enter") false (mkClock 5 6) (number 0);
           Settle (mkClock 7 8)]
          {| messages := []; inputValue := []; isTyping := false;
             localStorage := ∅; pending := []; consoleErrors := [] |})).
Proof.
  apply conversation_idle; [vm_compute; reflexivity|].
  apply questions_get_their_answers.
  - unfold conversation. cbn [isTyping messages pending]. split; [constructor | reflexivity].
  - vm_compute. repeat split; intros; try discriminate; reflexivity.
Defined.

(** ** Reloading the page *)

Lemma insert_twice (storage : gmap jsstring jsstring) (text : jsstring) :
  <[storageKey := text]> (<[storageKey := text]> storage) = <[storageKey := text]> storage.
Proof. apply insert_insert_eq. Qed.

Lemma mount_twice (storage : gmap jsstring jsstring) (st : ChatApp) :
  mount storage = Mounted st -> mount (localStorage st) = Mounted st.
Proof.
  unfold mount. destruct (loadEffect storage) as [|[ms|l]|e] eqn:El; intros H;
    inversion H; subst; clear H.
  - cbn [localStorage]. now rewrite El.
  - destruct ms as [|m ms].
    + cbn [saveEffect messages localStorage]. now rewrite El.
    + pose proof (loadEffect_valid _ _ El) as Hv.
      cbn [saveEffect messages localStorage].
      rewrite (loadEffect_stringifyMessages _ (m :: ms));
        [|apply lookup_insert_eq | exact Hv].
      cbn [saveEffect messages localStorage inputValue isTyping pending consoleErrors].
      now rewrite insert_twice.
Qed.

Lemma asMessage_reviveThrows (v : json) (m : Message) :
  asMessage v = Some m -> reviveThrows v = false.
Proof.
  unfold asMessage.
  destruct v as [| | | |l|ms]; try discriminate.
  destruct ms as [|[k1 [| | |i| |]] ms]; try discriminate.
  destruct ms as [|[k2 [| | |r| |]] ms]; try discriminate.
  destruct ms as [|[k3 [| | |c| |]] ms]; try discriminate.
  destruct ms as [|[k4 [| | |t| |]] ms]; try discriminate.
  destruct ms; try discriminate.
  destruct (streq k4 (js "timestamp")) eqn:E4; [|now rewrite !andb_false_r].
  intros _. cbn [reviveThrows lookupLast]. now rewrite E4.
Qed.

Lemma mapM_asMessage_reviveThrows (l : list json) (ms : list Message) :
  mapM asMessage l = Some ms -> existsb reviveThrows l = false.
Proof.
  intros H. apply mapM_Some in H.
  induction H as [|v m l ms Hv Hl IH]; [reflexivity|].
  cbn [existsb]. now rewrite (asMessage_reviveThrows v m Hv).
Qed.

(** Over a storage that holds no history, or messages written as the page
    writes them, the page comes up with these messages. *)
Lemma ownHistory_mount (storage : gmap jsstring jsstring) (ms : list Message) :
  ownHistory storage ms ->
  exists st, mount storage = Mounted st /\ messages st = ms.
Proof.
  intros [[-> H]|(text & l & Hs & Hp & Hm)]; unfold mount.
  - replace (loadEffect storage) with NotCalled
      by (unfold loadEffect; destruct H as [-> | ->]; reflexivity).
    eexists. split; reflexivity.
  - assert (E : loadEffect storage = SetMessages (Restored ms)).
    { unfold loadEffect. rewrite Hs.
      destruct text as [|c text]; [discriminate Hp|]. cbn [truthy].
      now rewrite Hp, (mapM_asMessage_reviveThrows _ _ Hm), Hm. }
    rewrite E. eexists. split; [reflexivity|]. apply saveEffect_messages.
Qed.

(** Mounting settles the storage, for a storage in the page's own form:
    when the storage holds no history, or holds messages written as the page
    writes them (white space between the tokens and a year with sign allowed),
    the page comes up with these messages, writes them under the key in the
    form of [JSON.stringify], and a page mounted over the storage it leaves
    is that same page. Nothing is said of the other stored arrays. *)
Theorem mount_is_stable (storage : gmap jsstring jsstring) (ms : list Message) :
  ownHistory storage ms ->
  exists st,
    mount storage = Mounted st /\ messages st = ms
    /\ (ms <> [] -> localStorage st !! storageKey = Some (stringifyMessages ms))
    /\ mount (localStorage st) = Mounted st.
Proof.
  intros H. destruct (ownHistory_mount _ _ H) as (st & Hm & Hms).
  exists st. split; [exact Hm|]. split; [exact Hms|]. split; [|exact (mount_twice _ _ Hm)].
  intros Hne. unfold mount in Hm.
  destruct (loadEffect storage) as [|[ms'|l]|e]; inversion Hm; subst; clear Hm.
  - now destruct Hne.
  - rewrite saveEffect_storage, saveEffect_messages. cbn [messages] in *.
    now destruct ms'.
Qed.

Lemma mount_is_stable_witness :
  exists st,
    mount {[ storageKey := handWritten ]} = Mounted st
    /\ localStorage st !! storageKey
       = Some (stringifyMessages
                 [{| id := js "1"; role := user; content := js "hi";
                     timestamp := 1700000000001%Z |}])
    /\ mount (localStorage st) = Mounted st.
Proof.
  destruct (mount_is_stable {[ storageKey := handWritten ]}
              [{| id := js "1"; role := user; content := js "hi";
                  timestamp := 1700000000001%Z |}])
    as (st & H1 & _ & H2 & H3).
  - right. eexists handWritten, _. split; [apply lookup_singleton_eq|].
    split; [vm_compute; reflexivity|]. vm_compute. reflexivity.
  - exists st. split; [exact H1|]. split; [apply H2; discriminate | exact H3].
Defined.

Lemma reachable_run (toLowerCase : jsstring -> jsstring) (events : list Event)
      (st : ChatApp) :
  reachable toLowerCase st -> Forall validEvent events ->
  reachable toLowerCase (run toLowerCase events st).
Proof.
  revert st. induction events as [|e es IH]; intros st Hr Hv; [exact Hr|].
  apply Forall_cons_iff in Hv as [He Hes]. cbn [run].
  apply IH; [|exact Hes]. now apply reachable_step.
Qed.

Lemma reload_reachable (toLowerCase : jsstring -> jsstring) (st : ChatApp) :
  reachable toLowerCase st -> messages st <> [] ->
  mount (localStorage st)
  = Mounted {| messages := messages st; inputValue := []; isTyping := false;
               localStorage := localStorage st; pending := []; consoleErrors := [] |}.
Proof.
  intros Hr Hne. destruct (reachable_storage _ _ Hr) as [Hv Hs].
  specialize (Hs Hne). unfold mount.
  rewrite (loadEffect_stringifyMessages _ _ Hs Hv). f_equal.
  unfold saveEffect. cbn [messages localStorage inputValue isTyping pending consoleErrors].
  destruct (messages st) as [|m ms] eqn:E; [now destruct Hne|].
  f_equal. apply insert_id. exact Hs.
Qed.

(** Reloading a page whose history is its own. The page came up over a
    storage with no history, or with messages written as the page writes
    them, and was then driven by any events (their clock readings within the
    range of [Date]). As soon as it has a message, a page mounted over its
    storage has the same messages and nothing else of its state: the input
    typed so far is gone, and so is the response that was awaited, which
    will never be appended. Nothing is said of a page that came up over
    another stored array. *)
Theorem reload_keeps_messages_only (toLowerCase : jsstring -> jsstring)
        (storage : gmap jsstring jsstring) (ms : list Message) (st0 : ChatApp)
        (events : list Event) :
  ownHistory storage ms -> mount storage = Mounted st0 ->
  Forall validEvent events ->
  messages (run toLowerCase events st0) <> [] ->
  mount (localStorage (run toLowerCase events st0))
  = Mounted {| messages := messages (run toLowerCase events st0);
               inputValue := []; isTyping := false;
               localStorage := localStorage (run toLowerCase events st0);
               pending := []; consoleErrors := [] |}.
Proof.
  intros _ Hm Hv Hne. apply (reload_reachable toLowerCase); [|exact Hne].
  apply reachable_run; [|exact Hv]. exact (reachable_mount _ _ _ Hm).
Qed.

Lemma reload_keeps_messages_only_witness :
  isTyping
    (run asciiLowerCase
       [Change (js "hi"); ClickSend (mkClock 1700000000000 1700000000000) (number 0)]
       {| messages := []; inputValue := []; isTyping := false;
          localStorage := ∅; pending := []; consoleErrors := [] |})
  = true
  /\ exists fresh,
       mount
         (localStorage
            (run asciiLowerCase
               [Change (js "hi"); ClickSend (mkClock 1700000000000 1700000000000) (number 0)]
               {| messages := []; inputValue := []; isTyping := false;
                  localStorage := ∅; pending := []; consoleErrors := [] |}))
       = Mounted fresh
       /\ isTyping fresh = false /\ pending fresh = [].
Proof.
  split; [vm_compute; reflexivity|].
  eexists. split.
  - apply (reload_keeps_messages_only asciiLowerCase ∅ []).
    + left. split; [reflexivity | now left].
    + reflexivity.
    + constructor; [exact I|]. constructor; [|constructor].
      split; [unfold validTime, maxTime; cbn; lia|]. repeat split; reflexivity.
    + intros E. apply (f_equal (@length Message)) in E. vm_compute in E. discriminate E.
  - split; reflexivity.
Defined.

(** ** The ids of the messages *)

Lemma js_inj (a b : string) : js a = js b -> a = b.
Proof.
  unfold js. intros H.
  rewrite <- (string_of_list_ascii_of_string a), <- (string_of_list_ascii_of_string b).
  f_equal. revert H. generalize (list_ascii_of_string a) (list_ascii_of_string b).
  intros l. induction l as [|x l IH]; intros [|y l']; cbn [map]; intros H;
    try discriminate; [reflexivity|].
  injection H as Hxy Hl. f_equal; [|now apply IH].
  rewrite <- (ascii_N_embedding x), <- (ascii_N_embedding y). now rewrite Hxy.
Qed.

(** [Number.prototype.toString] gives different integers different texts. *)
Lemma Z_toString_inj (n n' : Z) : Z_toString n = Z_toString n' -> n = n'.
Proof.
  unfold Z_toString. intros H. apply js_inj in H.
  apply DecimalZ.to_int_inj.
  assert (Hnn : forall z, Z.to_int z <> Decimal.Pos Decimal.Nil
                          /\ Z.to_int z <> Decimal.Neg Decimal.Nil).
  { intros [|p|p]; cbn [Z.to_int]; split; try discriminate;
      intros E; injection E as E; exact (DecimalPos.Unsigned.to_uint_nonnil p E). }
  destruct (Hnn n) as [H1 H2]. destruct (Hnn n') as [H1' H2'].
  pose proof (NilZero.isi _ H1 H2) as E. pose proof (NilZero.isi _ H1' H2') as E'.
  rewrite H in E. rewrite E in E'. now injection E'.
Qed.

(** What one event does to the history: nothing, one message more, with an
    id made from the clock reading of the event, or, for Clear, all gone. *)
Lemma step_messages (toLowerCase : jsstring -> jsstring) (e : Event) (st : ChatApp) :
  messages (step toLowerCase e st) = messages st
  \/ (exists clock m,
        eventClock e = Some clock
        /\ messages (step toLowerCase e st) = messages st ++ [m]
        /\ (id m = Z_toString (dateNow clock) \/ id m = Z_toString (dateNow clock + 1)))
  \/ (e = ClickClear /\ messages (step toLowerCase e st) = []).
Proof.
  assert (Hsend : forall clock random,
            messages (handleSendMessage toLowerCase clock random st) = messages st
            \/ exists m,
                 messages (handleSendMessage toLowerCase clock random st) = messages st ++ [m]
                 /\ id m = Z_toString (dateNow clock)).
  { intros clock random. unfold handleSendMessage.
    destruct (negb (truthy (trim (inputValue st)))); [now left|].
    right. rewrite saveEffect_messages. cbn [messages]. eexists. split; reflexivity. }
  destruct e as [value|key shiftKey clock random|clock random| |clock]; cbn [step].
  - left. now destruct (isTyping st).
  - destruct (isTyping st); [now left|]. unfold handleKeyPress.
    destruct (streq key (js "Enter") && negb shiftKey); [|now left].
    destruct (Hsend clock random) as [H|(m & H & Hi)]; [now left|].
    right. left. exists clock, m. cbn [eventClock]. auto.
  - destruct (negb (truthy (trim (inputValue st))) || isTyping st); [now left|].
    destruct (Hsend clock random) as [H|(m & H & Hi)]; [now left|].
    right. left. exists clock, m. cbn [eventClock]. auto.
  - right. right. split; [reflexivity|]. unfold clearChat. now rewrite saveEffect_messages.
  - destruct (pending st) as [|p ps]; [now left|].
    unfold handleSendMessage_resume. destruct (settlement p); [|now left].
    right. left. rewrite saveEffect_messages. cbn [messages eventClock].
    eexists clock, _. split; [reflexivity|]. split; [reflexivity|]. now right.
Qed.

(** Without Clear the history only grows: what was there stays, in place and
    unchanged, and messages are added at the end. *)
Theorem history_only_grows (toLowerCase : jsstring -> jsstring) (events : list Event)
        (st : ChatApp) :
  Forall (fun e => e <> ClickClear) events ->
  exists added, messages (run toLowerCase events st) = messages st ++ added.
Proof.
  revert st. induction events as [|e es IH]; intros st H.
  - exists []. now rewrite app_nil_r.
  - apply Forall_cons_iff in H as [He Hes]. cbn [run].
    destruct (IH (step toLowerCase e st) Hes) as (added & ->).
    destruct (step_messages toLowerCase e st) as [->|[(clock & m & _ & -> & _)|[Hc _]]].
    + now exists added.
    + exists (m :: added). now rewrite <- app_assoc.
    + contradiction.
Qed.

Lemma history_only_grows_witness :
  exists added,
    messages
      (run asciiLowerCase
         [Change (js "why"); ClickSend (mkClock 3 4) (number 0); Settle (mkClock 5 6)]
         {| messages := [{| id := js "1"; role := user; content := js "hi";
                            timestamp := 2%Z |}];
            inputValue := []; isTyping := false;
            localStorage := ∅; pending := []; consoleErrors := [] |})
    = [{| id := js "1"; role := user; content := js "hi"; timestamp := 2%Z |}] ++ added.
Proof.
  apply (history_only_grows asciiLowerCase
           [Change (js "why"); ClickSend (mkClock 3 4) (number 0); Settle (mkClock 5 6)]).
  repeat constructor; discriminate.
Defined.

Lemma ids_step (toLowerCase : jsstring -> jsstring) (e : Event) (st : ChatApp) (last : Z) :
  NoDup (keys st) ->
  Forall (fun m => exists z, id m = Z_toString z /\ (z <= last + 1)%Z) (messages st) ->
  (forall clock, eventClock e = Some clock -> (last + 1 < dateNow clock)%Z) ->
  NoDup (keys (step toLowerCase e st))
  /\ Forall (fun m => exists z,
               id m = Z_toString z
               /\ (z <= match eventClock e with
                        | Some clock => dateNow clock
                        | None => last
                        end + 1)%Z)
       (messages (step toLowerCase e st)).
Proof.
  intros Hnd Hb Hc. unfold keys in *.
  assert (Hb' : Forall (fun m => exists z,
                          id m = Z_toString z
                          /\ (z <= match eventClock e with
                                   | Some clock => dateNow clock
                                   | None => last
                                   end + 1)%Z) (messages st)).
  { eapply Forall_impl; [exact Hb|]. intros m (z & Hz & Hle). exists z. split; [exact Hz|].
    destruct (eventClock e) as [clock|]; [|exact Hle].
    specialize (Hc clock eq_refl). lia. }
  destruct (step_messages toLowerCase e st) as [->|[(clock & m & Hk & -> & Hi)|[_ ->]]].
  - now split.
  - specialize (Hc clock Hk). rewrite Hk in *. split.
    + rewrite map_app. cbn [map]. apply NoDup_app. split; [exact Hnd|].
      split; [|apply NoDup_singleton].
      intros x Hx Hx'. apply list_elem_of_singleton in Hx'. subst x.
      apply list_elem_of_fmap in Hx as (m0 & Hm0 & Hin).
      apply (proj1 (Forall_forall _ _) Hb) in Hin as (z & Hz & Hle).
      rewrite Hz in Hm0.
      destruct Hi as [Hi|Hi]; rewrite Hi in Hm0; apply Z_toString_inj in Hm0; lia.
    + apply Forall_app. split; [exact Hb'|]. constructor; [|constructor].
      destruct Hi as [Hi|Hi]; eexists; (split; [exact Hi | lia]).
  - split; constructor.
Qed.

(** The ids, which are the React keys of the list, are pairwise distinct as
    long as the clock moves on: from an empty history, when every reading of
    [Date.now()] is more than one millisecond after the reading before it,
    no two messages have the same id. *)
Theorem ids_are_distinct (toLowerCase : jsstring -> jsstring) (events : list Event)
        (st : ChatApp) (last : Z) :
  messages st = [] -> spaced last events ->
  NoDup (keys (run toLowerCase events st)).
Proof.
  intros Hm Hs.
  assert (Hnd : NoDup (keys st)) by (unfold keys; rewrite Hm; constructor).
  assert (Hb : Forall (fun m => exists z, id m = Z_toString z /\ (z <= last + 1)%Z)
                 (messages st)) by (rewrite Hm; constructor).
  clear Hm. revert st last Hs Hnd Hb.
  induction events as [|e es IH]; intros st last Hs Hnd Hb; [exact Hnd|].
  cbn [run]. cbn [spaced] in Hs.
  destruct (ids_step toLowerCase e st last Hnd Hb) as [Hnd' Hb'].
  { intros clock Hk. rewrite Hk in Hs. exact (proj1 Hs). }
  destruct (eventClock e) as [clock|].
  - exact (IH _ (dateNow clock) (proj2 Hs) Hnd' Hb').
  - exact (IH _ last Hs Hnd' Hb').
Qed.

Lemma ids_are_distinct_witness :
  NoDup
    (keys
       (run asciiLowerCase
          [Change (js "hi"); ClickSend (mkClock 1000 1000) (number 0);
           Settle (mkClock 2500 2500); Change (js "why");
           ClickSend (mkClock 2502 2502) (number 0)]
          {| messages := []; inputValue := []; isTyping := false;
             localStorage := ∅; pending := []; consoleErrors := [] |})).
Proof.
  apply (ids_are_distinct asciiLowerCase _ _ 0); [reflexivity|].
  cbn [spaced eventClock dateNow]. lia.
Defined.

(** The clock is all that keeps the ids apart: when the next question is
    sent at the reading that follows the one at which a response arrived,
    the question gets the id of that response. *)
Theorem ids_collide_one_millisecond_later (toLowerCase : jsstring -> jsstring)
        (clock clock' : Clock) (random : spec_float) (p : Pending)
        (response value : jsstring) (st : ChatApp) :
  pending st = [p] -> settlement p = Fulfilled response ->
  truthy (trim value) = true ->
  dateNow clock' = (dateNow clock + 1)%Z ->
  keys (run toLowerCase [Settle clock; Change value; ClickSend clock' random] st)
  = keys st ++ [Z_toString (dateNow clock + 1); Z_toString (dateNow clock + 1)].
Proof.
  intros Hp Hs Hv Hc. unfold keys. cbn [run].
  assert (H1 : messages (step toLowerCase (Settle clock) st)
               = messages st ++ [{| id := Z_toString (dateNow clock + 1); role := assistant;
                                    content := response; timestamp := newDate clock |}]
               /\ isTyping (step toLowerCase (Settle clock) st) = false).
  { cbn [step]. rewrite Hp. unfold handleSendMessage_resume. rewrite Hs.
    rewrite saveEffect_messages, saveEffect_isTyping. split; reflexivity. }
  revert H1. generalize (step toLowerCase (Settle clock) st). intros st1 [M1 T1].
  cbn [step]. rewrite T1. cbn [setInputValue inputValue isTyping]. rewrite Hv, T1.
  cbn [negb orb]. unfold handleSendMessage. cbn [setInputValue inputValue]. rewrite Hv.
  cbn [negb].
  rewrite saveEffect_messages. cbn [setInputValue messages]. rewrite M1, !map_app.
  cbn [map id].
  rewrite Hc, <- app_assoc. reflexivity.
Qed.

Lemma ids_collide_one_millisecond_later_witness :
  keys
    (run asciiLowerCase
       [Settle (mkClock 2500 2500); Change (js "why"); ClickSend (mkClock 2501 2501) (number 0)]
       (step asciiLowerCase (ClickSend (mkClock 1000 1000) (number 0))
          (step asciiLowerCase (Change (js "hi"))
             {| messages := []; inputValue := []; isTyping := false;
                localStorage := ∅; pending := []; consoleErrors := [] |})))
  = [js "1000"; js "2501"; js "2501"].
Proof.
  rewrite (ids_collide_one_millisecond_later asciiLowerCase (mkClock 2500 2500)
             (mkClock 2501 2501) (number 0)
             (simulateAssistantResponse asciiLowerCase (number 0) (js "hi"))
             (responseText asciiLowerCase (js "hi")) (js "why"));
    [vm_compute; reflexivity | vm_compute; reflexivity | reflexivity | reflexivity | reflexivity].
Defined.

(** ** The label and the text of a code block *)

Lemma takeWord_app (w rest : jsstring) :
  forallb isWordChar w = true ->
  (forall c r, rest = c :: r -> isWordChar c = false) ->
  takeWord (w ++ rest) = w.
Proof.
  intros Hw Hr. induction w as [|c w IH]; cbn [app].
  - destruct rest as [|c r]; [reflexivity|]. cbn [takeWord]. now rewrite (Hr c r eq_refl).
  - cbn [forallb] in Hw. apply andb_true_iff in Hw as [Hc Hw].
    cbn [takeWord]. rewrite Hc. f_equal. now apply IH.
Qed.

Lemma takeWord_split (s : jsstring) :
  exists rest,
    s = takeWord s ++ rest /\ forallb isWordChar (takeWord s) = true
    /\ (forall c r, rest = c :: r -> isWordChar c = false).
Proof.
  induction s as [|c s (rest & E & Hw & Hr)].
  - exists []. repeat split. discriminate.
  - cbn [takeWord]. destruct (isWordChar c) eqn:Ec.
    + exists rest. cbn [app forallb]. rewrite Ec, Hw. repeat split; [now f_equal | exact Hr].
    + exists (c :: s). repeat split. intros c' r E'. now injection E' as -> _.
Qed.

Lemma matchLanguageHere_spec (s w : jsstring) :
  matchLanguageHere s = Some w ->
  w <> [] /\ forallb isWordChar w = true
  /\ exists rest, s = js "language-" ++ w ++ rest
                  /\ (forall c r, rest = c :: r -> isWordChar c = false).
Proof.
  unfold matchLanguageHere. destruct (startsWith s (js "language-")) eqn:E; [|discriminate].
  apply startsWith_spec in E as [b ->].
  change (skipn 9 (js "language-" ++ b)) with b.
  destruct (takeWord_split b) as (rest & Eb & Hw & Hr).
  destruct (takeWord b) as [|c t] eqn:Et; [discriminate|].
  intros H. injection H as <-. split; [discriminate|]. split; [exact Hw|].
  exists rest. split; [now rewrite <- Eb | exact Hr].
Qed.

Lemma execLanguage_spec (s w : jsstring) :
  execLanguage s = Some w ->
  w <> [] /\ forallb isWordChar w = true
  /\ exists before rest,
       s = before ++ js "language-" ++ w ++ rest
       /\ (forall c r, rest = c :: r -> isWordChar c = false).
Proof.
  induction s as [|c s IH]; cbn [execLanguage].
  - destruct (matchLanguageHere []) eqn:E; [|discriminate]. intros H. injection H as ->.
    apply matchLanguageHere_spec in E as (H1 & H2 & rest & E & Hr).
    split; [exact H1|]. split; [exact H2|]. now exists [], rest.
  - destruct (matchLanguageHere (c :: s)) eqn:E.
    + intros H. injection H as ->.
      apply matchLanguageHere_spec in E as (H1 & H2 & rest & E & Hr).
      split; [exact H1|]. split; [exact H2|]. now exists [], rest.
    + intros H. destruct (IH H) as (H1 & H2 & before & rest & E' & Hr).
      split; [exact H1|]. split; [exact H2|].
      exists (c :: before), rest. cbn [app]. now rewrite E'.
Qed.

Lemma execLanguage_none (s : jsstring) :
  execLanguage s = None ->
  forall before c after, s = before ++ js "language-" ++ c :: after -> isWordChar c = false.
Proof.
  induction s as [|d s IH]; cbn [execLanguage].
  - intros _ [|x before] c after E; discriminate E.
  - destruct (matchLanguageHere (d :: s)) eqn:E; [discriminate|].
    intros H [|x before] c after Es.
    + cbn [app] in Es. unfold matchLanguageHere in E. rewrite Es in E.
      rewrite startsWith_app in E.
      change (skipn 9 (js "language-" ++ c :: after)) with (c :: after) in E.
      cbn [takeWord] in E. now destruct (isWordChar c).
    + cbn [app] in Es. injection Es as _ Es. exact (IH H before c after Es).
Qed.

(** The label of a code block (page.tsx, lines 70-71 and 75-79). It is the
    run of letters, digits and underscores that follows [language-] in the
    class name, cut at the first other character: the class for c++ is
    labelled c. Whatever the class name, a label that is shown is not empty,
    is made of such characters only and stands in the class name after
    [language-]; and there is no label exactly when no [language-] of the
    class name is followed by such a character. *)
Theorem language_label (className : option jsstring) :
  (forall w rest,
     w <> [] -> forallb isWordChar w = true ->
     (forall c r, rest = c :: r -> isWordChar c = false) ->
     language (Some (js "language-" ++ w ++ rest)) = w)
  /\ (language className <> [] ->
      forallb isWordChar (language className) = true
      /\ exists before rest,
           className = Some (before ++ js "language-" ++ language className ++ rest)
           /\ (forall c r, rest = c :: r -> isWordChar c = false))
  /\ (language className = [] <->
      forall before c after,
        className = Some (before ++ js "language-" ++ c :: after) -> isWordChar c = false).
Proof.
  split; [|split].
  - intros w rest Hne Hw Hr. unfold language.
    change (truthy (js "language-" ++ w ++ rest)) with true. cbn match.
    replace (execLanguage (js "language-" ++ w ++ rest)) with (Some w); [reflexivity|].
    symmetry. destruct (js "language-" ++ w ++ rest) as [|c s] eqn:E; [discriminate E|].
    cbn [execLanguage]. rewrite <- E. unfold matchLanguageHere.
    rewrite startsWith_app.
    change (skipn 9 (js "language-" ++ w ++ rest)) with (w ++ rest).
    rewrite (takeWord_app _ _ Hw Hr). now destruct w.
  - unfold language. intros H.
    destruct (execLanguage _) as [w|] eqn:E; [|now destruct H].
    apply execLanguage_spec in E as (_ & Hw & before & rest & E & Hr).
    split; [exact Hw|]. exists before, rest. split; [|exact Hr].
    destruct className as [c|]; [|now destruct before].
    destruct c; [now destruct before|]. cbn [truthy] in E. now rewrite E.
  - unfold language. split.
    + intros H before c after ->.
      assert (Ht : truthy (before ++ js "language-" ++ c :: after) = true)
        by now destruct before.
      rewrite Ht in H.
      destruct (execLanguage _) as [w|] eqn:E.
      * apply execLanguage_spec in E as (Hne & _). contradiction.
      * exact (execLanguage_none _ E before c after eq_refl).
    + intros H. destruct (execLanguage _) as [w|] eqn:E; [|reflexivity].
      apply execLanguage_spec in E as (Hne & Hw & before & rest & E & Hr).
      destruct w as [|c w]; [contradiction|]. exfalso.
      cbn [forallb] in Hw. apply andb_true_iff in Hw as [Hc _].
      assert (Hs : className = Some (before ++ js "language-" ++ c :: w ++ rest)).
      { destruct className as [cn|]; [|now destruct before].
        destruct cn; [now destruct before|]. cbn [truthy] in E. now rewrite E. }
      rewrite (H _ _ _ Hs) in Hc. discriminate Hc.
Qed.

Lemma language_label_witness :
  language (Some (js "language-c++")) = js "c"
  /\ language (Some (js "hljs language-objective-c")) = js "objective"
  /\ language None = [].
Proof.
  split; [|split; vm_compute; reflexivity].
  apply (proj1 (language_label None) (js "c") (js "++")).
  - discriminate.
  - reflexivity.
  - intros c r E. injection E as <- _. reflexivity.
Defined.

(** The text of a code block (page.tsx, line 82) is its source without the
    line feed at its very end, if there is one. One line feed is taken, not
    every one: a source that ends with two keeps the first. *)
Theorem one_final_line_feed_is_dropped (text : jsstring) :
  stripFinalLineFeed (text ++ [10]) = text
  /\ ((forall before, text <> before ++ [10]) -> stripFinalLineFeed text = text)
  /\ stripFinalLineFeed (stripFinalLineFeed (text ++ [10; 10])) = text.
Proof.
  assert (H : forall t, stripFinalLineFeed (t ++ [10]) = t).
  { intros t. unfold stripFinalLineFeed. rewrite rev_app_distr. cbn [rev app].
    apply rev_involutive. }
  split; [apply H|]. split.
  - intros Hn. unfold stripFinalLineFeed.
    destruct (rev text) as [|c before] eqn:E; [reflexivity|].
    destruct (N.eq_dec c 10) as [->|Hc].
    + exfalso. apply (Hn (rev before)).
      rewrite <- (rev_involutive text), E. reflexivity.
    + destruct c as [|p]; [reflexivity|].
      do 4 (destruct p as [p|p|]; try reflexivity). now destruct Hc.
  - change [10; 10] with ([10] ++ [10]). now rewrite app_assoc, !H.
Qed.

Lemma one_final_line_feed_is_dropped_witness :
  stripFinalLineFeed (js "x = 1") = js "x = 1".
Proof.
  apply (proj1 (proj2 (one_final_line_feed_is_dropped (js "x = 1")))).
  intros before E. apply (f_equal (@rev N)) in E. rewrite rev_app_distr in E.
  vm_compute in E. discriminate E.
Defined.

(** ** The copy button *)

Lemma timeoutFires_all (b : CopyState) :
  timeouts b <> [] ->
  copied (Nat.iter (length (timeouts b)) timeoutFires b) = false
  /\ timeouts (Nat.iter (length (timeouts b)) timeoutFires b) = [].
Proof.
  destruct b as [c cl ts]. cbn [timeouts]. revert c.
  induction ts as [|t ts IH]; intros c H; [now destruct H|].
  cbn [length]. rewrite Nat.iter_succ_r.
  unfold timeoutFires at 2. cbn [timeouts clipboard].
  destruct ts as [|t' ts]; [split; reflexivity|].
  apply IH. discriminate.
Qed.

Lemma copyStep_keeps (message : Message) (e : CopyEvent) (b : CopyState) :
  (copied b = true -> timeouts b <> [])
  /\ (clipboard b = None \/ clipboard b = Some (content message)) ->
  (copied (copyStep message e b) = true -> timeouts (copyStep message e b) <> [])
  /\ (clipboard (copyStep message e b) = None
      \/ clipboard (copyStep message e b) = Some (content message)).
Proof.
  intros [H1 H2]. destruct e as [[|] now|]; cbn [copyStep].
  - unfold handleCopy. cbn [copied timeouts clipboard]. split; [|now right].
    intros _ E. now apply app_eq_nil in E as [_ E].
  - unfold handleCopy. now split.
  - unfold timeoutFires. destruct (timeouts b) eqn:E; [split; [now rewrite E | exact H2]|].
    cbn [copied timeouts clipboard]. split; [discriminate | exact H2].
Qed.

Lemma copyRun_keeps (message : Message) (events : list CopyEvent) (b : CopyState) :
  (copied b = true -> timeouts b <> [])
  /\ (clipboard b = None \/ clipboard b = Some (content message)) ->
  (copied (fold_left (fun b e => copyStep message e b) events b) = true ->
   timeouts (fold_left (fun b e => copyStep message e b) events b) <> [])
  /\ (clipboard (fold_left (fun b e => copyStep message e b) events b) = None
      \/ clipboard (fold_left (fun b e => copyStep message e b) events b)
         = Some (content message)).
Proof.
  revert b. induction events as [|e es IH]; intros b H; [exact H|].
  cbn [fold_left]. apply IH, copyStep_keeps, H.
Qed.

(** The mark of the copy button cannot stay on: whatever was clicked, and
    whichever of the writes to the clipboard failed, while the mark is shown
    a callback that takes it away is still due, and once the callbacks that
    are due have run the mark is off. And the clipboard holds nothing but
    the source text of the message. *)
Theorem copied_mark_goes_away (message : Message) (events : list CopyEvent) :
  (copied (copyRun message events) = true -> timeouts (copyRun message events) <> [])
  /\ copied (Nat.iter (length (timeouts (copyRun message events))) timeoutFires
               (copyRun message events)) = false
  /\ (clipboard (copyRun message events) = None
      \/ clipboard (copyRun message events) = Some (content message)).
Proof.
  destruct (copyRun_keeps message events
              {| copied := false; clipboard := None; timeouts := [] |}) as [H1 H2];
    [split; [discriminate | now left]|].
  fold (copyRun message events) in H1, H2.
  split; [exact H1|]. split; [|exact H2].
  destruct (timeouts (copyRun message events)) as [|t ts] eqn:E.
  - cbn [length Nat.iter nat_rect]. destruct (copied (copyRun message events)); [|reflexivity].
    now destruct (H1 eq_refl).
  - rewrite <- E. apply timeoutFires_all. rewrite E. discriminate.
Qed.

(** A second copy does not get its two seconds: no callback is ever
    cancelled, so the callback of the first click takes the mark away
    although the one of the second click is still due. *)
Theorem second_copy_is_cut_short (message : Message) (now now' : Z) (b : CopyState) :
  timeouts b = [] ->
  copied (timeoutFires (handleCopy message true now' (handleCopy message true now b))) = false
  /\ timeouts (timeoutFires (handleCopy message true now' (handleCopy message true now b)))
     = [(now' + 2000)%Z]
  /\ copied (handleCopy message true now' (handleCopy message true now b)) = true.
Proof.
  intros H. unfold handleCopy, timeoutFires. cbn [timeouts copied clipboard].
  rewrite H. cbn [app]. repeat split.
Qed.

Lemma second_copy_is_cut_short_witness :
  copied
    (timeoutFires
       (handleCopy {| id := js "1"; role := user; content := js "hi"; timestamp := 2%Z |}
          true 1500
          (handleCopy {| id := js "1"; role := user; content := js "hi"; timestamp := 2%Z |}
             true 0 {| copied := false; clipboard := None; timeouts := [] |})))
  = false
  /\ timeouts
       (timeoutFires
          (handleCopy {| id := js "1"; role := user; content := js "hi"; timestamp := 2%Z |}
             true 1500
             (handleCopy {| id := js "1"; role := user; content := js "hi"; timestamp := 2%Z |}
                true 0 {| copied := false; clipboard := None; timeouts := [] |})))
     = [3500%Z].
Proof.
  destruct (second_copy_is_cut_short
              {| id := js "1"; role := user; content := js "hi"; timestamp := 2%Z |}
              0 1500 {| copied := false; clipboard := None; timeouts := [] |} eq_refl)
    as (H1 & H2 & _).
  split; [exact H1 | exact H2].
Defined.
